(** * youtube-audio-bg: the readiness gate, the listener registry and the
      identifier parser, embedded and verified.

    The repository has two facades over the embedded player widget:
    - [src/YouTubeAudio.js], a prototype-based facade whose methods are
      guarded until the widget reports ready (module [Facade]);
    - [src/unnamed/part_000], a class with a listener registry keyed by
      event name, per-listener ids and invocation limits (module
      [Registry]).
    Both carry a [parseVideoId] written as a regular-expression replace
    (module [Regex] holds the matcher, the two parsers follow it).
    Around them: the handler of the widget's state changes in the facade
    (module [Widget]) and the facade's polling for the document and the
    API (module [Page]); the class around its registry (module [Audio])
    and its polling for the API (module [Loader]); [extend] and the
    shuffle (module [Helpers]).

    Modelling conventions.
    - JavaScript numbers that the code uses as counters and indices are
      integers ([Z]) together with [NaN] where the code can produce it.
    - Strings are [string]; a character is an [ascii] code unit.
    - Objects used as maps are maps over their own properties; names
      inherited from [Object.prototype] are not modelled.
    - The widget, [Math.random] and the closures handed in by the caller
      are the host: an interface ([Host]) with no assumption on what it
      answers.  A caller's closure is observed when it is invoked and by
      whether it throws; it does not call back into the facade. *)

From Stdlib Require Import ZArith List String Ascii Bool Lia DecimalString.
From Stdlib Require DecimalZ.
From stdpp Require Import gmap strings list.

Local Open Scope string_scope.
Local Open Scope Z_scope.
Local Open Scope list_scope.

(** ** JavaScript values *)

(** A number as the code uses it: an integer or [NaN]. *)
Inductive jsnum :=
| Num (z : Z)
| NaN.

Definition loc := nat.          (* address of an array in the store *)
Definition fn := nat.           (* identity of a closure of the caller *)

Inductive value :=
| VUndefined
| VNull
| VBool (b : bool)
| VNumber (n : jsnum)
| VString (s : string)
| VArray (l : loc)              (* reference to an array of strings *)
| VFunction (f : fn)
| VObject (o : nat)             (* opaque host object, e.g. an event *)
| VThis                         (* the facade instance itself *)
| VError (message : string)     (* new Error(message) *)
| VTypeError.                   (* TypeError raised by the engine *)

(** ToBoolean. *)
Definition truthy (v : value) : bool :=
  match v with
  | VUndefined | VNull => false
  | VBool b => b
  | VNumber (Num z) => negb (z =? 0)
  | VNumber NaN => false
  | VString s => negb (String.eqb s "")
  | _ => true
  end.

(** [a + b] and [a % b] on numbers: [%] takes the sign of the dividend
    and is [NaN] for a zero divisor. *)
Definition js_add (a b : jsnum) : jsnum :=
  match a, b with
  | Num x, Num y => Num (x + y)
  | _, _ => NaN
  end.

Definition js_rem (a b : jsnum) : jsnum :=
  match a, b with
  | Num x, Num y => if y =? 0 then NaN else Num (Z.rem x y)
  | _, _ => NaN
  end.

(** ToString of a number. *)
Definition js_number_to_string (n : jsnum) : string :=
  match n with
  | Num z => NilEmpty.string_of_int (Z.to_int z)
  | NaN => "NaN"
  end.

(** ** Completion of a call: a value or a thrown exception *)

Inductive result (A : Type) :=
| Ok (a : A)
| Throw (e : value).
Arguments Ok {A} a.
Arguments Throw {A} e.

(** Code that reads and writes the instance and may throw.  A throw keeps
    the writes made so far, as in JavaScript. *)
Definition M (S A : Type) : Type := S -> S * result A.

Definition ret {S A} (a : A) : M S A := fun s => (s, Ok a).
Definition throw {S A} (e : value) : M S A := fun s => (s, Throw e).
Definition bind {S A B} (m : M S A) (k : A -> M S B) : M S B :=
  fun s => match m s with
           | (s', Ok a) => k a s'
           | (s', Throw e) => (s', Throw e)
           end.
Definition get {S} : M S S := fun s => (s, Ok s).
Definition modify {S} (f : S -> S) : M S unit := fun s => (f s, Ok tt).

(** [try { m } catch (e) { h e }]. *)
Definition try_catch {S A} (m : M S A) (h : value -> M S A) : M S A :=
  fun s => match m s with
           | (s', Ok a) => (s', Ok a)
           | (s', Throw e) => h e s'
           end.

Declare Scope js_scope.
Delimit Scope js_scope with js.
Notation "x <- m ;; k" := (bind m (fun x => k))
  (at level 100, m at next level, right associativity) : js_scope.
Notation "m ;;; k" := (bind m (fun _ => k))
  (at level 100, right associativity) : js_scope.

(** [xs.forEach(f)] and [for (x of xs) f(x)]: stops at the first throw. *)
Fixpoint for_each {S A} (f : A -> M S unit) (xs : list A) : M S unit :=
  match xs with
  | [] => ret tt
  | x :: xs' => bind (f x) (fun _ => for_each f xs')
  end.

(** ** The host *)

(** What the facade consumes and does not own: the widget (constructed
    from the first video id and the autoplay flag, then driven by method
    name), the widget's state-code enumeration, the rearrangement that
    [sort] with a random comparator makes, and the caller's closures.
    [fn_throws log f args] is [Some e] when closure [f], called with
    [args] after the invocations in [log], throws [e]. *)
Class Host (W : Type) := {
  player_new : value -> bool -> W;
  player_call : string -> list value -> W -> W * value;
  PlayerState : list (string * Z);
  random_sort : list string -> list string;
  fn_throws : list (fn * list value) -> fn -> list value -> option value
}.

(** ** Regular expressions, as [String.prototype.replace] runs them *)

Module Regex.

(** The constructs the two [parseVideoId] patterns use.  A quantifier is
    always over a character class there, so [Star] and [Plus] take the
    class; [greedy = false] is the lazy form ([*?]). *)
Inductive re :=
| Eps
| Bol                                        (* ^ *)
| Eol                                        (* $ *)
| Chr (p : ascii -> bool)                    (* one character of a class *)
| Seq (r1 r2 : re)
| Alt (r1 r2 : re)                           (* r1|r2, r1 tried first *)
| Star (greedy : bool) (p : ascii -> bool)   (* [p]* or [p]*? *)
| Group (n : nat) (r : re).                  (* the n-th capturing group *)

Declare Scope re_scope.
Delimit Scope re_scope with re.
Bind Scope re_scope with re.
Infix ">>" := Seq (at level 41, right associativity) : re_scope.
Infix "||" := Alt (at level 50, left associativity) : re_scope.

Definition Plus (greedy : bool) (p : ascii -> bool) : re :=
  Chr p >> Star greedy p.

(** A literal: its characters in sequence. *)
Fixpoint lit (s : string) : re :=
  match s with
  | EmptyString => Eps
  | String c s' => Chr (Ascii.eqb c) >> lit s'
  end.

(** Character classes. *)
Definition any (_ : ascii) : bool := true.                      (* [^] *)
Definition one_of (cs : string) (c : ascii) : bool :=
  existsb (Ascii.eqb c) (list_ascii_of_string cs).
Definition none_of (cs : string) (c : ascii) : bool := negb (one_of cs c).
Definition in_range (lo hi : ascii) (c : ascii) : bool :=
  ((nat_of_ascii lo <=? nat_of_ascii c) && (nat_of_ascii c <=? nat_of_ascii hi))%nat.
(** [.]: anything but a line terminator. *)
Definition dot (c : ascii) : bool :=
  negb (Ascii.eqb c "010" || Ascii.eqb c "013").
(** [\w]. *)
Definition word (c : ascii) : bool :=
  in_range "a" "z" c || in_range "A" "Z" c || in_range "0" "9" c || Ascii.eqb c "_".
(** [[\w\-]]. *)
Definition word_or_dash (c : ascii) : bool := word c || Ascii.eqb c "-".

(** Captures: the text of each group that took part in the match. *)
Definition caps := list (nat * list ascii).

Fixpoint cap (n : nat) (c : caps) : list ascii :=
  match c with
  | [] => []
  | (m, t) :: c' => if Nat.eqb m n then t else cap n c'
  end.

Section Exec.
Context {A : Type}.

(** Backtracking in continuation style: [k] is the rest of the pattern;
    the first alternative that lets [k] succeed wins.  [pos] is the
    index of the first character of [s] in the subject. *)
Fixpoint star_greedy (p : ascii -> bool) (k : nat -> list ascii -> option A)
    (pos : nat) (s : list ascii) : option A :=
  match s with
  | x :: s' =>
      if p x then
        match star_greedy p k (S pos) s' with
        | Some a => Some a
        | None => k pos s
        end
      else k pos s
  | [] => k pos []
  end.

Fixpoint star_lazy (p : ascii -> bool) (k : nat -> list ascii -> option A)
    (pos : nat) (s : list ascii) : option A :=
  match k pos s with
  | Some a => Some a
  | None =>
      match s with
      | x :: s' => if p x then star_lazy p k (S pos) s' else None
      | [] => None
      end
  end.

Fixpoint exec (r : re) (k : nat -> list ascii -> caps -> option A)
    (pos : nat) (s : list ascii) (c : caps) : option A :=
  match r with
  | Eps => k pos s c
  | Bol => if Nat.eqb pos 0 then k pos s c else None
  | Eol => match s with [] => k pos s c | _ :: _ => None end
  | Chr p =>
      match s with
      | x :: s' => if p x then k (S pos) s' c else None
      | [] => None
      end
  | Seq r1 r2 => exec r1 (fun pos' s' c' => exec r2 k pos' s' c') pos s c
  | Alt r1 r2 =>
      match exec r1 k pos s c with
      | Some a => Some a
      | None => exec r2 k pos s c
      end
  | Star greedy p =>
      (if greedy then star_greedy else star_lazy) p
        (fun pos' s' => k pos' s' c) pos s
  | Group n r =>
      exec r (fun pos' s' c' => k pos' s' ((n, firstn (pos' - pos) s) :: c'))
        pos s c
  end.

End Exec.

(** A match starting at [pos]: the captures and what follows the match. *)
Definition final : nat -> list ascii -> caps -> option (caps * list ascii) :=
  fun _ s' c => Some (c, s').

Definition match_at (r : re) (pos : nat) (s : list ascii)
  : option (caps * list ascii) :=
  exec r final pos s [].

(** A replacement pattern such as ['$1$2']: the groups to splice in. *)
Fixpoint expand (groups : list nat) (c : caps) : list ascii :=
  match groups with
  | [] => []
  | n :: groups' => cap n c ++ expand groups' c
  end.

(** [s.replace(r, tpl)] without the [g] flag: the leftmost match is
    replaced, the subject is returned as it is when there is none. *)
Fixpoint replace_first (r : re) (tpl : list nat) (pos : nat) (s : list ascii)
  : list ascii :=
  match match_at r pos s with
  | Some (c, s') => expand tpl c ++ s'
  | None =>
      match s with
      | x :: s1 => x :: replace_first r tpl (S pos) s1
      | [] => []
      end
  end.


End Regex.

(** ** [parseVideoId], both versions *)

Module ParseVideoId.
Import Regex.
Local Open Scope re_scope.

(** src/YouTubeAudio.js:
    [/^[^]*?[\?&]v=([^&]+)[^]*$|^[^]*?:\/\/youtu.be\/([^\/\?]+)[^]*$/]
    (the dot of [youtu.be] is not escaped there).  [watch_tail] is
    [[\?&]v=([^&]+)[^]*$], [short_tail] is
    [:\/\/youtu.be\/([^\/\?]+)[^]*$]. *)
Definition watch_tail : re :=
  Chr (one_of "?&") >> lit "v=" >> Group 1 (Plus true (none_of "&")) >>
  Star true any >> Eol.

Definition short_tail : re :=
  lit "://youtu" >> Chr dot >> lit "be/" >> Group 2 (Plus true (none_of "/?")) >>
  Star true any >> Eol.

Definition watch_re : re := Bol >> Star false any >> watch_tail.
Definition short_re : re := Bol >> Star false any >> short_tail.
Definition facade_re : re := watch_re || short_re.

(** [source.replace(/.../, '$1$2')] *)
Definition facade_parse (source : string) : string :=
  string_of_list_ascii
    (replace_first facade_re [1; 2]%nat 0 (list_ascii_of_string source)).



End ParseVideoId.

(** ** Shapes of strings, for stating what the parsers do *)

Module RegexAux.
Import Regex.

(** [s] without the prefix [t], when it starts with [t]. *)
Fixpoint strip_prefix (t s : list ascii) : option (list ascii) :=
  match t, s with
  | [], _ => Some s
  | c :: t', x :: s' => if Ascii.eqb c x then strip_prefix t' s' else None
  | _ :: _, [] => None
  end.

(** [s] is empty or starts with a character outside the class [p]. *)
Definition stops (p : ascii -> bool) (s : list ascii) : Prop :=
  match s with
  | [] => True
  | x :: _ => p x = false
  end.

(** Some suffix of [s] satisfies [here]. *)
Fixpoint occurs (here : list ascii -> bool) (s : list ascii) : bool :=
  here s ||
  match s with
  | _ :: s' => occurs here s'
  | [] => false
  end.


End RegexAux.

Module Shapes.
Import Regex RegexAux.

(** A bare identifier: letters, digits, [_] and [-] only. *)
Definition bare (s : string) : bool :=
  forallb word_or_dash (list_ascii_of_string s).

(** The watch shape as the facade reads it: [?] or [&], then [v=], then
    a character other than [&]. *)
Definition watch_here (s : list ascii) : bool :=
  match s with
  | q :: s1 =>
      one_of "?&" q &&
      match strip_prefix (list_ascii_of_string "v=") s1 with
      | Some (c :: _) => none_of "&" c
      | _ => false
      end
  | [] => false
  end.

(** The short shape as the facade reads it: [://youtu], any character
    but a line terminator, [be/], then a character other than [/] and
    [?]. *)
Definition short_here (s : list ascii) : bool :=
  match strip_prefix (list_ascii_of_string "://youtu") s with
  | Some (d :: s1) =>
      dot d &&
      match strip_prefix (list_ascii_of_string "be/") s1 with
      | Some (c :: _) => none_of "/?" c
      | _ => false
      end
  | _ => false
  end.

Definition has_watch_shape (s : string) : bool :=
  occurs watch_here (list_ascii_of_string s).




(** The [v] parameter as the class reads it: [?] or [&], then [v=], then
    a character of an identifier. *)
Definition parameter_here (s : list ascii) : bool :=
  match s with
  | q :: s1 =>
      one_of "?&" q &&
      match strip_prefix (list_ascii_of_string "v=") s1 with
      | Some (c :: _) => word_or_dash c
      | _ => false
      end
  | [] => false
  end.

Definition has_parameter (s : string) : bool :=
  occurs parameter_here (list_ascii_of_string s).



End Shapes.

(** ** The facade of src/YouTubeAudio.js *)

Module Facade.
Import ParseVideoId.

(** The construction options the code reads. *)
Record options := {
  sources : list string;
  shuffle : value;
  loop : value;
  autoPlay : value;
  logEarlyCalls : value
}.

Section WithHost.
Context {W : Type} `{Host W}.

(** The instance, with the part of the page it writes to.  The fields
    named as in the source are the instance's properties; [_callbacks]
    holds the [_<name>Callbacks] arrays by property name, [guards] the
    names whose own property is a guard installed by [init], [opts] the
    options object the guards close over. *)
Record session := {
  _isReady : bool;
  _readyEvent : value;
  _videoIds : option loc;               (* null until addAudio *)
  _index : jsnum;
  _player : option W;                   (* null until addAudio *)
  _loop : value;
  _autoPlay : value;
  _callbacks : gmap string (list value);
  guards : gset string;
  opts : options;
  heap : list (list string);            (* the arrays, by address *)
  console : list string;                (* console.error *)
  timers : list value;                  (* setTimeout(function() { throw e; }, 0) *)
  invoked : list (fn * list value)      (* calls made to the caller's closures *)
}.

Definition with_isReady (b : bool) (s : session) : session :=
  {| _isReady := b; _readyEvent := _readyEvent s; _videoIds := _videoIds s;
     _index := _index s; _player := _player s; _loop := _loop s;
     _autoPlay := _autoPlay s; _callbacks := _callbacks s; guards := guards s;
     opts := opts s; heap := heap s; console := console s; timers := timers s;
     invoked := invoked s |}.
Definition with_videoIds (l : option loc) (s : session) : session :=
  {| _isReady := _isReady s; _readyEvent := _readyEvent s; _videoIds := l;
     _index := _index s; _player := _player s; _loop := _loop s;
     _autoPlay := _autoPlay s; _callbacks := _callbacks s; guards := guards s;
     opts := opts s; heap := heap s; console := console s; timers := timers s;
     invoked := invoked s |}.
Definition with_index (i : jsnum) (s : session) : session :=
  {| _isReady := _isReady s; _readyEvent := _readyEvent s; _videoIds := _videoIds s;
     _index := i; _player := _player s; _loop := _loop s;
     _autoPlay := _autoPlay s; _callbacks := _callbacks s; guards := guards s;
     opts := opts s; heap := heap s; console := console s; timers := timers s;
     invoked := invoked s |}.
Definition with_player (w : option W) (s : session) : session :=
  {| _isReady := _isReady s; _readyEvent := _readyEvent s; _videoIds := _videoIds s;
     _index := _index s; _player := w; _loop := _loop s;
     _autoPlay := _autoPlay s; _callbacks := _callbacks s; guards := guards s;
     opts := opts s; heap := heap s; console := console s; timers := timers s;
     invoked := invoked s |}.
Definition with_loop (v : value) (s : session) : session :=
  {| _isReady := _isReady s; _readyEvent := _readyEvent s; _videoIds := _videoIds s;
     _index := _index s; _player := _player s; _loop := v;
     _autoPlay := _autoPlay s; _callbacks := _callbacks s; guards := guards s;
     opts := opts s; heap := heap s; console := console s; timers := timers s;
     invoked := invoked s |}.
Definition with_autoPlay (v : value) (s : session) : session :=
  {| _isReady := _isReady s; _readyEvent := _readyEvent s; _videoIds := _videoIds s;
     _index := _index s; _player := _player s; _loop := _loop s;
     _autoPlay := v; _callbacks := _callbacks s; guards := guards s;
     opts := opts s; heap := heap s; console := console s; timers := timers s;
     invoked := invoked s |}.
Definition with_callbacks (m : gmap string (list value)) (s : session) : session :=
  {| _isReady := _isReady s; _readyEvent := _readyEvent s; _videoIds := _videoIds s;
     _index := _index s; _player := _player s; _loop := _loop s;
     _autoPlay := _autoPlay s; _callbacks := m; guards := guards s;
     opts := opts s; heap := heap s; console := console s; timers := timers s;
     invoked := invoked s |}.
Definition with_guards (g : gset string) (s : session) : session :=
  {| _isReady := _isReady s; _readyEvent := _readyEvent s; _videoIds := _videoIds s;
     _index := _index s; _player := _player s; _loop := _loop s;
     _autoPlay := _autoPlay s; _callbacks := _callbacks s; guards := g;
     opts := opts s; heap := heap s; console := console s; timers := timers s;
     invoked := invoked s |}.
Definition with_heap (h : list (list string)) (s : session) : session :=
  {| _isReady := _isReady s; _readyEvent := _readyEvent s; _videoIds := _videoIds s;
     _index := _index s; _player := _player s; _loop := _loop s;
     _autoPlay := _autoPlay s; _callbacks := _callbacks s; guards := guards s;
     opts := opts s; heap := h; console := console s; timers := timers s;
     invoked := invoked s |}.
Definition with_console (c : list string) (s : session) : session :=
  {| _isReady := _isReady s; _readyEvent := _readyEvent s; _videoIds := _videoIds s;
     _index := _index s; _player := _player s; _loop := _loop s;
     _autoPlay := _autoPlay s; _callbacks := _callbacks s; guards := guards s;
     opts := opts s; heap := heap s; console := c; timers := timers s;
     invoked := invoked s |}.
Definition with_timers (t : list value) (s : session) : session :=
  {| _isReady := _isReady s; _readyEvent := _readyEvent s; _videoIds := _videoIds s;
     _index := _index s; _player := _player s; _loop := _loop s;
     _autoPlay := _autoPlay s; _callbacks := _callbacks s; guards := guards s;
     opts := opts s; heap := heap s; console := console s; timers := t;
     invoked := invoked s |}.
Definition with_invoked (l : list (fn * list value)) (s : session) : session :=
  {| _isReady := _isReady s; _readyEvent := _readyEvent s; _videoIds := _videoIds s;
     _index := _index s; _player := _player s; _loop := _loop s;
     _autoPlay := _autoPlay s; _callbacks := _callbacks s; guards := guards s;
     opts := opts s; heap := heap s; console := console s; timers := timers s;
     invoked := l |}.

Local Open Scope js_scope.
Abbreviation method := (list value -> M session value).

(** *** Helpers of the module *)

(** [function mod(a, b) { return (a % b + b) % b; }] *)
Definition mod' (a b : jsnum) : jsnum := js_rem (js_add (js_rem a b) b) b.

(** [f.call(yta, ...args)] on a value handed in as a callback. *)
Definition invoke (f : value) (args : list value) : M session value :=
  match f with
  | VFunction g =>
      fun s =>
        let s' := with_invoked (invoked s ++ [(g, args)]) s in
        match fn_throws (invoked s) g args with
        | Some e => (s', Throw e)
        | None => (s', Ok VUndefined)
        end
  | _ => throw VTypeError
  end.

(** [setTimeout(function() { throw e; }, 0)] *)
Definition defer_throw (e : value) : M session unit :=
  modify (fun s => with_timers (timers s ++ [e]) s).

Definition callbacks_key (name : string) : string := "_" +:+ name +:+ "Callbacks".

(** The body of the loop of [triggerHandlers]:
    [try { callback.call(yta, event); } catch (e) { setTimeout(...); }] *)
Definition handle (event : value) (callback : value) : M session unit :=
  try_catch (invoke callback [event];;; ret tt) defer_throw.

(** [triggerHandlers(yta, name, event)] *)
Definition triggerHandlers (name : string) (event : value) : M session unit :=
  let name := callbacks_key name in
  s <- get;;
  let cbs := default [] (_callbacks s !! name) in
  modify (with_callbacks (<[name := cbs]> (_callbacks s)));;;
  for_each (handle event) cbs.

(** [new Array] holding [xs]: a fresh address. *)
Definition alloc (xs : list string) : M session loc :=
  fun s => (with_heap (heap s ++ [xs]) s, Ok (length (heap s))).

(** The array a property refers to; a method of [null] is a TypeError. *)
Definition deref (l : option loc) : M session (list string) :=
  fun s =>
    match l with
    | Some a => (s, Ok (default [] (heap s !! a)))
    | None => (s, Throw VTypeError)
    end.

(** [xs[i]] *)
Definition element (xs : list string) (i : jsnum) : value :=
  match i with
  | Num z =>
      if z <? 0 then VUndefined
      else match xs !! Z.to_nat z with
           | Some x => VString x
           | None => VUndefined
           end
  | NaN => VUndefined
  end.

(** [this._player.name(...args)] *)
Definition player (name : string) (args : list value) : M session value :=
  fun s =>
    match _player s with
    | Some w =>
        let (w', v) := player_call name args w in
        (with_player (Some w') s, Ok v)
    | None => (s, Throw VTypeError)
    end.

(** [YTA.getUrlFromVideoId] *)
Definition getUrlFromVideoId (videoId : string) : string :=
  "https://youtu.be/" +:+ videoId.

(** The key a value selects when used as a property name. *)
Definition property_key (v : value) : string :=
  match v with
  | VNumber n => js_number_to_string n
  | VString s => s
  | VBool true => "true"
  | VBool false => "false"
  | VNull => "null"
  | VUndefined => "undefined"
  | _ => "[object Object]"
  end.

(** [PLAYER_STATES_TO_NAMES[code]]: the table is filled from the keys of
    [YouTube.PlayerState] in order, a later name replacing an earlier
    one with the same code. *)
Definition PLAYER_STATES_TO_NAMES (code : value) : value :=
  match
    find (fun e => String.eqb (js_number_to_string (Num (snd e))) (property_key code))
      (rev PlayerState)
  with
  | Some e => VString (fst e)
  | None => VUndefined
  end.

Definition arg (n : nat) (args : list value) : value := default VUndefined (args !! n).

Definition strict_equal_string (v : value) (m : string) : bool :=
  match v with
  | VString n => String.eqb n m
  | _ => false
  end.

(** *** The methods of the prototype *)

Definition getVideoIds : method := fun _ =>
  s <- get;;
  xs <- deref (_videoIds s);;
  l <- alloc xs;;
  ret (VArray l).

Definition getVideoUrls : method := fun _ =>
  s <- get;;
  xs <- deref (_videoIds s);;
  l <- alloc (map getUrlFromVideoId xs);;
  ret (VArray l).

Definition getVideoId : method := fun _ =>
  s <- get;;
  xs <- deref (_videoIds s);;
  ret (element xs (_index s)).

Definition setSources : method := fun args =>
  s <- get;;
  let oldVideoIds := _videoIds s in
  match arg 0 args with
  | VArray a =>
      l <- alloc (map facade_parse (default [] (heap s !! a)));;
      modify (with_videoIds (Some l));;;
      ret (match oldVideoIds with Some o => VArray o | None => VNull end)
  | _ => throw VTypeError
  end.

Definition getStateName : method := fun _ =>
  code <- player "getPlayerState" [];;
  ret (PLAYER_STATES_TO_NAMES code).

(** The index is written before the widget is addressed. *)
Definition step_index (d : Z) : M session unit :=
  s <- get;;
  xs <- deref (_videoIds s);;
  modify (with_index (mod' (js_add (_index s) (Num d)) (Num (Z.of_nat (length xs))))).

Definition load_current : M session value :=
  s <- get;;
  match _player s with
  | None => throw VTypeError
  | Some _ =>
      v <- getVideoId [];;
      player "loadVideoById" [v];;;
      ret VUndefined
  end.

Definition playNext : method := fun _ => step_index 1;;; load_current.
Definition playPrevious : method := fun _ => step_index (-1);;; load_current.
Definition restart : method := fun _ => load_current.

Definition setVolume : method := fun args =>
  lastVolume <- player "getVolume" [];;
  player "setVolume" [arg 0 args];;;
  ret lastVolume.

Definition push_callback (name : string) : method := fun args =>
  s <- get;;
  let key := callbacks_key name in
  modify (with_callbacks
            (<[key := default [] (_callbacks s !! key) ++ [arg 0 args]]> (_callbacks s)));;;
  ret VUndefined.

Definition onReady : method := fun args =>
  s <- get;;
  (if _isReady s then invoke (arg 0 args) [_readyEvent s]
   else push_callback "ready" args);;;
  ret (VBool (_isReady s)).

Definition already_called : method := fun _ =>
  throw (VError "This object's init() function was already called.").

(** The entries the loop over [mapping] adds:
    [this._player.<fromKey>.apply(this._player, arguments)], returned
    when the mapping says so. *)
Inductive mapped := ToName (s : string) | Flag (n : Z).

Definition mapping : list (string * mapped) :=
  [("play", ToName "playVideo"); ("stop", ToName "stopVideo");
   ("pause", ToName "pauseVideo"); ("setVolume", ToName "o:setVolume");
   ("getCurrentTime", Flag 1); ("getVolume", Flag 1); ("unMute", Flag 0);
   ("mute", Flag 0); ("seekTo", Flag 0); ("getVideoUrl", Flag 1);
   ("getVideoData", Flag 1); ("getDuration", Flag 1); ("isMuted", Flag 1)].

Definition forward (returns : bool) (fromKey : string) : method := fun args =>
  v <- player fromKey args;;
  ret (if returns then v else VUndefined).

(** [None]: the loop builds the code and does not assign it (the
    [getOld] branch has no assignment). *)
Definition mapped_method (key : string) (m : mapped) : option method :=
  match m with
  | ToName v => if String.prefix "o:" v then None else Some (forward false v)
  | Flag n => Some (forward (negb (n =? 0)) key)
  end.

(** [is<State>]: [PLAYER_STATES_TO_NAMES[this._player.getPlayerState()] === m] *)
Definition is_state (m : string) : method := fun _ =>
  code <- player "getPlayerState" [];;
  ret (VBool (strict_equal_string (PLAYER_STATES_TO_NAMES code) m)).

Definition getIsReady : method := fun _ => s <- get;; ret (VBool (_isReady s)).
Definition setLoop : method := fun args =>
  s <- get;; modify (with_loop (arg 0 args));;; ret (_loop s).
Definition getLoop : method := fun _ => s <- get;; ret (_loop s).
Definition getAutoPlay : method := fun _ => s <- get;; ret (_autoPlay s).

(** What [self[key]] is once no guard stands in front of it: the
    prototype's properties in the order [Object.keys(YTA.prototype)]
    lists them; [init] is the instance's own replacement, and
    [constructor] runs [this.init]. *)
Inductive member :=
| Data (v : value)
| Method (m : list value -> M session value).

Definition literal : list (string * member) :=
  [("_isReady", Data (VBool false)); ("_readyCallbacks", Data VNull);
   ("_readyEvent", Data VNull); ("_videoIds", Data VNull);
   ("_index", Data (VNumber (Num 0))); ("_player", Data VNull);
   ("constructor", Method already_called);
   ("getVideoIds", Method getVideoIds); ("getVideoUrls", Method getVideoUrls);
   ("getVideoId", Method getVideoId);
   ("getVideoUrl", Method (fun _ =>
      v <- getVideoId [];;
      ret (VString (getUrlFromVideoId (property_key v)))));
   ("setSources", Method setSources); ("getStateName", Method getStateName);
   ("playNext", Method playNext); ("playPrevious", Method playPrevious);
   ("restart", Method restart); ("setVolume", Method setVolume);
   ("onPlaying", Method (push_callback "playing"));
   ("onPause", Method (push_callback "pause"));
   ("onStart", Method (push_callback "start"));
   ("onEnd", Method (push_callback "end"));
   ("onStateChange", Method (push_callback "stateChange"));
   ("onReady", Method onReady);
   ("init", Method already_called)].

(** [target[key] = v]: in place when the key exists, appended otherwise. *)
Fixpoint assign (key : string) (v : member) (o : list (string * member))
  : list (string * member) :=
  match o with
  | [] => [(key, v)]
  | (k, w) :: o' => if String.eqb k key then (k, v) :: o' else (k, w) :: assign key v o'
  end.

Definition add_mapping (o : list (string * member)) (e : string * mapped)
  : list (string * member) :=
  match mapped_method (fst e) (snd e) with
  | Some m => assign (fst e) (Method m) o
  | None => o
  end.

Definition state_predicates : list (string * string) :=
  [("isBuffering", "BUFFERING"); ("isCued", "CUED"); ("isEnded", "ENDED");
   ("isPaused", "PAUSED"); ("isPlaying", "PLAYING"); ("isUnstarted", "UNSTARTED")].

Definition prototype : list (string * member) :=
  let p := fold_left add_mapping mapping literal in
  let p := fold_left (fun o e => assign (fst e) (Method (is_state (snd e))) o)
             state_predicates p in
  let p := assign "getIsReady" (Method getIsReady) p in
  let p := assign "setLoop" (Method setLoop) p in
  let p := assign "getLoop" (Method getLoop) p in
  assign "getAutoPlay" (Method getAutoPlay) p.

Fixpoint lookup_member (key : string) (o : list (string * member)) : option member :=
  match o with
  | [] => None
  | (k, v) :: o' => if String.eqb k key then Some v else lookup_member key o'
  end.

(** *** [init] and the guards *)

(** [/^(init$|getVideoId$|on[A-Z])/.test(key)] *)
Definition exempt (key : string) : bool :=
  String.eqb key "init" || String.eqb key "getVideoId" ||
  match key with
  | String "o" (String "n" (String c _)) => Regex.in_range "A" "Z" c
  | _ => false
  end.

Definition is_function (v : member) : bool :=
  match v with
  | Method _ => true
  | Data _ => false
  end.

(** The keys [init] replaces by a guard. *)
Definition guarded_keys : list string :=
  map fst (List.filter (fun e => negb (exempt (fst e)) && is_function (snd e)) prototype).

(** The instance [new YouTubeAudio(options)] returns, the page not yet
    loaded: [init] has installed the guards, [addAudio] has not run. *)
Definition init (o : options) : session :=
  {| _isReady := false; _readyEvent := VNull; _videoIds := None;
     _index := Num 0; _player := None; _loop := VUndefined;
     _autoPlay := VUndefined; _callbacks := ∅;
     guards := list_to_set guarded_keys;
     opts := o; heap := []; console := []; timers := []; invoked := [] |}.

(** [self[key].apply(this, arguments)] with no guard in front. *)
Definition call_member (key : string) (args : list value) : M session value :=
  match lookup_member key prototype with
  | Some (Method m) => m args
  | _ => throw VTypeError
  end.

Definition early_call_message (key : string) : string :=
  "The " +:+ key +:+ "() function cannot be called yet.".

(** The guard [init] installs for [key]. *)
Definition guard (key : string) (args : list value) : M session value :=
  s <- get;;
  if _isReady s then
    modify (fun s => with_guards (guards s ∖ {[key]}) s);;;
    call_member key args
  else
    let message := early_call_message key in
    if truthy (logEarlyCalls (opts s)) then
      modify (fun s => with_console (console s ++ [message]) s);;;
      ret VUndefined
    else throw (VError message).

(** [self[key](...args)]. *)
Definition call (key : string) (args : list value) : M session value :=
  s <- get;;
  if decide (key ∈ guards s) then guard key args else call_member key args.

(** *** [addAudio] and the widget's [onReady] *)

Definition addAudio (o : options) : M session unit :=
  let ids := map facade_parse (sources o) in
  l <- alloc (if truthy (shuffle o) then random_sort ids else ids);;
  modify (with_videoIds (Some l));;;
  modify (with_loop (VBool (truthy (loop o))));;;
  let autoPlay :=
    match autoPlay o with
    | VUndefined | VNull => VBool true
    | v => v
    end in
  modify (with_autoPlay autoPlay);;;
  videoId <- getVideoId [];;
  modify (with_player (Some (player_new videoId (truthy autoPlay)))).

(** [events.onReady] *)
Definition player_onReady (event : value) : M session unit :=
  modify (with_isReady true);;;
  triggerHandlers "ready" event.

(** A run of calls on the instance, with what each one completed with. *)
Fixpoint run_calls (cs : list (string * list value)) (s : session)
  : session * list (result value) :=
  match cs with
  | [] => (s, [])
  | (key, args) :: cs' =>
      let (s1, r) := call key args s in
      let (s2, rs) := run_calls cs' s1 in
      (s2, r :: rs)
  end.

(** What [triggerHandlers] adds to the log for a callback, and the
    exceptions it defers over a list of callbacks: those the closures
    throw, and a TypeError for a callback that is not a function. *)
Definition call_of (event : value) (callback : value) : list (fn * list value) :=
  match callback with
  | VFunction g => [(g, [event])]
  | _ => []
  end.

Fixpoint thrown (event : value) (log : list (fn * list value)) (cbs : list value)
  : list value :=
  match cbs with
  | [] => []
  | cb :: cbs' =>
      match cb with
      | VFunction g =>
          match fn_throws log g [event] with
          | Some e => [e]
          | None => []
          end
      | _ => [VTypeError]
      end ++ thrown event (log ++ call_of event cb) cbs'
  end.

(** The instance with every guard taken away: what the facade would be
    without [init]'s wrapping. *)
Definition unguarded (s : session) : session := with_guards ∅ s.

(** The states an instance built from [o] goes through: construction,
    [addAudio] once the page and the widget's API are there, the
    widget's [onReady], its [onStateChange] (which triggers the handlers
    of some events and may call [playNext] on the instance), and calls
    made on the instance in between. *)
Inductive reachable (o : options) : session -> Prop :=
| reach_init : reachable o (init o)
| reach_addAudio s : reachable o s -> reachable o (fst (addAudio o s))
| reach_onReady s event : reachable o s -> reachable o (fst (player_onReady event s))
| reach_trigger s name event :
    reachable o s -> reachable o (fst (triggerHandlers name event s))
| reach_call s key args : reachable o s -> reachable o (fst (call key args s)).

(** A computation that neither reads nor writes the guards and leaves
    the readiness flag, the options and the stored ready event alone. *)
Definition framed {A} (m : M session A) : Prop :=
  forall g s,
    m (with_guards g s) = (with_guards g (fst (m s)), snd (m s))
    /\ guards (fst (m s)) = guards s
    /\ _isReady (fst (m s)) = _isReady s
    /\ opts (fst (m s)) = opts s
    /\ _readyEvent (fst (m s)) = _readyEvent s.

(** The video ids the instance holds, and the caller overwriting an array
    it has a reference to. *)
Definition playlist (s : session) : option (list string) :=
  match _videoIds s with
  | Some a => heap s !! a
  | None => None
  end.

Definition mutate (l : loc) (ys : list string) (s : session) : session :=
  with_heap (<[l := ys]> (heap s)) s.

(** Two states with the same guards, readiness flag, options and stored
    ready event. *)
Definition same_gate (s s' : session) : Prop :=
  guards s' = guards s /\ _isReady s' = _isReady s /\ opts s' = opts s
  /\ _readyEvent s' = _readyEvent s.

End WithHost.
Arguments session : clear implicits.
End Facade.

(** ** The listener registry of src/unnamed/part_000 *)

Module Registry.

(** A listener's remaining invocations, a number: an integer, [Infinity]
    (the default of [opt_limit]), a number that is not an integer, by
    the integer just below it ([Fraction 1] is any number between 1 and
    2: the code only compares a limit with 0 and takes 1 off it),
    [-Infinity], or [NaN].  Numbers are taken in the range where a
    double counts exactly (up to 2^53 in size), as the ids are. *)
Inductive budget :=
| Count (z : Z)
| Infinity
| Fraction (below : Z)
| MinusInfinity
| NotANumber.

(** [0 < limit] *)
Definition positive (b : budget) : bool :=
  match b with
  | Count z => 0 <? z
  | Infinity => true
  | Fraction below => 0 <=? below
  | MinusInfinity => false
  | NotANumber => false
  end.

(** [limit--] *)
Definition decrement (b : budget) : budget :=
  match b with
  | Count z => Count (z - 1)
  | Infinity => Infinity
  | Fraction below => Fraction (below - 1)
  | MinusInfinity => MinusInfinity
  | NotANumber => NotANumber
  end.

(** [{ handler: callback, limit: opt_limit }] *)
Record listener := {
  handler : value;
  limit : budget
}.

(** The object kept per event name, [{ nextId: 1 }] at first: the counter
    (absent once deleted) and the listeners by id, in the order [for in]
    visits them (integer keys ascending, then the others as created). *)
Record listeners := {
  nextId : option jsnum;
  entries : list (jsnum * listener)
}.

Definition jsnum_eqb (a b : jsnum) : bool :=
  match a, b with
  | Num x, Num y => x =? y
  | NaN, NaN => true
  | _, _ => false
  end.

(** [listeners[id]] *)
Fixpoint entry (id : jsnum) (es : list (jsnum * listener)) : option listener :=
  match es with
  | [] => None
  | (k, l) :: es' => if jsnum_eqb k id then Some l else entry id es'
  end.

(** [listeners[id] = l]: in place when the key exists, otherwise at the
    place [for in] will visit it. *)
Fixpoint set_entry (id : jsnum) (l : listener) (es : list (jsnum * listener))
  : list (jsnum * listener) :=
  match es with
  | [] => [(id, l)]
  | (k, l') :: es' =>
      if jsnum_eqb k id then (k, l) :: es'
      else
        match id, k with
        | Num z, Num y => if z <? y then (id, l) :: es else (k, l') :: set_entry id l es'
        | Num _, NaN => (id, l) :: es
        | NaN, _ => (k, l') :: set_entry id l es'
        end
  end.

(** [delete listeners[id]] *)
Definition delete_entry (id : jsnum) (es : list (jsnum * listener))
  : list (jsnum * listener) :=
  List.filter (fun e => negb (jsnum_eqb (fst e) id)) es.

(** A call served by a listener: which listener, the closure, the
    arguments. *)
Record invocation := {
  served_event : string;
  served_id : jsnum;
  callee : fn;
  passed : list value
}.

(** The instance: the registry, the stored arguments of the widget's
    [onReady] once it has fired, and what the page has seen. *)
Record yta := {
  _listenersByName : gmap string listeners;
  _readyArguments : option (list value);
  timers : list value;                  (* setTimeout(_ => { throw e; }, 0) *)
  invoked : list invocation
}.

Definition with_listenersByName (m : gmap string listeners) (s : yta) : yta :=
  {| _listenersByName := m; _readyArguments := _readyArguments s;
     timers := timers s; invoked := invoked s |}.
Definition with_readyArguments (a : option (list value)) (s : yta) : yta :=
  {| _listenersByName := _listenersByName s; _readyArguments := a;
     timers := timers s; invoked := invoked s |}.
Definition with_timers (t : list value) (s : yta) : yta :=
  {| _listenersByName := _listenersByName s; _readyArguments := _readyArguments s;
     timers := t; invoked := invoked s |}.
Definition with_invoked (l : list invocation) (s : yta) : yta :=
  {| _listenersByName := _listenersByName s; _readyArguments := _readyArguments s;
     timers := timers s; invoked := l |}.

(** [this._listenersByName[eventName] = ls], and the writes to the
    object already there. *)
Definition set_listeners (eventName : string) (ls : listeners) (s : yta) : yta :=
  with_listenersByName (<[eventName := ls]> (_listenersByName s)) s.

(** [s.split(sep)] *)
Fixpoint split (sep : ascii) (s : string) : list string :=
  match s with
  | EmptyString => [EmptyString]
  | String c s' =>
      if Ascii.eqb c sep then EmptyString :: split sep s'
      else match split sep s' with
           | p :: ps => String c p :: ps
           | [] => [String c EmptyString]
           end
  end.

(** A name without [":"]. *)
Fixpoint colon_free (s : string) : bool :=
  match s with
  | EmptyString => true
  | String c s' => negb (Ascii.eqb c ":") && colon_free s'
  end.

(** The names every object has from [Object.prototype]: its methods, and
    [__proto__]. *)
Definition inherited (name : string) : bool :=
  existsb (String.eqb name)
    ["constructor"; "hasOwnProperty"; "isPrototypeOf"; "propertyIsEnumerable";
     "toLocaleString"; "toString"; "valueOf"; "__defineGetter__";
     "__defineSetter__"; "__lookupGetter__"; "__lookupSetter__"; "__proto__"].

(** An event name under which [_listenersByName] finds a function of
    [Object.prototype]; such a function has, besides what every object
    inherits, the members of [Function.prototype] and its own [length]
    and [name]. *)
Definition names_function (eventName : string) : bool :=
  inherited eventName && negb (String.eqb eventName "__proto__").

Definition inherits (function : bool) (key : string) : bool :=
  inherited key
  || (function && existsb (String.eqb key) ["apply"; "bind"; "call"; "length"; "name"]).

(** What a property name finds in a [listeners] object: a listener, the
    counter, something the object has from its prototypes (no listener:
    its [handler] is [undefined], and [delete] leaves the listeners as
    they are), or nothing.  [function] says that the object is a
    function of [Object.prototype]. *)
Inductive property :=
| AListener (id : jsnum) (l : listener)
| TheCounter (n : jsnum)
| Inherited
| Missing.

Definition get_property (function : bool) (key : string) (ls : listeners) : property :=
  if String.eqb key "nextId" then
    match nextId ls with
    | Some n => TheCounter n
    | None => Missing
    end
  else
    match find (fun e => String.eqb (js_number_to_string (fst e)) key) (entries ls) with
    | Some (id, l) => AListener id l
    | None => if inherits function key then Inherited else Missing
    end.

(** [this._listenersByName[eventName]]: the object [on] has stored under
    the name, or, for a name that [Object.prototype] has, the member
    found there, which has no counter and no listener before [on]
    writes them on it.  [Object.prototype] and [Object] are taken as
    the language has them when the page starts, and are kept so: what
    [on] writes on a member of [Object.prototype] is kept here under
    the event's name.  Not followed are the two ways in which the
    registry can change them: [on] under the name [__proto__] makes
    its listener a property [NaN] of every object, and [off] on a
    handle whose event is [__proto__] or [constructor] can delete a
    member of [Object.prototype] or of [Object]. *)
Definition found (eventName : string) (s : yta) : option listeners :=
  match _listenersByName s !! eventName with
  | Some ls => Some ls
  | None =>
      if inherited eventName then Some {| nextId := None; entries := [] |} else None
  end.

Section WithHost.
Context {W : Type} `{Host W}.

Local Open Scope js_scope.

Definition history (log : list invocation) : list (fn * list value) :=
  map (fun i => (callee i, passed i)) log.

(** [listener.handler.apply(this, args)] for the listener [id] of
    [eventName]. *)
Definition apply_handler (eventName : string) (id : jsnum) (h : value)
    (args : list value) : M yta unit :=
  match h with
  | VFunction f =>
      fun s =>
        let s' := with_invoked
                    (invoked s ++ [{| served_event := eventName; served_id := id;
                                      callee := f; passed := args |}]) s in
        match fn_throws (history (invoked s)) f args with
        | Some e => (s', Throw e)
        | None => (s', Ok tt)
        end
  | _ => throw VTypeError
  end.

(** [setTimeout(_ => { throw e; }, 0)] *)
Definition defer_throw (e : value) : M yta unit :=
  modify (fun s => with_timers (timers s ++ [e]) s).

(** [off(listenerId)] *)
Definition off (listenerId : string) : M yta value :=
  let listenerIdParts := take 2 (split ":" listenerId) in
  let eventName := default "" (listenerIdParts !! 0%nat) in
  let id := default "undefined" (listenerIdParts !! 1%nat) in
  s <- get;;
  match found eventName s with
  | None => throw VTypeError
  | Some ls =>
      match get_property (names_function eventName) id ls with
      | AListener k l =>
          modify (set_listeners eventName
                    {| nextId := nextId ls; entries := delete_entry k (entries ls) |});;;
          ret (handler l)
      | TheCounter _ =>
          modify (set_listeners eventName
                    {| nextId := None; entries := entries ls |});;;
          ret VUndefined
      | Inherited => ret VUndefined
      | Missing => throw VTypeError
      end
  end.

(** [listener.limit--] on the listener [id] of [eventName]. *)
Definition consume (eventName : string) (id : jsnum) : M yta unit :=
  modify (fun s =>
    match _listenersByName s !! eventName with
    | Some ls =>
        match entry id (entries ls) with
        | Some l =>
            set_listeners eventName
              {| nextId := nextId ls;
                 entries := set_entry id {| handler := handler l;
                                            limit := decrement (limit l) |}
                              (entries ls) |} s
        | None => s
        end
    | None => s
    end).

(** The body of the [for in] loop of [trigger] for one key. *)
Definition visit (eventName : string) (args : list value) (key : jsnum)
  : M yta unit :=
  match key with
  | NaN => ret tt
  | Num _ =>
      s <- get;;
      match _listenersByName s !! eventName ≫= (fun ls => entry key (entries ls)) with
      | None => ret tt
      | Some listener =>
          consume eventName key;;;
          if positive (limit listener) then
            try_catch (apply_handler eventName key (handler listener) args)
              defer_throw
          else
            off (eventName +:+ ":" +:+ js_number_to_string key);;;
            ret tt
      end
  end.

(** [trigger(eventName, args)] *)
Definition trigger (eventName : string) (args : list value) : M yta value :=
  s <- get;;
  match found eventName s with
  | None => ret VUndefined
  | Some ls =>
      for_each (visit eventName args) (map fst (entries ls));;;
      ret VThis
  end.

(** [on(eventName, callback, opt_limit)] *)
Definition on (eventName : string) (callback : value) (opt_limit : budget)
  : M yta value :=
  s <- get;;
  let ls := default {| nextId := Some (Num 1); entries := [] |} (found eventName s) in
  let id := default NaN (nextId ls) in
  let listener := {| handler := callback; limit := opt_limit |} in
  modify (set_listeners eventName
            {| nextId := Some (js_add id (Num 1));
               entries := set_entry id listener (entries ls) |});;;
  (if String.eqb eventName "ready" then
     match _readyArguments s with
     | Some ready =>
         consume eventName id;;;
         if positive opt_limit then
           try_catch (apply_handler eventName id callback ready) defer_throw
         else ret tt
     | None => ret tt
     end
   else ret tt);;;
  ret (VString (eventName +:+ ":" +:+ js_number_to_string id)).

(** A dispatch, listener by listener: the listeners with invocations
    left, what is left of the registry after it, and the call of one
    listener with its exception deferred. *)
Definition live (es : list (jsnum * listener)) : list (jsnum * listener) :=
  List.filter (fun e => positive (limit (snd e))) es.

Definition after_dispatch (es : list (jsnum * listener)) : list (jsnum * listener) :=
  map (fun e => (fst e, {| handler := handler (snd e);
                           limit := decrement (limit (snd e)) |}))
    (live es).

Definition serve (eventName : string) (args : list value) (e : jsnum * listener)
  : M yta unit :=
  try_catch (apply_handler eventName (fst e) (handler (snd e)) args) defer_throw.

(** What a dispatch to the listeners [es] adds to the log, and the
    exceptions it defers: those the closures throw, and a TypeError for
    a handler that is not a function. *)
Definition invocation_of (eventName : string) (args : list value)
    (e : jsnum * listener) : list invocation :=
  match handler (snd e) with
  | VFunction f => [{| served_event := eventName; served_id := fst e;
                       callee := f; passed := args |}]
  | _ => []
  end.

Fixpoint deferred (eventName : string) (args : list value) (log : list invocation)
    (es : list (jsnum * listener)) : list value :=
  match es with
  | [] => []
  | e :: es' =>
      match handler (snd e) with
      | VFunction f =>
          match fn_throws (history log) f args with
          | Some x => [x]
          | None => []
          end
      | _ => [VTypeError]
      end ++ deferred eventName args (log ++ invocation_of eventName args e) es'
  end.

(** The calls listener [id] of [eventName] has served. *)
Definition calls_of (eventName : string) (id : jsnum) (log : list invocation) : nat :=
  length (List.filter
            (fun i => String.eqb (served_event i) eventName
                      && jsnum_eqb (served_id i) id) log).

(** [isReady()] *)
Definition isReady : M yta value :=
  s <- get;;
  ret (VBool (bool_decide (is_Some (_readyArguments s)))).


End WithHost.

(** Ids that are numbers, strictly between [lo] and [hi], in ascending
    order. *)
Fixpoint ascending (lo hi : Z) (es : list (jsnum * listener)) : Prop :=
  match es with
  | [] => True
  | (Num z, _) :: es' => lo < z /\ z < hi /\ ascending z hi es'
  | (NaN, _) :: _ => False
  end.

(** Ids that are numbers, none above [z]. *)
Definition below (z : Z) (es : list (jsnum * listener)) : Prop :=
  Forall (fun e => exists y, fst e = Num y /\ y <= z) es.

(** A [listeners] object as [on] builds it: the counter is a number
    above every id in use, and the ids are positive numbers, each used
    once, in the order they were given out. *)
Definition well_numbered (ls : listeners) : Prop :=
  exists n, nextId ls = Some (Num n) /\ 0 < n /\ ascending 0 n (entries ls).

(** The listeners object [on] works on: the one found under the name,
    or a new [{ nextId: 1 }]. *)
Definition listeners_for (eventName : string) (s : yta) : listeners :=
  default {| nextId := Some (Num 1); entries := [] |} (found eventName s).

(** Whether [on] replays the ready arguments. *)
Definition replays (eventName : string) (s : yta) : bool :=
  String.eqb eventName "ready" && bool_decide (is_Some (_readyArguments s)).

(** The listener [id] of [eventName], when registered. *)
Definition registered (eventName : string) (id : jsnum) (s : yta) : option listener :=
  (_listenersByName s !! eventName) ≫= (fun ls => entry id (entries ls)).

(** The instance the constructor leaves. *)
Definition empty : yta :=
  {| _listenersByName := ∅; _readyArguments := None; timers := []; invoked := [] |}.

End Registry.

(** ** A concrete host, for running the code on inputs *)

Module Example.

(** A widget that records the calls made to it and answers each with the
    number of calls so far; closures with an odd identity throw. *)
Definition recorder := list (string * list value).

#[export] Instance recording_host : Host recorder := {|
  player_new := fun videoId autoplay => [("new", [videoId; VBool autoplay])];
  player_call := fun name args w =>
    (w ++ [(name, args)], VNumber (Num (Z.of_nat (length w))));
  PlayerState := [("UNSTARTED", -1); ("ENDED", 0); ("PLAYING", 1);
                  ("PAUSED", 2); ("BUFFERING", 3); ("CUED", 5)];
  random_sort := @rev string;
  fn_throws := fun _ f _ => if Nat.odd f then Some (VError "boom") else None
|}.

Definition three_sources : Facade.options :=
  {| Facade.sources := ["a1"; "https://youtu.be/a2"; "a3"];
     Facade.shuffle := VUndefined; Facade.loop := VBool true;
     Facade.autoPlay := VUndefined; Facade.logEarlyCalls := VUndefined |}.

(** The instance after [addAudio], before the widget is ready. *)
Definition loaded : Facade.session recorder := fst (Facade.addAudio three_sources (Facade.init three_sources)).

(** The same once the widget has fired [onReady] with an event object. *)
Definition ready_event : value := VObject 7.
Definition started : Facade.session recorder := fst (Facade.player_onReady ready_event loaded).

(** The third entry reached by two [playNext], then the source list
    replaced by a one-element array the caller has built. *)
Definition at_third : Facade.session recorder :=
  fst (Facade.run_calls [("playNext", []); ("playNext", [])] started).
Definition one_source : loc := length (Facade.heap at_third).
Definition shrunk : Facade.session recorder :=
  fst (Facade.call "setSources" [VArray one_source]
         (fst (Facade.alloc ["b1"] at_third))).

(** A subscriber to [ready] before the widget is ready, the widget's
    [onReady], then a second subscriber. *)
Definition early_subscriber : fn := 4%nat.
Definition late_subscriber : fn := 2%nat.
Definition subscribed_twice : Facade.session recorder :=
  let s := fst (Facade.call "onReady" [VFunction early_subscriber] loaded) in
  let s := fst (Facade.player_onReady ready_event s) in
  fst (Facade.call "onReady" [VFunction late_subscriber] s).


End Example.

(** ** States of the playlist, for stating what the facade keeps *)

Module Playlist.
Import Facade.

(** An instance that has its list of ids and whose index is [NaN]. *)
Definition lost {W : Type} (s : session W) : Prop :=
  _index s = NaN /\ _videoIds s <> None.

End Playlist.

(** ** The widget's [onStateChange], src/YouTubeAudio.js *)

Module Widget.
Import Facade.

Section WithHost.
Context {W : Type} `{Host W}.

(** The [video_id] property of the object the widget's [getVideoData()]
    answers with. *)
Variable video_id : value -> value.

Local Open Scope js_scope.

(** [addAudio] makes the two handlers it gives the widget close over its
    local [currentVideoId], [null] at first: the instance and that
    variable are what [onStateChange] works on. *)
Record closure := {
  yta : session W;
  currentVideoId : value
}.

(** Code of the facade, run from inside the handler. *)
Definition lift {A} (m : M (session W) A) : M closure A :=
  fun c =>
    let (s, r) := m (yta c) in
    ({| yta := s; currentVideoId := currentVideoId c |}, r).

(** What [addAudio] leaves behind for the handlers. *)
Definition addAudio (o : options) (s : session W) : closure :=
  {| yta := fst (Facade.addAudio o s); currentVideoId := VNull |}.

(** [a === b].  An error is an object the model gives no identity; it is
    never a video id, and compares unequal. *)
Definition strict_equal (a b : value) : bool :=
  match a, b with
  | VUndefined, VUndefined | VNull, VNull | VThis, VThis => true
  | VBool x, VBool y => Bool.eqb x y
  | VNumber (Num x), VNumber (Num y) => x =? y
  | VString x, VString y => String.eqb x y
  | VArray x, VArray y => Nat.eqb x y
  | VFunction x, VFunction y => Nat.eqb x y
  | VObject x, VObject y => Nat.eqb x y
  | _, _ => false
  end.

(** [YouTube.PlayerState.NAME == event.data], the widget's [event.data]
    being a number: [false] when the enumeration has no such name. *)
Definition is_state_code (name : string) (data : jsnum) : bool :=
  match find (fun e => String.eqb (fst e) name) PlayerState, data with
  | Some e, Num z => snd e =? z
  | _, _ => false
  end.

(** [v.video_id]: a TypeError on [undefined] and [null], [undefined] on
    the other primitives, the host's answer on an object. *)
Definition get_video_id (v : value) : M closure value :=
  match v with
  | VUndefined | VNull => throw VTypeError
  | VBool _ | VNumber _ | VString _ => ret VUndefined
  | _ => ret (video_id v)
  end.

(** [events.onStateChange]; [event] is the object the widget passes and
    [data] its [data] property. *)
Definition onStateChange (event : value) (data : jsnum) : M closure unit :=
  (if is_state_code "PLAYING" data then
     lift (triggerHandlers "playing" event);;;
     v <- lift (player "getVideoData" []);;
     newVideoId <- get_video_id v;;
     c <- get;;
     if negb (strict_equal newVideoId (currentVideoId c)) then
       modify (fun c => {| yta := yta c; currentVideoId := newVideoId |});;;
       lift (triggerHandlers "start" event)
     else ret tt
   else if is_state_code "PAUSED" data then
     lift (triggerHandlers "pause" event)
   else if is_state_code "ENDED" data then
     lift (triggerHandlers "end" event);;;
     c <- get;;
     if truthy (_loop (yta c)) then
       lift (call "playNext" []);;;
       ret tt
     else ret tt
   else ret tt);;;
  lift (triggerHandlers "stateChange" event).


(** The callbacks subscribed to an event, and what a dispatch to them
    adds to the log of calls. *)
Definition subscribers (name : string) (s : session W) : list value :=
  default [] (_callbacks s !! callbacks_key name).

Definition calls (name : string) (event : value) (s : session W)
  : list (fn * list value) :=
  flat_map (call_of event) (subscribers name s).

End WithHost.
Arguments closure : clear implicits.
End Widget.

(** ** More inputs to run the facade on *)

Module Scenarios.
Import Example.

(** An instance built with no sources, ready. *)
Definition no_sources : Facade.options :=
  {| Facade.sources := []; Facade.shuffle := VUndefined; Facade.loop := VBool true;
     Facade.autoPlay := VUndefined; Facade.logEarlyCalls := VUndefined |}.

Definition silent : Facade.session recorder :=
  fst (Facade.player_onReady ready_event
         (fst (Facade.addAudio no_sources (Facade.init no_sources)))).

(** The widget of [started], and the handlers' closure over [loaded] and
    over [started]. *)
Definition first_widget : recorder := [("new", [VString "a1"; VBool true])].

Definition before_ready : Widget.closure recorder :=
  Widget.addAudio three_sources (Facade.init three_sources).


(** The recording widget answers [getVideoData()] with a number: it has
    no [video_id]. *)
Definition no_video_id (v : value) : value := VUndefined.

(** A widget that counts the ids it was told to load and answers
    [getVideoData()] with an object standing for the count; [video_id]
    reads the count back.  Closures never throw. *)
Definition jukebox := nat.

#[export] Instance jukebox_host : Host jukebox := {|
  player_new := fun _ _ => 0%nat;
  player_call := fun name args w =>
    if String.eqb name "loadVideoById" then (S w, VUndefined)
    else if String.eqb name "getVideoData" then (w, VObject w)
    else (w, VUndefined);
  PlayerState := [("UNSTARTED", -1); ("ENDED", 0); ("PLAYING", 1);
                  ("PAUSED", 2); ("BUFFERING", 3); ("CUED", 5)];
  random_sort := fun l => l;
  fn_throws := fun _ _ _ => None
|}.



End Scenarios.

(** ** The life of a registry *)

Module Lifetime.
Import Registry.

(** What happens to a registry: a caller subscribes, unsubscribes with a
    handle (the event name, [":"], the id) or dispatches, and the widget
    reports ready ([events.onReady] of [constructYTA], for options that
    name no items: the arguments are stored, then ["ready"] is
    dispatched with them). *)
Inductive op :=
| On (eventName : string) (callback : value) (opt_limit : budget)
| Off (eventName : string) (id : jsnum)
| Trigger (eventName : string) (args : list value)
| Ready (args : list value).

Definition event_of (o : op) : string :=
  match o with
  | On e _ _ | Off e _ | Trigger e _ => e
  | Ready _ => "ready"
  end.

Section WithHost.
Context {W : Type} `{Host W}.

(** The instance after one operation (what it returned or threw
    aside), and after a run of them. *)
Definition step (s : yta) (o : op) : yta :=
  match o with
  | On e callback opt_limit => fst (on e callback opt_limit s)
  | Off e id => fst (off (e +:+ ":" +:+ js_number_to_string id) s)
  | Trigger e args => fst (trigger e args s)
  | Ready args => fst (trigger "ready" args (with_readyArguments (Some args) s))
  end.

Definition run (ops : list op) (s : yta) : yta := fold_left step ops s.

End WithHost.

(** Every listeners object is numbered as [on] numbers them, and every
    call in the log was served under an id its event's counter has
    passed. *)
Definition healthy (s : yta) : Prop :=
  forall e ls, _listenersByName s !! e = Some ls -> well_numbered ls.

Definition accounted (s : yta) : Prop :=
  forall i, In i (invoked s) ->
    exists ls n z,
      _listenersByName s !! served_event i = Some ls
      /\ nextId ls = Some (Num n) /\ served_id i = Num z /\ z < n.


(** The calls a limit allows in all: for a number above 0 the least
    integer that is not below it, none for a number that is not above
    0 and for [NaN], no bound for [Infinity]; and how many of
    [dispatches] dispatches a limit lets a listener serve. *)
Definition capacity (b : budget) : option nat :=
  match b with
  | Count N => Some (Z.to_nat N)
  | Fraction below => Some (Z.to_nat (below + 1))
  | Infinity => None
  | MinusInfinity => Some 0%nat
  | NotANumber => Some 0%nat
  end.


(** An event name that [on] numbers from 1 and [off] reads back: it has
    no colon and is none of the names of [Object.prototype]. *)
Definition plain (eventName : string) : bool :=
  colon_free eventName && negb (inherited eventName).

Definition plain_ops (ops : list op) : Prop :=
  Forall (fun o => plain (event_of o) = true) ops.

(** Listener [id] of [eventName], subscribed with a limit that allows
    [C] calls: the counter of the event has passed its id, and the
    calls it has served together with those it has left are within
    [C]. *)
Definition within_budget (eventName : string) (id : Z) (C : nat) (s : yta) : Prop :=
  (exists ls c, _listenersByName s !! eventName = Some ls
                /\ nextId ls = Some (Num c) /\ id < c)
  /\ match registered eventName (Num id) s with
     | Some l =>
         exists m, capacity (limit l) = Some m
           /\ (calls_of eventName (Num id) (invoked s) + m <= C)%nat
     | None => (calls_of eventName (Num id) (invoked s) <= C)%nat
     end.

End Lifetime.

(** ** Waiting for the document and for the widget's API, src/YouTubeAudio.js *)

Module Page.
Import Facade.

(** The closures [callUntil] hands to [setTimeout]: "call [callUntil]
    again" on the callback of [init] that waits for the document, or on
    the one that waits for the widget's API, for the instance numbered
    [i]. *)
Inductive timer :=
| WaitForDocument (i : nat)
| WaitForPlayer (i : nat).

Definition instance_of (t : timer) : nat :=
  match t with
  | WaitForDocument i | WaitForPlayer i => i
  end.

Section WithHost.
Context {W : Type} `{Host W}.

(** The page: the document's [readyState], whether [global.YT] is there
    with a function [Player], the module's variables [YouTube] (set or
    not) and [isLoadingYTScript], the script tags [loadYTScript] has
    inserted, the timers pending with their delay, and the instances
    made so far. *)
Record page := {
  readyState : string;
  YT : bool;
  YouTube : bool;
  isLoadingYTScript : bool;
  scripts : nat;
  pending : list (timer * value);
  instances : list (session W)
}.

Definition with_readyState (r : string) (p : page) : page :=
  {| readyState := r; YT := YT p; YouTube := YouTube p;
     isLoadingYTScript := isLoadingYTScript p; scripts := scripts p;
     pending := pending p; instances := instances p |}.
Definition with_YT (b : bool) (p : page) : page :=
  {| readyState := readyState p; YT := b; YouTube := YouTube p;
     isLoadingYTScript := isLoadingYTScript p; scripts := scripts p;
     pending := pending p; instances := instances p |}.
Definition with_YouTube (b : bool) (p : page) : page :=
  {| readyState := readyState p; YT := YT p; YouTube := b;
     isLoadingYTScript := isLoadingYTScript p; scripts := scripts p;
     pending := pending p; instances := instances p |}.
Definition with_isLoadingYTScript (b : bool) (p : page) : page :=
  {| readyState := readyState p; YT := YT p; YouTube := YouTube p;
     isLoadingYTScript := b; scripts := scripts p;
     pending := pending p; instances := instances p |}.
Definition with_scripts (n : nat) (p : page) : page :=
  {| readyState := readyState p; YT := YT p; YouTube := YouTube p;
     isLoadingYTScript := isLoadingYTScript p; scripts := n;
     pending := pending p; instances := instances p |}.
Definition with_pending (t : list (timer * value)) (p : page) : page :=
  {| readyState := readyState p; YT := YT p; YouTube := YouTube p;
     isLoadingYTScript := isLoadingYTScript p; scripts := scripts p;
     pending := t; instances := instances p |}.
Definition with_instances (l : list (session W)) (p : page) : page :=
  {| readyState := readyState p; YT := YT p; YouTube := YouTube p;
     isLoadingYTScript := isLoadingYTScript p; scripts := scripts p;
     pending := pending p; instances := l |}.

Local Open Scope js_scope.

(** [loadYTScript()]: one more script tag in the document. *)
Definition loadYTScript : M page unit :=
  modify (fun p => with_scripts (S (scripts p)) p).

(** [callUntil(callback, args, context, timeInMS)]; [again] stands for
    the closure it gives [setTimeout]. *)
Definition callUntil (callback : M page value) (args context timeInMS : value)
    (again : timer) : M page value :=
  result <- callback;;
  (if truthy result then ret tt
   else modify (fun p => with_pending (pending p ++ [(again, timeInMS)]) p));;;
  ret result.

(** Code of the facade run on the instance numbered [i]. *)
Definition on_instance {A} (i : nat) (m : M (session W) A) : M page A :=
  fun p =>
    match instances p !! i with
    | Some s =>
        let (s', r) := m s in
        (with_instances (<[i := s']> (instances p)) p, r)
    | None => (p, Throw VTypeError)
    end.

(** The callback of [init] that waits for the widget's API. *)
Definition inner (i : nat) : M page value :=
  p <- get;;
  if YouTube p || YT p then
    (if YouTube p then ret tt else modify (with_YouTube true));;;
    on_instance i (s <- get;; addAudio (opts s));;;
    ret (VBool true)
  else if isLoadingYTScript p then ret VUndefined
  else
    modify (with_isLoadingYTScript true);;;
    loadYTScript;;;
    ret VUndefined.

(** The callback of [init] that waits for the document.  Both calls of
    [callUntil] in [init] are [callUntil(function, 50)]: the [50] is
    [args], and [timeInMS] is [undefined]. *)
Definition outer (i : nat) : M page value :=
  p <- get;;
  if existsb (String.eqb (readyState p)) ["interactive"; "complete"] then
    callUntil (inner i) (VNumber (Num 50)) VUndefined VUndefined (WaitForPlayer i);;;
    ret (VBool true)
  else ret VUndefined.

(** [new YouTubeAudio(options)]: [init] installs the guards and starts to
    wait. *)
Definition construct (o : options) : M page value :=
  p <- get;;
  let i := length (instances p) in
  modify (with_instances (instances p ++ [init o]));;;
  callUntil (outer i) (VNumber (Num 50)) VUndefined VUndefined (WaitForDocument i);;;
  ret VThis.

(** A pending timer runs: the closure calls [callUntil] with what it
    closed over. *)
Definition run_timer (t : timer) (timeInMS : value) : M page value :=
  match t with
  | WaitForDocument i => callUntil (outer i) (VNumber (Num 50)) VUndefined timeInMS t
  | WaitForPlayer i => callUntil (inner i) (VNumber (Num 50)) VUndefined timeInMS t
  end.

Definition fire (k : nat) : M page value :=
  p <- get;;
  match pending p !! k with
  | Some (t, timeInMS) =>
      modify (with_pending (delete k (pending p)));;;
      run_timer t timeInMS
  | None => ret VUndefined
  end.

(** The page when the script has just been evaluated. *)
Definition fresh (r : string) (yt : bool) : page :=
  {| readyState := r; YT := yt; YouTube := false; isLoadingYTScript := false;
     scripts := 0; pending := []; instances := [] |}.

(** What can happen on a page: the document and the API change state,
    instances are made, timers fire in any order, the widget reports
    ready, and methods are called on the instances. *)
Inductive life : page -> Prop :=
| life_fresh r yt : life (fresh r yt)
| life_document r p : life p -> life (with_readyState r p)
| life_api yt p : life p -> life (with_YT yt p)
| life_construct o p : life p -> life (fst (construct o p))
| life_fire k p : life p -> life (fst (fire k p))
| life_ready i event p : life p -> life (fst (on_instance i (player_onReady event) p))
| life_call i key args p : life p -> life (fst (on_instance i (call key args) p)).

(** The timers pending for the instance numbered [i]. *)
Definition waiting (i : nat) (p : page) : list (timer * value) :=
  List.filter (fun e => Nat.eqb (instance_of (fst e)) i) (pending p).

(** Whether an instance has its widget. *)
Definition widget_made (s : session W) : bool :=
  match _player s with
  | Some _ => true
  | None => false
  end.

(** The page is in order: one script tag at most, there exactly when the
    flag says so; every timer is for an instance of the page and has an
    undefined delay; an instance without widget has one timer pending,
    an instance with its widget none. *)
Definition in_order (p : page) : Prop :=
  scripts p = (if isLoadingYTScript p then 1 else 0)%nat
  /\ Forall (fun e => snd e = VUndefined
                      /\ (instance_of (fst e) < length (instances p))%nat) (pending p)
  /\ forall i s, instances p !! i = Some s ->
       length (waiting i p) = (if widget_made s then 0 else 1)%nat.

(** One run of a waiting callback under [callUntil], for an instance
    that has no widget: either the instance has its widget and no timer
    was added, or the instance is as it was and one timer, for it, with
    the same delay, was added. *)
Definition polled (i : nat) (delay : value) (p p' : page) : Prop :=
  readyState p' = readyState p /\ YT p' = YT p
  /\ (scripts p = (if isLoadingYTScript p then 1 else 0)%nat ->
      scripts p' = (if isLoadingYTScript p' then 1 else 0)%nat)
  /\ exists s s',
       instances p !! i = Some s /\ instances p' = <[i := s']> (instances p)
       /\ ((s' = s /\ exists t, instance_of t = i
                      /\ pending p' = pending p ++ [(t, delay)])
           \/ (widget_made s' = true /\ pending p' = pending p)).

End WithHost.
Arguments page : clear implicits.
End Page.

(** ** The class of src/unnamed/part_000 around its registry *)

Module Audio.
Import Registry.

(** [s.toLowerCase()], on the letters [A] to [Z]. *)
Definition to_lower (c : ascii) : ascii :=
  if Regex.in_range "A" "Z" c then ascii_of_nat (nat_of_ascii c + 32) else c.

Fixpoint toLowerCase (s : string) : string :=
  match s with
  | EmptyString => EmptyString
  | String c s' => String (to_lower c) (toLowerCase s')
  end.

(** [YouTubeAudio.States] as [constructYTA] fills it, key by key of
    [YT.PlayerState]: [STATES[STATES[value] = key] = value] writes the
    name under the code, then the code under the name.  (The codes of
    the host's enumeration are numbers, so that the test
    ['number' === typeof value] holds for every key.) *)
Definition build_States (enumeration : list (string * Z)) : gmap string value :=
  fold_left
    (fun STATES e =>
       <[fst e := VNumber (Num (snd e))]>
         (<[js_number_to_string (Num (snd e)) := VString (fst e)]> STATES))
    enumeration ∅.

(** [/^on[A-Z]\w*$/.test(key)] and [key[2].toLowerCase() + key.slice(3)]
    for a key that passes the test. *)
Definition names_listener (key : string) : bool :=
  match key with
  | String "o" (String "n" (String c rest)) =>
      Regex.in_range "A" "Z" c && forallb Regex.word (list_ascii_of_string rest)
  | _ => false
  end.

Definition event_name (key : string) : string :=
  match key with
  | String _ (String _ (String c rest)) => String (to_lower c) rest
  | _ => EmptyString
  end.

Section WithHost.
Context {W : Type} `{Host W}.

(** The instance: its registry, the two flags, the widget once
    [constructYTA] has made it, the state id reported last; with it the
    class's static [States] ([undefined] until [constructYTA]) and the
    properties the handlers write on the widget's event objects.  The
    constructor's [_videoIds] and [_orderedVideoIds] are never read. *)
Record instance := {
  registry : yta;
  _loop : bool;
  _autoPlay : bool;
  _player : option W;
  _stateId : value;
  States : option (gmap string value);
  written : list (value * string * value)
}.

Definition with_registry (r : yta) (s : instance) : instance :=
  {| registry := r; _loop := _loop s; _autoPlay := _autoPlay s; _player := _player s;
     _stateId := _stateId s; States := States s; written := written s |}.
Definition with_loop (b : bool) (s : instance) : instance :=
  {| registry := registry s; _loop := b; _autoPlay := _autoPlay s; _player := _player s;
     _stateId := _stateId s; States := States s; written := written s |}.
Definition with_autoPlay (b : bool) (s : instance) : instance :=
  {| registry := registry s; _loop := _loop s; _autoPlay := b; _player := _player s;
     _stateId := _stateId s; States := States s; written := written s |}.
Definition with_player (w : option W) (s : instance) : instance :=
  {| registry := registry s; _loop := _loop s; _autoPlay := _autoPlay s; _player := w;
     _stateId := _stateId s; States := States s; written := written s |}.
Definition with_stateId (v : value) (s : instance) : instance :=
  {| registry := registry s; _loop := _loop s; _autoPlay := _autoPlay s;
     _player := _player s; _stateId := v; States := States s; written := written s |}.
Definition with_States (t : option (gmap string value)) (s : instance) : instance :=
  {| registry := registry s; _loop := _loop s; _autoPlay := _autoPlay s;
     _player := _player s; _stateId := _stateId s; States := t; written := written s |}.
Definition with_written (l : list (value * string * value)) (s : instance) : instance :=
  {| registry := registry s; _loop := _loop s; _autoPlay := _autoPlay s;
     _player := _player s; _stateId := _stateId s; States := States s; written := l |}.

Local Open Scope js_scope.

(** The methods of the registry, run on the instance. *)
Definition lift {A} (m : M yta A) : M instance A :=
  fun s => let (r, a) := m (registry s) in (with_registry r s, a).

(** [options.name], [options] being an object given by its own
    properties in the order [for in] visits them. *)
Definition option_named (name : string) (options : list (string * value)) : value :=
  match find (fun kv => String.eqb (fst kv) name) options with
  | Some kv => snd kv
  | None => VUndefined
  end.

(** What the constructor sets before it starts to wait for the API;
    [options.loop] on [undefined] is a TypeError. *)
Definition constructor (options : option (list (string * value))) : result instance :=
  match options with
  | None => Throw VTypeError
  | Some o =>
      Ok {| registry := Registry.empty; _loop := truthy (option_named "loop" o);
            _autoPlay := truthy (option_named "autoPlay" o); _player := None;
            _stateId := VUndefined; States := None; written := [] |}
  end.

(** [this._player.name(...args)] *)
Definition player (name : string) (args : list value) : M instance value :=
  fun s =>
    match _player s with
    | Some w =>
        let (w', v) := player_call name args w in
        (with_player (Some w') s, Ok v)
    | None => (s, Throw VTypeError)
    end.

(** The methods that tell the widget something and return [this]. *)
Definition chained (target : string) (args : list value) : M instance value :=
  player target args;;; ret VThis.

Definition seekTo (seconds : value) := chained "seekTo" [seconds].
Definition play := chained "playVideo" [].
Definition pause := chained "pauseVideo" [].
Definition stop := chained "stopVideo" [].
Definition previous := chained "previousVideo" [].
Definition mute := chained "mute" [].
Definition unmute := chained "unMute" [].

(** [setLoop(loop)]: the widget's method is looked up before the
    argument [this._loop = !!loop] is evaluated. *)
Definition setLoop (loop : value) : M instance value :=
  s <- get;;
  match _player s with
  | None => throw VTypeError
  | Some _ =>
      modify (with_loop (truthy loop));;;
      player "setLoop" [VBool (truthy loop)];;;
      ret (VBool (_loop s))
  end.

Definition getLoop : M instance value := s <- get;; ret (VBool (_loop s)).

Definition setAutoPlay (newAutoPlay : value) : M instance value :=
  s <- get;;
  modify (with_autoPlay (truthy newAutoPlay));;;
  ret (VBool (_autoPlay s)).

Definition getAutoPlay : M instance value := s <- get;; ret (VBool (_autoPlay s)).

Definition setVolume (newVolume : value) : M instance value :=
  oldVolume <- player "getVolume" [];;
  player "setVolume" [newVolume];;;
  ret oldVolume.

Definition getVolume : M instance value := player "getVolume" [].
Definition isMuted : M instance value := player "isMuted" [].

(** [getState()]: [YouTubeAudio.States[this._stateId]]; [_stateId] is
    [undefined] or the number that [onStateChange] stored, so that the
    key is never a property that the table inherits. *)
Definition getState : M instance value :=
  s <- get;;
  match States s with
  | None => throw VTypeError
  | Some table => ret (default VUndefined (table !! Facade.property_key (_stateId s)))
  end.

(** The listeners that [constructYTA] adds for the options named
    [on<Name>], then the widget.  The widget is made with no video id
    and no [autoplay] variable. *)
Definition add_listener (kv : string * value) : M instance unit :=
  if names_listener (fst kv)
  then lift (on (event_name (fst kv)) (snd kv) Infinity);;; ret tt
  else ret tt.

Definition constructYTA (options : list (string * value)) : M instance unit :=
  modify (with_States (Some (build_States PlayerState)));;;
  for_each add_listener options;;;
  modify (with_player (Some (player_new VUndefined false))).

(** [events.onStateChange(event)], for the event object of the widget;
    [data] is its [event.data], a number.  [event.state] is read back
    as it was written. *)
Definition onStateChange (event : value) (data : jsnum) : M instance unit :=
  s <- get;;
  match States s with
  | None => throw VTypeError
  | Some table =>
      let state := default VUndefined (table !! Facade.property_key (VNumber data)) in
      modify (fun s => with_written (written s ++ [(event, "state", state)]) s);;;
      modify (fun s => with_written (written s ++ [(event, "stateId", VNumber data)]) s);;;
      modify (with_stateId (VNumber data));;;
      lift (trigger "stateChange" [event]);;;
      match state with
      | VString name => lift (trigger (toLowerCase name) [event]);;; ret tt
      | _ => throw VTypeError
      end
  end.

End WithHost.
Arguments instance : clear implicits.

(** A state name as the enumeration has them: not the decimal writing of
    a number. *)
Definition no_numeral (name : string) : Prop :=
  forall z, name <> js_number_to_string (Num z).

(** The callbacks that the options named [on<Name>] give for the event
    [e], in the order of the options, and the listeners that [on] makes
    of a list of callbacks on a new event: ids from 1, no limit. *)
Definition option_listeners (e : string) (options : list (string * value)) : list value :=
  map snd
    (List.filter (fun kv => names_listener (fst kv) && String.eqb (event_name (fst kv)) e)
       options).

Definition subscribed (callbacks : list value) : list (jsnum * listener) :=
  imap (fun i callback => (Num (Z.of_nat i + 1),
                           {| handler := callback; limit := Infinity |}))
    callbacks.

(** Options of which none named [on<Name>] names an event that every
    object has from [Object.prototype] ([onToString], [onConstructor],
    [onValueOf] and the like do): the events that [on] numbers from
    1. *)
Definition plain_options (options : list (string * value)) : bool :=
  forallb (fun kv => negb (names_listener (fst kv)
                           && Registry.inherited (event_name (fst kv))))
    options.

End Audio.

(** ** Two helpers: [extend] of src/YouTubeAudio.js, the shuffle of src/unnamed/part_000 *)

Module Helpers.

(** An object by its own enumerable properties, in the order of
    [Object.keys]. *)
Definition object := list (string * value).

(** [source[key]] *)
Definition property (key : string) (source : object) : value :=
  match find (fun kv => String.eqb (fst kv) key) source with
  | Some kv => snd kv
  | None => VUndefined
  end.

Definition has_key (key : string) (source : object) : bool :=
  existsb (fun kv => String.eqb (fst kv) key) source.

(** The inner loop of [extend]: [target[keys[i]] = source[keys[i]]] for
    [i] from [keys.length - 1] down to 0. *)
Definition copy_keys (source : object) (target : gmap string value) : gmap string value :=
  fold_left (fun t key => <[key := property key source]> t) (rev (map fst source)) target.

(** [extend(target, ...sources)]: [argIndex] runs from
    [arguments.length - 1] down to 1, so that the last source is copied
    first; the target, written in place, is returned.  Called with no
    argument at all, [--argIndex] is [-1] and [Object.keys(arguments[-1])]
    throws. *)
Definition extend (arguments : list object) : result (gmap string value) :=
  match arguments with
  | [] => Throw VTypeError
  | target :: sources =>
      Ok (fold_left (fun t source => copy_keys source t) (rev sources) (list_to_map target))
  end.

(** [indices.splice(start, 0, i)]: [start] is cut to the length. *)
Definition splice_in (start i : nat) (indices : list nat) : list nat :=
  take start indices ++ i :: drop start indices.

(** The list that [cueShuffledItems(items)] hands to [cueItems]:
    [indices.map(i => items[i])], where the loop has put each [i] from 0
    to [items.length - 1] at the place [Math.round(Math.random() * i)];
    [draw i] is that place. *)
Definition shuffled_indices (draw : nat -> nat) (l : nat) : list nat :=
  fold_left (fun indices i => splice_in (draw i) i indices) (seq 0 l) [].

Definition shuffled (draw : nat -> nat) (items : list value) : list value :=
  map (fun i => default VUndefined (items !! i)) (shuffled_indices draw (length items)).

End Helpers.

(** ** Waiting for the widget's API, src/unnamed/part_000 *)

Module Loader.
Import Registry Audio.

(** The closure [wrapper] of [callUntil], as the constructor of the
    instance numbered [i] makes it: it closes over the callback, and the
    callback over [options]. *)
Inductive poll :=
| Poll (i : nat) (options : list (string * value)).

Definition instance_of (t : poll) : nat :=
  match t with
  | Poll i _ => i
  end.

(** [window.onYouTubeIframeAPIReady]: a value of the page's own, or the
    function that [loadYT] puts there, which closes over the value it
    found. *)
Inductive hook :=
| Own (v : value)
| Restoring (OLD_YT_READY : hook).

(** ['function' === typeof h] *)
Definition is_function (h : hook) : bool :=
  match h with
  | Own (VFunction _) => true
  | Own _ => false
  | Restoring _ => true
  end.

Section WithHost.
Context {W : Type} `{Host W}.

(** The page: whether [window.YT] is there with its [Player], the flag
    [loadYT.alreadyCalled], the script tags [loadYT] has inserted,
    [window.onYouTubeIframeAPIReady], the class's static [States], the
    instances made so far, the timers pending with their delay, the
    exceptions [callUntil] has put in a timer, and the calls of the
    page's own functions. *)
Record page := {
  YT_Player : bool;
  alreadyCalled : bool;
  scripts : nat;
  onYouTubeIframeAPIReady : hook;
  class_States : option (gmap string value);
  instances : list (instance W);
  pending : list (poll * value);
  rethrown : list value;
  page_calls : list (fn * list value)
}.

Definition with_YT_Player (b : bool) (p : page) : page :=
  {| YT_Player := b; alreadyCalled := alreadyCalled p; scripts := scripts p;
     onYouTubeIframeAPIReady := onYouTubeIframeAPIReady p;
     class_States := class_States p; instances := instances p; pending := pending p;
     rethrown := rethrown p; page_calls := page_calls p |}.
Definition with_alreadyCalled (b : bool) (p : page) : page :=
  {| YT_Player := YT_Player p; alreadyCalled := b; scripts := scripts p;
     onYouTubeIframeAPIReady := onYouTubeIframeAPIReady p;
     class_States := class_States p; instances := instances p; pending := pending p;
     rethrown := rethrown p; page_calls := page_calls p |}.
Definition with_scripts (n : nat) (p : page) : page :=
  {| YT_Player := YT_Player p; alreadyCalled := alreadyCalled p; scripts := n;
     onYouTubeIframeAPIReady := onYouTubeIframeAPIReady p;
     class_States := class_States p; instances := instances p; pending := pending p;
     rethrown := rethrown p; page_calls := page_calls p |}.
Definition with_onYouTubeIframeAPIReady (h : hook) (p : page) : page :=
  {| YT_Player := YT_Player p; alreadyCalled := alreadyCalled p; scripts := scripts p;
     onYouTubeIframeAPIReady := h;
     class_States := class_States p; instances := instances p; pending := pending p;
     rethrown := rethrown p; page_calls := page_calls p |}.
Definition with_class_States (t : option (gmap string value)) (p : page) : page :=
  {| YT_Player := YT_Player p; alreadyCalled := alreadyCalled p; scripts := scripts p;
     onYouTubeIframeAPIReady := onYouTubeIframeAPIReady p;
     class_States := t; instances := instances p; pending := pending p;
     rethrown := rethrown p; page_calls := page_calls p |}.
Definition with_instances (l : list (instance W)) (p : page) : page :=
  {| YT_Player := YT_Player p; alreadyCalled := alreadyCalled p; scripts := scripts p;
     onYouTubeIframeAPIReady := onYouTubeIframeAPIReady p;
     class_States := class_States p; instances := l; pending := pending p;
     rethrown := rethrown p; page_calls := page_calls p |}.
Definition with_pending (t : list (poll * value)) (p : page) : page :=
  {| YT_Player := YT_Player p; alreadyCalled := alreadyCalled p; scripts := scripts p;
     onYouTubeIframeAPIReady := onYouTubeIframeAPIReady p;
     class_States := class_States p; instances := instances p; pending := t;
     rethrown := rethrown p; page_calls := page_calls p |}.
Definition with_rethrown (l : list value) (p : page) : page :=
  {| YT_Player := YT_Player p; alreadyCalled := alreadyCalled p; scripts := scripts p;
     onYouTubeIframeAPIReady := onYouTubeIframeAPIReady p;
     class_States := class_States p; instances := instances p; pending := pending p;
     rethrown := l; page_calls := page_calls p |}.
Definition with_page_calls (l : list (fn * list value)) (p : page) : page :=
  {| YT_Player := YT_Player p; alreadyCalled := alreadyCalled p; scripts := scripts p;
     onYouTubeIframeAPIReady := onYouTubeIframeAPIReady p;
     class_States := class_States p; instances := instances p; pending := pending p;
     rethrown := rethrown p; page_calls := l |}.

Local Open Scope js_scope.

(** Code of the class run on the instance numbered [i]; the static
    [States] is the page's, whichever instance reads or writes it. *)
Definition on_instance {A} (i : nat) (m : M (instance W) A) : M page A :=
  fun p =>
    match instances p !! i with
    | Some s =>
        let (s', r) := m (with_States (class_States p) s) in
        (with_class_States (States s') (with_instances (<[i := s']> (instances p)) p), r)
    | None => (p, Throw VTypeError)
    end.

(** [callUntil(callback, opt_interval)]; [wrapper] stands for the
    closure it gives [setTimeout]. *)
Definition callUntil (callback : M page value) (opt_interval : value) (wrapper : poll)
  : M page value :=
  try_catch
    (initialResult <- callback;;
     (if truthy initialResult then ret tt
      else modify (fun p => with_pending (pending p ++ [(wrapper, opt_interval)]) p));;;
     ret initialResult)
    (fun e => modify (fun p => with_rethrown (rethrown p ++ [e]) p);;; ret VUndefined).

(** The callback of the constructor. *)
Definition callback (i : nat) (options : list (string * value)) : M page value :=
  p <- get;;
  if YT_Player p then
    on_instance i (constructYTA options);;;
    ret (VBool true)
  else ret VUndefined.

(** [h.apply(this, arguments)] for a hook that is a function: a function
    of the page is called (what it throws leaves the call), the function
    of [loadYT] puts the old value back and calls it when it is a
    function. *)
Fixpoint apply_hook (h : hook) (arguments : list value) : M page unit :=
  match h with
  | Own (VFunction f) =>
      fun p =>
        let p' := with_page_calls (page_calls p ++ [(f, arguments)]) p in
        match fn_throws (page_calls p) f arguments with
        | Some e => (p', Throw e)
        | None => (p', Ok tt)
        end
  | Own _ => throw VTypeError
  | Restoring OLD_YT_READY =>
      modify (with_onYouTubeIframeAPIReady OLD_YT_READY);;;
      if is_function OLD_YT_READY then apply_hook OLD_YT_READY arguments else ret tt
  end.

(** [loadYT()] *)
Definition loadYT : M page unit :=
  p <- get;;
  if alreadyCalled p then ret tt
  else
    modify (with_alreadyCalled true);;;
    modify (fun p => with_scripts (S (scripts p)) p);;;
    modify (fun p => with_onYouTubeIframeAPIReady
                       (Restoring (onYouTubeIframeAPIReady p)) p).

(** [new YouTubeAudio(options)]: what the constructor sets, then the
    first poll, then [loadYT] when the poll did not make the widget.
    [o] is [Object(options)]. *)
Definition construct (options : option (list (string * value))) : M page value :=
  match constructor options with
  | Throw e => throw e
  | Ok s =>
      let o := default [] options in
      p <- get;;
      let i := length (instances p) in
      modify (with_instances (instances p ++ [s]));;;
      workedOnInitial <- callUntil (callback i o) (VNumber (Num 250)) (Poll i o);;
      (if truthy workedOnInitial then ret tt else loadYT);;;
      ret VThis
  end.

(** A pending timer runs [wrapper]. *)
Definition run_timer (t : poll) : M page value :=
  match t with
  | Poll i o => callUntil (callback i o) (VNumber (Num 250)) t
  end.

Definition fire (k : nat) : M page value :=
  p <- get;;
  match pending p !! k with
  | Some (t, _) =>
      modify (with_pending (delete k (pending p)));;;
      run_timer t
  | None => ret VUndefined
  end.

(** The widget's API has arrived: [YT.Player] is there, and the API
    calls [window.onYouTubeIframeAPIReady] when that is a function. *)
Definition api_arrives (arguments : list value) : M page unit :=
  modify (with_YT_Player true);;;
  p <- get;;
  if is_function (onYouTubeIframeAPIReady p)
  then apply_hook (onYouTubeIframeAPIReady p) arguments
  else ret tt.

(** The page when the script has just been evaluated. *)
Definition fresh (yt : bool) (v : value) : page :=
  {| YT_Player := yt; alreadyCalled := false; scripts := 0;
     onYouTubeIframeAPIReady := Own v; class_States := None; instances := [];
     pending := []; rethrown := []; page_calls := [] |}.

(** Whether an instance has its widget, and code of the class that
    neither makes nor drops the widget (every method and handler of the
    class; [constructYTA] alone makes it). *)
Definition widget_made (s : instance W) : bool :=
  match _player s with
  | Some _ => true
  | None => false
  end.

Definition keeps_widget {A} (m : M (instance W) A) : Prop :=
  forall s, widget_made (fst (m s)) = widget_made s.

(** What can happen on a page: the API comes (or goes), the page sets
    its own ready function, the ready function in place is called,
    instances are made, timers fire in any order, and the code of the
    class runs on the instances. *)
Inductive life : page -> Prop :=
| life_fresh yt v : life (fresh yt v)
| life_api yt p : life p -> life (with_YT_Player yt p)
| life_hook_set v p : life p -> life (with_onYouTubeIframeAPIReady (Own v) p)
| life_hook_called args p :
    life p -> life (fst (apply_hook (onYouTubeIframeAPIReady p) args p))
| life_construct o p : life p -> life (fst (construct o p))
| life_fire k p : life p -> life (fst (fire k p))
| life_call {A} i (m : M (instance W) A) p :
    keeps_widget m -> life p -> life (fst (on_instance i m p)).

(** The timers pending for the instance numbered [i]. *)
Definition waiting (i : nat) (p : page) : list (poll * value) :=
  List.filter (fun e => Nat.eqb (instance_of (fst e)) i) (pending p).

(** The page is in order: one script tag at most, there exactly when
    [loadYT] has run; every timer is for an instance of the page and
    has the delay 250; an instance without widget has one timer
    pending, an instance with its widget none. *)
Definition in_order (p : page) : Prop :=
  scripts p = (if alreadyCalled p then 1 else 0)%nat
  /\ Forall (fun e => snd e = VNumber (Num 250)
                      /\ (instance_of (fst e) < length (instances p))%nat) (pending p)
  /\ (forall i s, instances p !! i = Some s ->
        length (waiting i p) = (if widget_made s then 0 else 1)%nat).

End WithHost.
Arguments page : clear implicits.
End Loader.

(** * Properties *)

(** ** Arithmetic of [mod] *)

Lemma rem_shift_is_modulo (a b : Z) :
  0 < b -> Z.rem (Z.rem a b + b) b = a mod b.
Proof.
  intros Hb.
  assert (Habs : - b < Z.rem a b < b).
  { pose proof (Z.rem_bound_abs a b ltac:(lia)) as Hr. lia. }
  rewrite Z.rem_mod_nonneg by lia.
  rewrite (Z.quot_rem' a b) at 2.
  replace (Z.rem a b + b) with (Z.rem a b + 1 * b) by lia.
  rewrite Z.mod_add by lia.
  rewrite Z.add_comm, Z.mul_comm, Z.mod_add by lia.
  reflexivity.
Qed.

Lemma mod_is_modulo (a b : Z) :
  0 < b -> Facade.mod' (Num a) (Num b) = Num (a mod b).
Proof.
  intros Hb. unfold Facade.mod', js_rem, js_add.
  destruct (Z.eqb_spec b 0) as [->|_]; [lia|].
  now rewrite rem_shift_is_modulo.
Qed.

(** ** The facade *)

Section FacadeFacts.
Import Facade.
Context {W : Type} `{Host W}.

Ltac run := unfold bind, get, modify, ret, throw, try_catch in *; simpl in *.

Ltac break_match :=
  match goal with
  | |- context [match ?x with _ => _ end] =>
      lazymatch x with
      | context [match _ with _ => _ end] => fail
      | _ => destruct x eqn:?
      end
  end.

Ltac unfold_methods :=
  unfold getVideoIds, getVideoUrls, getVideoId, setSources, getStateName,
    playNext, playPrevious, restart, setVolume, push_callback, onReady,
    already_called, forward, is_state, getIsReady, setLoop, getLoop,
    getAutoPlay, step_index, load_current, getVideoId, deref, alloc, player,
    invoke, arg.

Ltac frame_method :=
  intros args g s; unfold_methods; run;
  repeat (break_match; simpl in *; try congruence);
  repeat split; try reflexivity; try congruence.

(** *** [mod], [playNext], [playPrevious] *)

Lemma step_index_spec (s : session W) (a : loc) (xs : list string) (i d : Z) :
  _videoIds s = Some a -> heap s !! a = Some xs -> _index s = Num i ->
  (0 < length xs)%nat ->
  step_index d s = (with_index (Num ((i + d) mod Z.of_nat (length xs))) s, Ok tt).
Proof.
  intros Hv Hh Hi Hl. unfold step_index, deref. run.
  rewrite Hv, Hh, Hi. simpl. rewrite mod_is_modulo by lia. reflexivity.
Qed.

Lemma load_current_index (s : session W) : _index (fst (load_current s)) = _index s.
Proof.
  unfold load_current, getVideoId, deref, player. run.
  destruct (_player s) as [w|] eqn:Hp; [|reflexivity].
  destruct (_videoIds s); [|reflexivity]. simpl.
  rewrite Hp. destruct (player_call _ _ w). reflexivity.
Qed.

(** C4.  On a playlist of length [L >= 1] with the current index [i] in
    range, [playNext] leaves the index at [(i + 1) mod L] (so [0] from
    [L - 1]) and [playPrevious] at [(i - 1) mod L] (so [L - 1] from
    [0]). *)
Theorem index_wraparound (s : session W) (a : loc) (xs : list string) (i : Z) :
  _videoIds s = Some a -> heap s !! a = Some xs -> _index s = Num i ->
  (1 <= length xs)%nat -> 0 <= i < Z.of_nat (length xs) ->
  let L := Z.of_nat (length xs) in
  _index (fst (playNext [] s)) = Num ((i + 1) mod L)
  /\ _index (fst (playPrevious [] s)) = Num ((i - 1) mod L)
  /\ (i = L - 1 -> _index (fst (playNext [] s)) = Num 0)
  /\ (i = 0 -> _index (fst (playPrevious [] s)) = Num (L - 1)).
Proof.
  intros Hv Hh Hi Hl Hr L.
  assert (Hn : _index (fst (playNext [] s)) = Num ((i + 1) mod L)).
  { unfold playNext, bind. rewrite (step_index_spec s a xs i 1) by (auto; lia).
    rewrite load_current_index. reflexivity. }
  assert (Hp : _index (fst (playPrevious [] s)) = Num ((i - 1) mod L)).
  { unfold playPrevious, bind. rewrite (step_index_spec s a xs i (-1)) by (auto; lia).
    rewrite load_current_index. reflexivity. }
  repeat split; auto.
  - intros ->. rewrite Hn. f_equal. replace (L - 1 + 1) with (1 * L) by lia.
    apply Z.mod_mul. lia.
  - intros ->. rewrite Hp. f_equal. replace (0 - 1) with (L - 1 + (-1) * L) by lia.
    rewrite Z.mod_add by lia. apply Z.mod_small. lia.
Qed.

(** *** No method looks at the guards *)

Lemma prototype_framed :
  Forall (fun e => match snd e with
                   | Method m => forall args, framed (m args)
                   | Data _ => True
                   end) prototype.
Proof.
  unfold prototype, literal, mapping, state_predicates. simpl.
  repeat (apply List.Forall_cons; [simpl; try exact I|]).
  all: try apply List.Forall_nil.
  all: frame_method.
Qed.

Lemma lookup_member_In (key : string) (v : @member W) (o : list (string * @member W)) :
  lookup_member key o = Some v -> In (key, v) o.
Proof.
  induction o as [|[k w] o IH]; simpl; [discriminate|].
  destruct (String.eqb_spec k key) as [->|_].
  - intros [= ->]. now left.
  - intros Hl. right. auto.
Qed.

Lemma member_framed (key : string) (m : list value -> M (session W) value) (args : list value) :
  lookup_member key prototype = Some (Method m) -> framed (m args).
Proof.
  intros Hl. apply lookup_member_In in Hl.
  pose proof prototype_framed as Hall.
  rewrite List.Forall_forall in Hall. apply (Hall _ Hl).
Qed.

Lemma call_member_framed (key : string) (args : list value) :
  framed (call_member key args).
Proof.
  unfold call_member.
  destruct (lookup_member key prototype) as [[v|m]|] eqn:Hl.
  - intros g s. now run.
  - now apply (member_framed key).
  - intros g s. now run.
Qed.

Lemma guarded_key_installed (key : string) (m : list value -> M (session W) value) :
  lookup_member key prototype = Some (Method m) -> exempt key = false ->
  key ∈ (list_to_set guarded_keys : gset string).
Proof.
  intros Hl He. apply elem_of_list_to_set, list_elem_of_In.
  unfold guarded_keys. apply in_map_iff. exists (key, Method m). split; [reflexivity|].
  apply filter_In. split; [now apply lookup_member_In|]. simpl. now rewrite He.
Qed.

(** *** What stays true of an instance while it is not ready *)

Lemma for_each_preserves {S A : Type} (R : S -> S -> Prop) (f : A -> M S unit) :
  (forall s, R s s) -> (forall s1 s2 s3, R s1 s2 -> R s2 s3 -> R s1 s3) ->
  (forall x s, R s (fst (f x s))) ->
  forall xs s, R s (fst (for_each f xs s)).
Proof.
  intros Hrefl Htrans Hf xs. induction xs as [|x xs IH]; intros s; simpl.
  - apply Hrefl.
  - unfold bind. pose proof (Hf x s) as Hx.
    destruct (f x s) as [s1 [[]|e]]; simpl in *; [|assumption].
    eapply Htrans; [exact Hx|apply IH].
Qed.

Lemma invoke_frame (f : value) (args : list value) (s : session W) :
  same_gate s (fst (invoke f args s)).
Proof.
  unfold same_gate, invoke, throw.
  destruct f; simpl; auto. destruct (fn_throws _ _ _); simpl; auto.
Qed.

Lemma triggerHandlers_frame (name : string) (event : value) (s : session W) :
  same_gate s (fst (triggerHandlers name event s)).
Proof.
  unfold triggerHandlers. unfold bind at 1, get. unfold bind at 1, modify.
  match goal with |- context [for_each ?f ?l ?s0] =>
    assert (Hf : same_gate s0 (fst (for_each f l s0))) end.
  { apply for_each_preserves.
    - intros s1. repeat split.
    - intros s1 s2 s3 (E1 & E2 & E3 & E4) (E5 & E6 & E7 & E8). repeat split; congruence.
    - intros cb s1. unfold handle, try_catch, bind at 1.
      pose proof (invoke_frame cb [event] s1) as Hi.
      destruct (invoke cb [event] s1) as [s2 [v|e]]; simpl in *; auto. }
  destruct Hf as (E1 & E2 & E3 & E4). simpl in *. repeat split; assumption.
Qed.

Lemma addAudio_frame (o : options) (s : session W) :
  same_gate s (fst (addAudio o s)).
Proof.
  unfold same_gate, addAudio, getVideoId, alloc, deref. run. auto.
Qed.

Lemma call_guarded (key : string) (args : list value) (s : session W) :
  key ∈ guards s -> call key args s = guard key args s.
Proof.
  intros Hin. unfold call. unfold bind at 1, get.
  now destruct (decide (key ∈ guards s)).
Qed.

Lemma call_unguarded (key : string) (args : list value) (s : session W) :
  key ∉ guards s -> call key args s = call_member key args s.
Proof.
  intros Hin. unfold call. unfold bind at 1, get.
  now destruct (decide (key ∈ guards s)).
Qed.

Lemma guard_ready (key : string) (args : list value) (s : session W) :
  _isReady s = true ->
  guard key args s = call_member key args (with_guards (guards s ∖ {[key]}) s).
Proof. intros Hr. unfold guard. run. now rewrite Hr. Qed.

Lemma call_frame_not_ready (key : string) (args : list value) (s : session W) :
  _isReady s = false -> same_gate s (fst (call key args s)).
Proof.
  intros Hr. destruct (decide (key ∈ guards s)) as [Hin|Hin].
  - rewrite call_guarded by assumption. unfold same_gate, guard. run. rewrite Hr.
    destruct (truthy _); simpl; auto.
  - rewrite call_unguarded by assumption.
    destruct (call_member_framed key args (guards s) s) as (_ & E1 & E2 & E3 & E4).
    repeat split; assumption.
Qed.

Lemma call_frame_ready (key : string) (args : list value) (s : session W) :
  _isReady s = true ->
  _isReady (fst (call key args s)) = true /\ opts (fst (call key args s)) = opts s.
Proof.
  intros Hr. destruct (decide (key ∈ guards s)) as [Hin|Hin].
  - rewrite call_guarded, guard_ready by assumption.
    match goal with |- context [call_member key args ?s0] =>
      destruct (call_member_framed key args (guards s0) s0) as (_ & _ & -> & -> & _) end.
    auto.
  - rewrite call_unguarded by assumption.
    destruct (call_member_framed key args (guards s) s) as (_ & _ & -> & -> & _). auto.
Qed.

Lemma reachable_gated (o : options) (s : session W) :
  reachable o s ->
  opts s = o /\ (_isReady s = false -> guards s = list_to_set guarded_keys).
Proof.
  induction 1 as [|s Hs [IHo IHg]|s event Hs [IHo IHg]|s name event Hs [IHo IHg]
                 |s key args Hs [IHo IHg]].
  - split; reflexivity.
  - destruct (addAudio_frame o s) as (Eg & Er & Eo & _).
    rewrite Eg, Er, Eo. auto.
  - cbv [player_onReady bind modify].
    destruct (triggerHandlers_frame "ready" event (with_isReady true s)) as (Eg & Er & Eo & _).
    rewrite Er, Eo. split; [auto|discriminate].
  - destruct (triggerHandlers_frame name event s) as (Eg & Er & Eo & _).
    rewrite Eg, Er, Eo. auto.
  - destruct (_isReady s) eqn:Hrs.
    + destruct (call_frame_ready key args s Hrs) as [-> ->]. split; [auto|discriminate].
    + destruct (call_frame_not_ready key args s Hrs) as (-> & -> & -> & _). auto.
Qed.

(** C1.  On an instance that is not ready, calling a method of the
    prototype that [init] does not exempt ([init], [getVideoId], the
    [on...] methods) throws an error naming the method when
    [logEarlyCalls] is falsy, and when it is truthy logs that message and
    returns [undefined], the instance and its widget otherwise as they
    were. *)
Theorem early_call_guarded (o : options) (s : session W) (key : string)
    (m : list value -> M (session W) value) (args : list value) :
  reachable o s -> _isReady s = false ->
  lookup_member key prototype = Some (Method m) -> exempt key = false ->
  let message := "The " +:+ key +:+ "() function cannot be called yet." in
  (truthy (logEarlyCalls o) = false ->
     call key args s = (s, Throw (VError message)))
  /\ (truthy (logEarlyCalls o) = true ->
     call key args s = (with_console (console s ++ [message]) s, Ok VUndefined)
     /\ _player (fst (call key args s)) = _player s).
Proof.
  intros Hreach Hr Hl He message.
  destruct (reachable_gated o s Hreach) as [Ho Hg].
  assert (Hin : key ∈ guards s).
  { rewrite (Hg Hr). now apply (guarded_key_installed key m). }
  rewrite (call_guarded key args s Hin). unfold guard. run. rewrite Hr, Ho.
  split; intros ->; auto.
Qed.

(** *** Lazy unwrapping *)

Lemma with_guards_same (s : session W) : with_guards (guards s) s = s.
Proof. now destruct s. Qed.

Lemma with_guards_twice (g g' : gset string) (s : session W) :
  with_guards g (with_guards g' s) = with_guards g s.
Proof. reflexivity. Qed.

Lemma unguarded_inv (a b : session W) :
  unguarded a = unguarded b -> a = with_guards (guards a) b.
Proof.
  unfold unguarded. intros E.
  rewrite <- (with_guards_same a) at 1.
  rewrite <- (with_guards_twice (guards a) ∅ a), E. reflexivity.
Qed.

(** Once ready, a call is the member's own code, the guard of that name
    (if any) gone afterwards. *)
Lemma call_ready_spec (key : string) (args : list value) (s : session W) :
  _isReady s = true ->
  call key args s =
    (with_guards (guards s ∖ {[key]}) (fst (call_member key args s)),
     snd (call_member key args s)).
Proof.
  intros Hr. destruct (decide (key ∈ guards s)) as [Hin|Hin].
  - rewrite call_guarded, guard_ready by assumption.
    now destruct (call_member_framed key args (guards s ∖ {[key]}) s) as (-> & _).
  - rewrite call_unguarded by assumption.
    assert (E : guards s ∖ {[key]} = guards s).
    { apply set_eq. intros x. rewrite elem_of_difference, elem_of_singleton.
      split; [tauto|]. intros Hx. split; [assumption|]. now intros ->. }
    destruct (call_member_framed key args (guards s) s) as (_ & Eg & _).
    rewrite E, <- Eg, with_guards_same. now destruct (call_member key args s).
Qed.

Lemma call_ready_any_guards (key : string) (args : list value) (g : gset string)
    (s : session W) :
  _isReady s = true ->
  snd (call key args (with_guards g s)) = snd (call key args s)
  /\ unguarded (fst (call key args (with_guards g s))) = unguarded (fst (call key args s)).
Proof.
  intros Hr. rewrite !call_ready_spec by assumption.
  destruct (call_member_framed key args g s) as (-> & _). simpl.
  split; reflexivity.
Qed.

Lemma run_calls_any_guards (cs : list (string * list value)) (g : gset string)
    (s : session W) :
  _isReady s = true ->
  snd (run_calls cs (with_guards g s)) = snd (run_calls cs s)
  /\ unguarded (fst (run_calls cs (with_guards g s))) = unguarded (fst (run_calls cs s)).
Proof.
  revert g s. induction cs as [|[key args] cs IH]; intros g s Hr; simpl; [auto|].
  destruct (call_ready_any_guards key args g s Hr) as [Er Es].
  destruct (call_frame_ready key args s Hr) as [Hr' _].
  destruct (call key args (with_guards g s)) as [s1 r1].
  destruct (call key args s) as [s2 r2]. simpl in *. subst r2.
  apply unguarded_inv in Es. rewrite Es.
  destruct (IH (guards s1) s2 Hr') as [Er' Es'].
  destruct (run_calls cs (with_guards (guards s1) s2)) as [s3 rs3].
  destruct (run_calls cs s2) as [s4 rs4]. simpl in *. now subst.
Qed.

(** C5.  Once the instance is ready, a call of a guarded method is the
    real method on the same arguments: same completion, same instance
    afterwards but for the guard of that name, which is gone; a call with
    no guard in front is the real method itself; and every run of calls
    completes the same way, and leaves the same instance, as it does on
    the facade with no guards at all. *)
Theorem lazy_unwrapping (s : session W) (key : string)
    (m : list value -> M (session W) value) (args : list value) :
  _isReady s = true ->
  lookup_member key prototype = Some (Method m) ->
  snd (call key args s) = snd (m args s)
  /\ unguarded (fst (call key args s)) = unguarded (fst (m args s))
  /\ guards (fst (call key args s)) = guards s ∖ {[key]}
  /\ (forall args' s', key ∉ guards s' -> call key args' s' = m args' s')
  /\ (forall cs,
        snd (run_calls cs s) = snd (run_calls cs (unguarded s))
        /\ unguarded (fst (run_calls cs s)) = unguarded (fst (run_calls cs (unguarded s)))).
Proof.
  intros Hr Hl.
  assert (Hm : forall args', call_member key args' = m args').
  { intros args'. unfold call_member. now rewrite Hl. }
  rewrite call_ready_spec, Hm by assumption. simpl.
  repeat split; try reflexivity.
  - intros args' s' Hin. now rewrite call_unguarded, Hm.
  - symmetry. apply run_calls_any_guards. assumption.
  - symmetry. apply run_calls_any_guards. assumption.
Qed.

(** *** Arrays handed out are not the instance's own *)

Lemma lookup_snoc_old {A} (h : list A) (x y : A) (a : nat) (xs : A) :
  h !! a = Some xs -> <[length h := y]> (h ++ [x]) !! a = Some xs.
Proof.
  intros Ha. pose proof (lookup_lt_Some _ _ _ Ha) as Hlt.
  rewrite list_lookup_insert_ne by lia. now rewrite lookup_app_l.
Qed.

(** C10.  [getVideoIds] and [getVideoUrls] return a new array: its
    address is the first one the heap has not used, so it is none of
    the arrays that existed before, the instance's own included, and it
    holds the copy (the ids, or their URLs).  [setSources] puts the new
    ids in a new array and returns the array the instance held, which
    the instance holds no more.  Whatever the caller then writes into a
    returned array, the instance's video ids and current index are what
    they were. *)
Theorem returned_arrays_detached (s : session W) (a : loc) (xs : list string) :
  _videoIds s = Some a -> heap s !! a = Some xs ->
  let fresh := length (heap s) in
  (heap s !! fresh = None /\ fresh <> a)
  /\ (getVideoIds [] s = (with_heap (heap s ++ [xs]) s, Ok (VArray fresh))
      /\ heap (fst (getVideoIds [] s)) !! fresh = Some xs
      /\ _videoIds (fst (getVideoIds [] s)) = Some a
      /\ forall ys, let s' := mutate fresh ys (fst (getVideoIds [] s)) in
           playlist s' = Some xs /\ _index s' = _index s)
  /\ (getVideoUrls [] s
      = (with_heap (heap s ++ [map getUrlFromVideoId xs]) s, Ok (VArray fresh))
      /\ heap (fst (getVideoUrls [] s)) !! fresh = Some (map getUrlFromVideoId xs)
      /\ _videoIds (fst (getVideoUrls [] s)) = Some a
      /\ forall ys, let s' := mutate fresh ys (fst (getVideoUrls [] s)) in
           playlist s' = Some xs /\ _index s' = _index s)
  /\ (forall b zs, heap s !! b = Some zs ->
        snd (setSources [VArray b] s) = Ok (VArray a)
        /\ _videoIds (fst (setSources [VArray b] s)) = Some fresh
        /\ heap (fst (setSources [VArray b] s)) !! a = Some xs
        /\ playlist (fst (setSources [VArray b] s)) = Some (map ParseVideoId.facade_parse zs)
        /\ forall ys, let s' := mutate a ys (fst (setSources [VArray b] s)) in
             playlist s' = Some (map ParseVideoId.facade_parse zs) /\ _index s' = _index s).
Proof.
  intros Hv Ha fresh. pose proof (lookup_lt_Some _ _ _ Ha) as Hlt.
  assert (Hnew : forall ys : list string, (heap s ++ [ys]) !! fresh = Some ys).
  { intros ys. subst fresh. apply list_lookup_middle. reflexivity. }
  split; [|split; [|split]].
  - split; [apply lookup_ge_None_2; subst fresh; lia | subst fresh; lia].
  - assert (E : getVideoIds [] s = (with_heap (heap s ++ [xs]) s, Ok (VArray fresh))).
    { unfold getVideoIds, deref, alloc. run. now rewrite Hv, Ha. }
    rewrite E. cbn [fst]. repeat split.
    + apply Hnew.
    + exact Hv.
    + unfold playlist, mutate. simpl. rewrite Hv. now apply lookup_snoc_old.
  - assert (E : getVideoUrls [] s
                = (with_heap (heap s ++ [map getUrlFromVideoId xs]) s, Ok (VArray fresh))).
    { unfold getVideoUrls, deref, alloc. run. now rewrite Hv, Ha. }
    rewrite E. cbn [fst]. repeat split.
    + apply Hnew.
    + exact Hv.
    + unfold playlist, mutate. simpl. rewrite Hv. now apply lookup_snoc_old.
  - intros b zs Hb. split; [|split; [|split; [|split]]].
    + unfold setSources, alloc, arg. run. now rewrite Hv.
    + subst fresh. unfold setSources, alloc, arg. run. rewrite ?Hb. reflexivity.
    + unfold setSources, alloc, arg. run. rewrite Hb. simpl.
      now rewrite lookup_app_l by lia.
    + unfold setSources, alloc, arg, playlist. run. rewrite Hb. simpl.
      rewrite lookup_app_r by lia. now rewrite Nat.sub_diag.
    + intros ys. cbv zeta. split.
      * unfold setSources, alloc, arg, playlist, mutate. run. rewrite Hb. simpl.
        rewrite list_lookup_insert_ne by lia.
        rewrite lookup_app_r by lia. now rewrite Nat.sub_diag.
      * unfold setSources, alloc, arg, mutate. run. now rewrite ?Hb.
Qed.

(** [setSources] leaves the index where it was, whatever the new list. *)
Lemma setSources_keeps_index (args : list value) (s : session W) :
  _index (fst (setSources args s)) = _index s.
Proof.
  unfold setSources, alloc. run. destruct (arg 0 args); reflexivity.
Qed.

(** *** The stored ready event *)

(** Nothing assigns [_readyEvent]: it is the prototype's [null] in every
    state an instance goes through. *)
Lemma readyEvent_never_stored (o : options) (s : session W) :
  reachable o s -> _readyEvent s = VNull.
Proof.
  induction 1 as [|s Hs IH|s event Hs IH|s name event Hs IH|s key args Hs IH].
  - reflexivity.
  - now destruct (addAudio_frame o s) as (_ & _ & _ & ->).
  - cbv [player_onReady bind modify].
    now destruct (triggerHandlers_frame "ready" event (with_isReady true s)) as (_ & _ & _ & ->).
  - now destruct (triggerHandlers_frame name event s) as (_ & _ & _ & ->).
  - destruct (decide (key ∈ guards s)) as [Hin|Hin].
    + rewrite call_guarded by assumption. unfold guard. unfold bind at 1, get.
      destruct (_isReady s).
      * unfold bind at 1, modify.
        match goal with |- context [call_member key args ?s0] =>
          destruct (call_member_framed key args (guards s0) s0) as (_ & _ & _ & _ & ->) end.
        assumption.
      * destruct (truthy _); assumption.
    + rewrite call_unguarded by assumption.
      now destruct (call_member_framed key args (guards s) s) as (_ & _ & _ & _ & ->).
Qed.

(** So a subscriber that comes after readiness is called at once, with
    [null]. *)
Lemma late_onReady_passes_null (o : options) (s : session W) (f : fn) :
  reachable o s -> _isReady s = true ->
  invoked (fst (call "onReady" [VFunction f] s)) = invoked s ++ [(f, [VNull])].
Proof.
  intros Hreach Hr. rewrite call_ready_spec by assumption.
  unfold call_member. simpl. unfold onReady, invoke, arg. run.
  rewrite Hr, (readyEvent_never_stored o s Hreach). simpl.
  now destruct (fn_throws _ _ _).
Qed.

(** *** Dispatch to the callbacks of an event *)

Lemma handle_spec (event : value) (cb : value) (s : session W) :
  handle event cb s =
  (with_timers (timers s ++ thrown event (invoked s) [cb])
     (with_invoked (invoked s ++ call_of event cb) s),
   Ok tt).
Proof.
  unfold handle, try_catch, bind, invoke, defer_throw, modify, throw, ret, call_of.
  destruct s. destruct cb; simpl; rewrite ?app_nil_r; try reflexivity.
  destruct (fn_throws _ _ _); simpl; rewrite ?app_nil_r; reflexivity.
Qed.

Lemma handlers_spec (event : value) (cbs : list value) (s : session W) :
  for_each (handle event) cbs s =
  (with_timers (timers s ++ thrown event (invoked s) cbs)
     (with_invoked (invoked s ++ flat_map (call_of event) cbs) s),
   Ok tt).
Proof.
  revert s. induction cbs as [|cb cbs IH]; intros s.
  - simpl. unfold ret. rewrite !app_nil_r. now destruct s.
  - cbn [for_each flat_map thrown]. unfold bind.
    rewrite handle_spec, IH. cbn [thrown]. simpl. now rewrite app_nil_r, <- !app_assoc.
Qed.

(** X1.  [triggerHandlers] calls every callback registered for the event, in
    the order of registration, whatever the callbacks before it threw;
    it returns normally; every exception thrown is in the timers, to be
    rethrown. *)
Lemma triggerHandlers_in_order (name : string) (event : value) (s : session W) :
  let cbs := default [] (_callbacks s !! callbacks_key name) in
  snd (triggerHandlers name event s) = Ok tt
  /\ invoked (fst (triggerHandlers name event s))
     = invoked s ++ flat_map (call_of event) cbs
  /\ timers (fst (triggerHandlers name event s))
     = timers s ++ thrown event (invoked s) cbs.
Proof.
  intros cbs. unfold triggerHandlers, bind, get, modify.
  fold cbs. rewrite handlers_spec. simpl. auto.
Qed.

End FacadeFacts.

(** *** Runs on the recording host *)

Section FacadeRuns.
Import Facade Example.

(** C7.  After two [playNext] on three sources the index is 2; replacing
    the sources by a list of one leaves the index at 2, outside the new
    list, and [getVideoId] answers [undefined]. *)
Theorem setSources_keeps_stale_index :
  playlist at_third = Some ["a1"; "a2"; "a3"]
  /\ _index at_third = Num 2
  /\ playlist shrunk = Some ["b1"]
  /\ _index shrunk = Num 2
  /\ snd (call "getVideoId" [] shrunk) = Ok VUndefined.
Proof. vm_compute. repeat split. Qed.

(** C3.  The subscriber registered before readiness is called with the
    widget's ready event; the one registered after it is called at once
    with [null], the event having been stored nowhere. *)
Theorem late_ready_subscriber_gets_null :
  invoked subscribed_twice =
    [(early_subscriber, [ready_event]); (late_subscriber, [VNull])]
  /\ _readyEvent subscribed_twice = VNull
  /\ ready_event <> VNull.
Proof. vm_compute. repeat split. discriminate. Qed.

(** C4 on the three sources, from the first entry. *)
Lemma index_wraparound_witness :
  _index (fst (playNext [] started)) = Num 1
  /\ _index (fst (playPrevious [] started)) = Num 2.
Proof.
  destruct (index_wraparound started 0%nat ["a1"; "a2"; "a3"] 0) as (Hn & Hp & _);
    [reflexivity | reflexivity | reflexivity | simpl; lia | simpl; lia |].
  split; [exact Hn | exact Hp].
Defined.

(** C1 on [play], called before the widget is ready. *)
Lemma early_call_guarded_witness :
  call "play" [] loaded =
    (loaded, Throw (VError "The play() function cannot be called yet.")).
Proof.
  destruct (early_call_guarded three_sources loaded "play" (forward false "playVideo") [])
    as [Hthrow _];
    [apply reach_addAudio, reach_init | reflexivity | reflexivity | reflexivity |].
  apply Hthrow. reflexivity.
Defined.

(** C5 on [getVolume], first call after readiness. *)
Lemma lazy_unwrapping_witness :
  snd (call "getVolume" [] started) = snd (forward true "getVolume" [] started)
  /\ "getVolume" ∉ guards (fst (call "getVolume" [] started)).
Proof.
  destruct (lazy_unwrapping started "getVolume" (forward true "getVolume") [])
    as (Hr & _ & Hg & _); [reflexivity | reflexivity |].
  split; [exact Hr|]. rewrite Hg. rewrite elem_of_difference, elem_of_singleton. tauto.
Defined.

(** C10 on the three sources. *)
Lemma returned_arrays_detached_witness :
  snd (getVideoIds [] started) = Ok (VArray (length (heap started)))
  /\ heap started !! length (heap started) = None
  /\ forall ys, playlist (mutate (length (heap started)) ys (fst (getVideoIds [] started)))
                = Some ["a1"; "a2"; "a3"].
Proof.
  destruct (returned_arrays_detached started 0%nat ["a1"; "a2"; "a3"])
    as ((Hfresh & _) & (Hr & _ & _ & Hm) & _); [reflexivity | reflexivity |].
  split; [now rewrite Hr|]. split; [exact Hfresh|]. intros ys. apply (Hm ys).
Defined.

End FacadeRuns.

(** ** The registry *)

(** *** Listener ids as strings *)

Section Handles.
Import Registry.

Lemma split_colon_free (s : string) : colon_free s = true -> split ":" s = [s].
Proof.
  induction s as [|c s IH]; simpl; [reflexivity|].
  intros [Hc Hs]%andb_true_iff. rewrite (IH Hs).
  destruct (Ascii.eqb c ":"); [discriminate|reflexivity].
Qed.

Lemma split_joined (a b : string) :
  colon_free a = true -> split ":" (a +:+ ":" +:+ b) = a :: split ":" b.
Proof.
  induction a as [|c a IH]; simpl; [reflexivity|].
  intros [Hc Ha]%andb_true_iff. rewrite (IH Ha).
  destruct (Ascii.eqb c ":"); [discriminate|reflexivity].
Qed.

Lemma uint_colon_free (d : Decimal.uint) : colon_free (NilEmpty.string_of_uint d) = true.
Proof. induction d; simpl; auto. Qed.

Lemma number_colon_free (n : jsnum) : colon_free (js_number_to_string n) = true.
Proof.
  destruct n as [z|]; [|reflexivity]. unfold js_number_to_string.
  destruct (Z.to_int z); simpl; apply uint_colon_free.
Qed.

Lemma number_to_string_inj (a b : jsnum) :
  js_number_to_string a = js_number_to_string b -> a = b.
Proof.
  destruct a as [x|], b as [y|]; simpl; intros E; try reflexivity.
  - f_equal. apply DecimalZ.to_int_inj.
    apply (f_equal NilEmpty.int_of_string) in E. rewrite !NilEmpty.isi in E. congruence.
  - apply (f_equal NilEmpty.int_of_string) in E. rewrite NilEmpty.isi in E. discriminate.
  - apply (f_equal NilEmpty.int_of_string) in E. rewrite NilEmpty.isi in E. discriminate.
Qed.

Lemma number_is_not_nextId (n : jsnum) : String.eqb (js_number_to_string n) "nextId" = false.
Proof.
  apply String.eqb_neq. destruct n as [z|]; simpl; [|discriminate].
  intros E. apply (f_equal NilEmpty.int_of_string) in E. rewrite NilEmpty.isi in E.
  discriminate.
Qed.

Lemma jsnum_eqb_eq (a b : jsnum) : jsnum_eqb a b = true <-> a = b.
Proof.
  destruct a, b; simpl; try (split; congruence).
  rewrite Z.eqb_eq. split; congruence.
Qed.

Lemma string_eqb_number (a b : jsnum) :
  String.eqb (js_number_to_string a) (js_number_to_string b) = jsnum_eqb a b.
Proof.
  destruct (jsnum_eqb a b) eqn:E.
  - apply jsnum_eqb_eq in E. subst. apply String.eqb_refl.
  - apply String.eqb_neq. intros Hs. apply number_to_string_inj in Hs.
    apply jsnum_eqb_eq in Hs. congruence.
Qed.

(** The handle [on] builds is read back by [off] as the event name and
    the id, when the event name has no colon. *)
Lemma handle_parts (eventName : string) (id : jsnum) :
  colon_free eventName = true ->
  take 2 (split ":" (eventName +:+ ":" +:+ js_number_to_string id))
  = [eventName; js_number_to_string id].
Proof.
  intros He. rewrite split_joined by assumption.
  now rewrite split_colon_free by apply number_colon_free.
Qed.

(** A number's writing is no name that an object inherits. *)
Lemma number_not_inherited (function : bool) (id : jsnum) :
  inherits function (js_number_to_string id) = false.
Proof.
  unfold inherits, inherited. destruct id as [z|]; [|now destruct function].
  unfold js_number_to_string. destruct (Z.to_int z) as [d|d].
  - destruct d; destruct function; reflexivity.
  - destruct function; reflexivity.
Qed.

Lemma get_property_by_id (function : bool) (id : jsnum) (ls : listeners) :
  get_property function (js_number_to_string id) ls =
  match entry id (entries ls) with
  | Some l => AListener id l
  | None => Missing
  end.
Proof.
  unfold get_property. rewrite number_is_not_nextId, number_not_inherited.
  induction (entries ls) as [|[k l] es IH]; simpl; [reflexivity|].
  rewrite string_eqb_number. destruct (jsnum_eqb k id) eqn:E; [|exact IH].
  apply jsnum_eqb_eq in E. now subst.
Qed.

(** [off] on a handle of that shape. *)
Lemma off_handle (eventName : string) (id : jsnum) (s : yta) :
  colon_free eventName = true ->
  off (eventName +:+ ":" +:+ js_number_to_string id) s =
  match _listenersByName s !! eventName with
  | None => (s, Throw VTypeError)
  | Some ls =>
      match entry id (entries ls) with
      | Some l =>
          (set_listeners eventName
             {| nextId := nextId ls; entries := delete_entry id (entries ls) |} s,
           Ok (handler l))
      | None => (s, Throw VTypeError)
      end
  end.
Proof.
  intros He. unfold off. rewrite handle_parts by assumption. simpl.
  unfold bind, get, found.
  destruct (_listenersByName s !! eventName) as [ls|].
  - rewrite get_property_by_id. now destruct (entry id (entries ls)).
  - destruct (inherited eventName); [|reflexivity].
    now rewrite get_property_by_id.
Qed.

Lemma entry_delete_same (id : jsnum) (es : list (jsnum * listener)) :
  entry id (delete_entry id es) = None.
Proof.
  induction es as [|[k l] es IH]; simpl; [reflexivity|].
  destruct (jsnum_eqb k id) eqn:E; simpl; [exact IH|]. now rewrite E.
Qed.

Lemma entry_delete_other (id k : jsnum) (es : list (jsnum * listener)) :
  k <> id -> entry k (delete_entry id es) = entry k es.
Proof.
  intros Hne. induction es as [|[j l] es IH]; simpl; [reflexivity|].
  destruct (jsnum_eqb j id) eqn:E; simpl.
  - apply jsnum_eqb_eq in E. subst j.
    destruct (jsnum_eqb id k) eqn:E'; [apply jsnum_eqb_eq in E'; congruence|exact IH].
  - now rewrite IH.
Qed.


(** What a name finds. *)
Lemma found_own (eventName : string) (s : yta) (ls : listeners) :
  _listenersByName s !! eventName = Some ls -> found eventName s = Some ls.
Proof. unfold found. now intros ->. Qed.

Lemma found_not_inherited (eventName : string) (s : yta) :
  inherited eventName = false -> found eventName s = _listenersByName s !! eventName.
Proof. unfold found. intros ->. now destruct (_listenersByName s !! eventName). Qed.

Lemma found_inherited (eventName : string) (s : yta) :
  _listenersByName s !! eventName = None -> inherited eventName = true ->
  found eventName s = Some {| nextId := None; entries := [] |}.
Proof. unfold found. now intros -> ->. Qed.

End Handles.

(** *** Runs on the recording host *)

Section RegistryRuns.
Import Registry Example.
Local Open Scope js_scope.



(** C2.  A listener with limit 1 on an event whose name has a colon: the
    first dispatch calls it; the second finds it exhausted and calls
    [off("yt:ended:1")], which [off] reads as event ["yt"], id
    ["ended"]: a TypeError leaves [trigger], and the record is still
    registered, then and after any further dispatch. *)
Theorem exhausted_listener_not_removed :
  let s1 := fst (on "yt:ended" (VFunction late_subscriber) (Count 1) Registry.empty) in
  let s2 := fst (trigger "yt:ended" [] s1) in
  let s3 := fst (trigger "yt:ended" [] s2) in
  let s4 := fst (trigger "yt:ended" [] s3) in
  length (invoked s2) = 1%nat
  /\ snd (trigger "yt:ended" [] s2) = Throw VTypeError
  /\ snd (trigger "yt:ended" [] s3) = Throw VTypeError
  /\ (_listenersByName s3 !! "yt:ended") ≫= (fun ls => entry (Num 1) (entries ls))
     = Some {| handler := VFunction late_subscriber; limit := Count (-1) |}
  /\ (_listenersByName s4 !! "yt:ended") ≫= (fun ls => entry (Num 1) (entries ls))
     = Some {| handler := VFunction late_subscriber; limit := Count (-2) |}.
Proof. vm_compute. repeat split. Qed.

(** C6.  Two listeners on such an event, the first with limit 1, the
    second unbounded: the second dispatch stops at the exhausted first
    listener with a TypeError thrown to the caller of [trigger], and the
    second listener, still live, is not called. *)
Theorem live_listener_skipped_after_exhausted :
  let s1 := fst ((on "yt:ended" (VFunction early_subscriber) (Count 1);;;
                  on "yt:ended" (VFunction late_subscriber) Infinity) Registry.empty) in
  let s2 := fst (trigger "yt:ended" [VNull] s1) in
  let s3 := fst (trigger "yt:ended" [VBool true] s2) in
  map callee (invoked s2) = [early_subscriber; late_subscriber]
  /\ snd (trigger "yt:ended" [VBool true] s2) = Throw VTypeError
  /\ invoked s3 = invoked s2
  /\ (_listenersByName s3 !! "yt:ended") ≫= (fun ls => entry (Num 2) (entries ls))
     = Some {| handler := VFunction late_subscriber; limit := Infinity |}.
Proof. vm_compute. repeat split. Qed.

End RegistryRuns.

(** ** The matcher *)

Section RegexFacts.
Import Regex RegexAux.
Context {A : Type}.

Lemma exec_lit (t : string) (k : nat -> list ascii -> caps -> option A)
    (pos : nat) (s : list ascii) (c : caps) :
  exec (lit t) k pos s c =
  match strip_prefix (list_ascii_of_string t) s with
  | Some s' => k (pos + String.length t)%nat s' c
  | None => None
  end.
Proof.
  revert pos s. induction t as [|a t IH]; intros pos s; simpl.
  - now rewrite Nat.add_0_r.
  - destruct s as [|x s]; [reflexivity|].
    destruct (Ascii.eqb a x); [|reflexivity].
    rewrite IH. now rewrite Nat.add_succ_r.
Qed.

Lemma strip_prefix_app (t s : list ascii) : strip_prefix t (t ++ s) = Some s.
Proof.
  induction t as [|a t IH]; simpl; [reflexivity|]. now rewrite Ascii.eqb_refl.
Qed.


(** A greedy star takes the whole run of the class when the rest of the
    pattern accepts what follows. *)
Lemma star_greedy_longest (p : ascii -> bool) (k : nat -> list ascii -> option A)
    (pos : nat) (w s : list ascii) (r : A) :
  forallb p w = true -> stops p s ->
  k (pos + length w)%nat s = Some r ->
  star_greedy p k pos (w ++ s) = Some r.
Proof.
  revert pos. induction w as [|a w IH]; intros pos Hw Hs Hk; simpl in *.
  - rewrite Nat.add_0_r in Hk. destruct s as [|x s]; [assumption|].
    simpl in *. now rewrite Hs.
  - apply andb_true_iff in Hw as [Ha Hw]. rewrite Ha.
    rewrite (IH (S pos) Hw Hs); [reflexivity|].
    now rewrite Nat.add_succ_r in Hk.
Qed.




(** A lazy star passes over characters on which the rest of the pattern
    fails. *)
Lemma star_lazy_skip (p : ascii -> bool) (k : nat -> list ascii -> option A)
    (pos : nat) (pre s : list ascii) :
  forallb p pre = true ->
  (forall j, (j < length pre)%nat -> k (pos + j)%nat (skipn j pre ++ s) = None) ->
  star_lazy p k pos (pre ++ s) = star_lazy p k (pos + length pre)%nat s.
Proof.
  revert pos. induction pre as [|x pre IH]; intros pos Hp Hnone; simpl in *.
  - now rewrite Nat.add_0_r.
  - apply andb_true_iff in Hp as [Hx Hp].
    pose proof (Hnone 0%nat ltac:(lia)) as H0. simpl in H0. rewrite Nat.add_0_r in H0.
    rewrite H0, Hx, (IH (S pos) Hp).
    + now rewrite Nat.add_succ_r.
    + intros j Hj. specialize (Hnone (S j) ltac:(lia)). simpl in Hnone.
      now rewrite Nat.add_succ_r in Hnone.
Qed.

Lemma star_lazy_here (p : ascii -> bool) (k : nat -> list ascii -> option A)
    (pos : nat) (s : list ascii) (r : A) :
  k pos s = Some r -> star_lazy p k pos s = Some r.
Proof. intros Hk. destruct s; simpl; now rewrite Hk. Qed.

Lemma star_lazy_inv (p : ascii -> bool) (k : nat -> list ascii -> option A)
    (pos : nat) (s : list ascii) (r : A) :
  star_lazy p k pos s = Some r ->
  exists w s', s = w ++ s' /\ k (pos + length w)%nat s' = Some r.
Proof.
  revert pos. induction s as [|x s IH]; intros pos; simpl.
  - destruct (k pos []) eqn:Hk; [|discriminate]. intros [= ->].
    exists [], []. rewrite Nat.add_0_r. auto.
  - destruct (k pos (x :: s)) eqn:Hk.
    + intros [= ->]. exists [], (x :: s). rewrite Nat.add_0_r. auto.
    + destruct (p x); [|discriminate]. intros Hs.
      destruct (IH _ Hs) as (w & s' & -> & Hk').
      exists (x :: w), s'. simpl. rewrite Nat.add_succ_r. auto.
Qed.

(** When the rest of the pattern fails everywhere, so does the star. *)
Lemma star_lazy_none (p : ascii -> bool) (k : nat -> list ascii -> option A)
    (pos : nat) (s : list ascii) :
  (forall j, (j <= length s)%nat -> k (pos + j)%nat (skipn j s) = None) ->
  star_lazy p k pos s = None.
Proof.
  revert pos. induction s as [|x s IH]; intros pos Hnone; simpl.
  - specialize (Hnone 0%nat). simpl in Hnone. rewrite Nat.add_0_r in Hnone.
    now rewrite Hnone by lia.
  - pose proof (Hnone 0%nat ltac:(simpl; lia)) as H0. simpl in H0.
    rewrite Nat.add_0_r in H0. rewrite H0. destruct (p x); [|reflexivity].
    apply IH. intros j Hj. specialize (Hnone (S j)). simpl in Hnone.
    rewrite Nat.add_succ_r in Hnone. apply Hnone. lia.
Qed.

End RegexFacts.

(** ** [parseVideoId] of the facade *)

Section FacadeParse.
Import Regex RegexAux Shapes ParseVideoId.

Lemma forallb_any (s : list ascii) : forallb any s = true.
Proof. induction s; simpl; auto. Qed.

(** A class run, then anything, up to the end: the group takes the
    run. *)
Lemma group_run_to_end (n : nat) (p : ascii -> bool) (pos : nat)
    (w rest : list ascii) (c : caps) :
  w <> [] -> forallb p w = true -> stops p rest ->
  exec (Group n (Plus true p) >> Star true any >> Eol) final pos (w ++ rest) c
  = Some ((n, w) :: c, []).
Proof.
  intros Hne Hw Hs. destruct w as [|x w]; [congruence|].
  simpl in Hw. apply andb_true_iff in Hw as [Hx Hw].
  cbn [exec Plus app]. rewrite Hx.
  erewrite star_greedy_longest; [reflexivity|exact Hw|exact Hs|].
  cbn beta.
  replace (rest) with (rest ++ []) at 1 by apply app_nil_r.
  erewrite star_greedy_longest; [|apply forallb_any|exact I|reflexivity].
  replace (S pos + length w - pos)%nat with (length (x :: w)) by (simpl; lia).
  change (x :: w ++ rest) with ((x :: w) ++ rest).
  now rewrite take_app_length.
Qed.

Lemma watch_tail_none (pos : nat) (s : list ascii) (c : caps) :
  watch_here s = false -> exec watch_tail final pos s c = None.
Proof.
  intros Hh. unfold watch_tail. destruct s as [|q s1]; [reflexivity|].
  cbn [exec]. unfold watch_here in Hh. destruct (one_of "?&" q); [|reflexivity].
  rewrite andb_true_l in Hh. rewrite exec_lit.
  destruct (strip_prefix (list_ascii_of_string "v=") s1) as [[|x s2]|];
    try reflexivity.
  cbn [exec Plus]. now rewrite Hh.
Qed.

Lemma watch_tail_some (pos : nat) (q : ascii) (id rest : list ascii) (c : caps) :
  one_of "?&" q = true -> id <> [] -> forallb (none_of "&") id = true ->
  stops (none_of "&") rest ->
  exec watch_tail final pos (q :: list_ascii_of_string "v=" ++ id ++ rest) c
  = Some ((1%nat, id) :: c, []).
Proof.
  intros Hq Hne Hid Hs. unfold watch_tail. cbn [exec]. rewrite Hq.
  rewrite exec_lit, strip_prefix_app.
  now apply group_run_to_end.
Qed.

Lemma short_tail_none (pos : nat) (s : list ascii) (c : caps) :
  short_here s = false -> exec short_tail final pos s c = None.
Proof.
  intros Hh. unfold short_tail. cbn [exec]. rewrite exec_lit.
  unfold short_here in Hh.
  destruct (strip_prefix (list_ascii_of_string "://youtu") s) as [[|d s1]|];
    try reflexivity.
  cbn [exec]. destruct (dot d); [|reflexivity].
  rewrite andb_true_l in Hh. rewrite exec_lit.
  destruct (strip_prefix (list_ascii_of_string "be/") s1) as [[|x s2]|];
    try reflexivity.
  cbn [exec Plus]. now rewrite Hh.
Qed.

Lemma short_tail_some (pos : nat) (d : ascii) (id rest : list ascii) (c : caps) :
  dot d = true -> id <> [] -> forallb (none_of "/?") id = true ->
  stops (none_of "/?") rest ->
  exec short_tail final pos
    (list_ascii_of_string "://youtu" ++ d :: list_ascii_of_string "be/" ++ id ++ rest) c
  = Some ((2%nat, id) :: c, []).
Proof.
  intros Hd Hne Hid Hs. unfold short_tail. cbn [exec].
  rewrite exec_lit, strip_prefix_app. cbn [exec]. rewrite Hd.
  rewrite exec_lit, strip_prefix_app.
  now apply group_run_to_end.
Qed.

Lemma occurs_false_skipn (here : list ascii -> bool) (s : list ascii) (j : nat) :
  occurs here s = false -> here (skipn j s) = false.
Proof.
  revert j. induction s as [|x s IH]; intros j; simpl.
  - rewrite orb_false_r. now destruct j.
  - intros [Hh Ho]%orb_false_iff. destruct j; [assumption|]. now apply IH.
Qed.

(** The whole pattern at the start of the subject, and further on. *)
Lemma facade_match_at_start (s : list ascii) :
  match_at facade_re 0 s =
  match star_lazy any (fun pos' s' => exec watch_tail final pos' s' []) 0 s with
  | Some a => Some a
  | None => star_lazy any (fun pos' s' => exec short_tail final pos' s' []) 0 s
  end.
Proof. reflexivity. Qed.

Lemma facade_match_later (n : nat) (s : list ascii) :
  match_at facade_re (S n) s = None.
Proof. reflexivity. Qed.

Lemma replace_first_later (n : nat) (s : list ascii) :
  replace_first facade_re [1; 2]%nat (S n) s = s.
Proof.
  revert n. induction s as [|x s IH]; intros n.
  - reflexivity.
  - cbn [replace_first]. rewrite facade_match_later. now rewrite IH.
Qed.

Lemma facade_replace (s : list ascii) :
  replace_first facade_re [1; 2]%nat 0 s =
  match match_at facade_re 0 s with
  | Some (c, s') => cap 1 c ++ cap 2 c ++ s'
  | None => s
  end.
Proof.
  destruct s as [|x s]; cbn [replace_first];
    destruct (match_at facade_re 0 _) as [[c s']|]; cbn [expand];
    rewrite ?app_nil_r, ?replace_first_later, <- ?app_assoc; reflexivity.
Qed.


Lemma chars_app (a b : string) :
  list_ascii_of_string (a +:+ b) = list_ascii_of_string a ++ list_ascii_of_string b.
Proof. induction a as [|x a IH]; simpl; [reflexivity|]. now rewrite IH. Qed.

Lemma chars_nonempty (s : string) : s <> "" -> list_ascii_of_string s <> [].
Proof. destruct s; [congruence|discriminate]. Qed.

(** A character of an identifier is none of the delimiters the patterns
    look for. *)
Lemma word_is_no_delimiter (x : ascii) :
  word_or_dash x = true ->
  one_of "?&" x = false /\ none_of "&" x = true /\ none_of "/?" x = true
  /\ Ascii.eqb ":" x = false.
Proof.
  destruct x as [[] [] [] [] [] [] [] []]; vm_compute; intuition congruence.
Qed.

Lemma bare_forallb (p : ascii -> bool) (s : list ascii) :
  (forall x, word_or_dash x = true -> p x = true) ->
  forallb word_or_dash s = true -> forallb p s = true.
Proof.
  intros Hp. induction s as [|x s IH]; simpl; [reflexivity|].
  intros [Hx Hs]%andb_true_iff. rewrite (Hp x Hx). auto.
Qed.

Lemma watch_here_needs_delimiter (x : ascii) (s : list ascii) :
  one_of "?&" x = false -> watch_here (x :: s) = false.
Proof. intros Hx. unfold watch_here. now rewrite Hx. Qed.

Lemma short_here_needs_colon (x : ascii) (s : list ascii) :
  Ascii.eqb ":" x = false -> short_here (x :: s) = false.
Proof.
  intros Hx. unfold short_here. cbn [strip_prefix list_ascii_of_string].
  now rewrite Hx.
Qed.

Lemma bare_has_no_shape (s : list ascii) :
  forallb word_or_dash s = true ->
  occurs watch_here s = false /\ occurs short_here s = false.
Proof.
  induction s as [|x s IH]; [split; reflexivity|].
  cbn [forallb occurs]. intros [Hx Hs]%andb_true_iff.
  destruct (word_is_no_delimiter x Hx) as (Hq & _ & _ & Hc).
  destruct (IH Hs) as [-> ->].
  now rewrite watch_here_needs_delimiter, short_here_needs_colon.
Qed.

Lemma facade_parse_replace (s : string) :
  facade_parse s =
  string_of_list_ascii
    match match_at facade_re 0 (list_ascii_of_string s) with
    | Some (c, s') => cap 1 c ++ cap 2 c ++ s'
    | None => list_ascii_of_string s
    end.
Proof. unfold facade_parse. now rewrite facade_replace. Qed.



Lemma skipn_in_prefix {B} (j : nat) (pre s : list B) :
  (j < length pre)%nat ->
  exists x t, In x pre /\ skipn j pre ++ s = x :: t.
Proof.
  revert j. induction pre as [|x pre IH]; intros j Hj; simpl in Hj; [lia|].
  destruct j as [|j].
  - exists x, (pre ++ s). split; [now left|reflexivity].
  - destruct (IH j ltac:(lia)) as (y & t & Hin & E).
    exists y, t. split; [now right|]. exact E.
Qed.

(** The watch form: the identifier after the first [?v=] or [&v=], up to
    the next [&]. *)
Lemma facade_parse_watch (pre id rest : string) (q : ascii) :
  forallb (none_of "?&") (list_ascii_of_string pre) = true ->
  one_of "?&" q = true -> id <> "" -> bare id = true ->
  stops (none_of "&") (list_ascii_of_string rest) ->
  facade_parse (pre +:+ String q ("v=" +:+ id +:+ rest)) = id.
Proof.
  intros Hpre Hq Hne Hid Hrest.
  rewrite facade_parse_replace, chars_app. cbn [list_ascii_of_string].
  rewrite !chars_app, facade_match_at_start.
  rewrite star_lazy_skip; [|apply forallb_any|].
  - assert (Hid' : forallb (none_of "&") (list_ascii_of_string id) = true).
    { apply (bare_forallb _ _ (fun x Hx => proj1 (proj2 (word_is_no_delimiter x Hx)))).
      exact Hid. }
    pose proof (watch_tail_some (0 + length (list_ascii_of_string pre)) q
                  (list_ascii_of_string id) (list_ascii_of_string rest) []
                  Hq (chars_nonempty _ Hne) Hid' Hrest) as Ht.
    rewrite (star_lazy_here any (fun pos' s' => exec watch_tail final pos' s' []) _ _ _ Ht).
    simpl. rewrite app_nil_r.
    apply string_of_list_ascii_of_string.
  - intros j Hj. apply watch_tail_none.
    destruct (skipn_in_prefix j _ (q :: list_ascii_of_string "v=" ++
                list_ascii_of_string id ++ list_ascii_of_string rest) Hj)
      as (x & t & Hin & ->).
    apply watch_here_needs_delimiter.
    rewrite forallb_forall in Hpre. specialize (Hpre x Hin).
    unfold none_of in Hpre. now destruct (one_of "?&" x).
Qed.

(** The short form, on a string without the watch shape: the identifier
    after the first [://youtu.be/], up to the next [/] or [?]. *)
Lemma facade_parse_short (pre id rest : string) (d : ascii) :
  has_watch_shape (pre +:+ "://youtu" +:+ String d ("be/" +:+ id +:+ rest)) = false ->
  forallb (none_of ":") (list_ascii_of_string pre) = true ->
  dot d = true -> id <> "" -> bare id = true ->
  stops (none_of "/?") (list_ascii_of_string rest) ->
  facade_parse (pre +:+ "://youtu" +:+ String d ("be/" +:+ id +:+ rest)) = id.
Proof.
  intros Hw Hpre Hd Hne Hid Hrest.
  rewrite facade_parse_replace, facade_match_at_start.
  rewrite star_lazy_none.
  2:{ intros j _. apply watch_tail_none. now apply occurs_false_skipn. }
  rewrite !chars_app. cbn [list_ascii_of_string]. rewrite !chars_app.
  rewrite star_lazy_skip; [|apply forallb_any|].
  - assert (Hid' : forallb (none_of "/?") (list_ascii_of_string id) = true).
    { apply (bare_forallb _ _
               (fun x Hx => proj1 (proj2 (proj2 (word_is_no_delimiter x Hx))))).
      exact Hid. }
    pose proof (short_tail_some (0 + length (list_ascii_of_string pre)) d
                  (list_ascii_of_string id) (list_ascii_of_string rest) []
                  Hd (chars_nonempty _ Hne) Hid' Hrest) as Ht.
    match goal with |- context [star_lazy any ?k ?p ?s] =>
      rewrite (star_lazy_here any k p s _ Ht) end.
    simpl. rewrite app_nil_r.
    apply string_of_list_ascii_of_string.
  - intros j Hj. apply short_tail_none.
    match goal with |- short_here (skipn j ?p ++ ?t) = false =>
      destruct (skipn_in_prefix j p t Hj) as (x & t' & Hin & ->) end.
    apply short_here_needs_colon.
    rewrite forallb_forall in Hpre. specialize (Hpre x Hin).
    unfold none_of, one_of in Hpre. simpl in Hpre.
    rewrite orb_false_r in Hpre. rewrite Ascii.eqb_sym.
    now destruct (Ascii.eqb x ":").
Qed.

End FacadeParse.

(** ** [parseVideoId] of the class *)

Section ClassParse.
Import Regex RegexAux Shapes ParseVideoId.



























Lemma eol_final (pos : nat) (c : caps) : exec Eol final pos [] c = Some (c, []).
Proof. reflexivity. Qed.








End ClassParse.

(** ** What the two parsers promise *)

Section ParseContract.
Import Regex RegexAux Shapes ParseVideoId.












End ParseContract.

(** ** Dispatch, on an event name without a colon *)

Section Dispatch.
Import Registry.
Context {W : Type} `{Host W}.

Lemma ascending_weaken (lo lo' hi : Z) (es : list (jsnum * listener)) :
  lo' <= lo -> ascending lo hi es -> ascending lo' hi es.
Proof.
  destruct es as [|[[z|] l] es]; simpl; auto. intros Hlo (H1 & H2 & H3).
  repeat split; auto. lia.
Qed.

Lemma ascending_above (lo hi : Z) (es : list (jsnum * listener)) :
  ascending lo hi es ->
  Forall (fun e => exists y, fst e = Num y /\ lo < y < hi) es.
Proof.
  revert lo. induction es as [|[[z|] l] es IH]; intros lo; simpl.
  - constructor.
  - intros (H1 & H2 & H3). constructor; [exists z; simpl; auto|].
    apply IH in H3. eapply Forall_impl; [exact H3|].
    simpl. intros e (y & Hy & Hlt). exists y. split; [exact Hy|lia].
  - intros [].
Qed.

Lemma entry_after (p es : list (jsnum * listener)) (z : Z) :
  below (z - 1) p -> entry (Num z) (p ++ es) = entry (Num z) es.
Proof.
  induction 1 as [|[k l] p (y & Hk & Hy) _ IH]; simpl in *; [reflexivity|].
  subst k. simpl. destruct (Z.eqb_spec y z); [lia|]. exact IH.
Qed.

Lemma set_entry_after (p es : list (jsnum * listener)) (z : Z) (l' : listener) :
  below (z - 1) p -> set_entry (Num z) l' (p ++ es) = p ++ set_entry (Num z) l' es.
Proof.
  induction 1 as [|[k l] p (y & Hk & Hy) _ IH]; simpl in *; [reflexivity|].
  subst k. simpl. destruct (Z.eqb_spec y z); [lia|].
  destruct (Z.ltb_spec z y); [lia|]. now rewrite IH.
Qed.

Lemma delete_entry_absent (es : list (jsnum * listener)) (k : jsnum) :
  Forall (fun e => fst e <> k) es -> delete_entry k es = es.
Proof.
  induction 1 as [|[j l] es Hj _ IH]; simpl in *; [reflexivity|].
  unfold delete_entry. simpl.
  destruct (jsnum_eqb j k) eqn:E; [apply jsnum_eqb_eq in E; congruence|].
  simpl. f_equal. exact IH.
Qed.

Lemma delete_entry_middle (p r : list (jsnum * listener)) (z : Z) (l : listener) :
  below (z - 1) p -> Forall (fun e => fst e <> Num z) r ->
  delete_entry (Num z) (p ++ (Num z, l) :: r) = p ++ r.
Proof.
  intros Hp Hr. unfold delete_entry. rewrite List.filter_app. simpl.
  rewrite Z.eqb_refl. simpl.
  fold (delete_entry (Num z) p). fold (delete_entry (Num z) r).
  rewrite (delete_entry_absent r) by assumption.
  rewrite delete_entry_absent; [reflexivity|].
  eapply Forall_impl; [exact Hp|]. simpl. intros e (y & -> & Hy) [= ->]. lia.
Qed.

(** A listener's call touches the log and the timers only. *)
Lemma serve_frame (eventName : string) (args : list value) (e : jsnum * listener)
    (e' : string) (ls : listeners) (s : yta) :
  serve eventName args e (set_listeners e' ls s)
  = (set_listeners e' ls (fst (serve eventName args e s)), Ok tt).
Proof.
  unfold serve, try_catch, apply_handler, defer_throw, modify, throw.
  destruct (handler (snd e)); simpl; try reflexivity.
  destruct (fn_throws _ _ _); reflexivity.
Qed.

Lemma serve_registry (eventName : string) (args : list value) (e : jsnum * listener)
    (s : yta) :
  _listenersByName (fst (serve eventName args e s)) = _listenersByName s
  /\ _readyArguments (fst (serve eventName args e s)) = _readyArguments s
  /\ snd (serve eventName args e s) = Ok tt.
Proof.
  unfold serve, try_catch, apply_handler, defer_throw, modify, throw.
  destruct (handler (snd e)); simpl; auto.
  destruct (fn_throws _ _ _); simpl; auto.
Qed.

Lemma set_listeners_twice (e : string) (x y : listeners) (s : yta) :
  set_listeners e x (set_listeners e y s) = set_listeners e x s.
Proof.
  unfold set_listeners, with_listenersByName. simpl. now rewrite insert_insert_eq.
Qed.

Lemma set_listeners_lookup (e : string) (x : listeners) (s : yta) :
  _listenersByName (set_listeners e x s) !! e = Some x.
Proof. unfold set_listeners. simpl. apply lookup_insert_eq. Qed.

Lemma set_listeners_same (e : string) (ls : listeners) (s : yta) :
  _listenersByName s !! e = Some ls -> set_listeners e ls s = s.
Proof.
  intros Hl. unfold set_listeners, with_listenersByName.
  rewrite insert_id by assumption. now destruct s.
Qed.

(** The body of the loop on one listener: a live one is called and its
    limit goes down, an exhausted one is removed. *)
Lemma visit_spec (eventName : string) (args : list value) (s : yta)
    (n : option jsnum) (p r : list (jsnum * listener)) (z hi : Z) (l : listener) :
  colon_free eventName = true ->
  _listenersByName s !! eventName = Some {| nextId := n; entries := p ++ (Num z, l) :: r |} ->
  below (z - 1) p -> ascending z hi r ->
  visit eventName args (Num z) s =
  (if positive (limit l) then
     set_listeners eventName
       {| nextId := n;
          entries := p ++ (Num z, {| handler := handler l;
                                     limit := decrement (limit l) |}) :: r |}
       (fst (serve eventName args (Num z, l) s))
   else
     set_listeners eventName {| nextId := n; entries := p ++ r |} s,
   Ok tt).
Proof.
  intros He Hl Hp Hr. unfold visit. unfold bind at 1, get. rewrite Hl. simpl.
  rewrite entry_after by assumption. simpl. rewrite Z.eqb_refl.
  unfold bind at 1. unfold consume at 1, modify. rewrite Hl. simpl.
  rewrite entry_after by assumption. simpl. rewrite Z.eqb_refl.
  rewrite set_entry_after by assumption. simpl. rewrite Z.eqb_refl.
  destruct (positive (limit l)).
  - apply (serve_frame eventName args (Num z, l)).
  - unfold bind. rewrite (off_handle eventName (Num z)) by assumption.
    rewrite set_listeners_lookup. simpl.
    rewrite entry_after by assumption. simpl. rewrite Z.eqb_refl.
    rewrite set_listeners_twice, delete_entry_middle; auto.
    apply ascending_above in Hr. eapply Forall_impl; [exact Hr|].
    simpl. intros e (y & -> & Hy) [= ->]. lia.
Qed.

Lemma live_app (a b : list (jsnum * listener)) : live (a ++ b) = live a ++ live b.
Proof. unfold live. apply List.filter_app. Qed.

Lemma after_dispatch_cons (e : jsnum * listener) (es : list (jsnum * listener)) :
  after_dispatch (e :: es) =
  if positive (limit (snd e))
  then (fst e, {| handler := handler (snd e); limit := decrement (limit (snd e)) |})
         :: after_dispatch es
  else after_dispatch es.
Proof. unfold after_dispatch, live. simpl. now destruct (positive _). Qed.

Lemma below_snoc (z z' : Z) (p : list (jsnum * listener)) (l : listener) :
  below z p -> z <= z' -> below z' (p ++ [(Num z', l)]).
Proof.
  intros Hp Hz. apply Forall_app. split.
  - eapply Forall_impl; [exact Hp|]. simpl. intros e (y & Hy & Hle).
    exists y. split; [exact Hy|lia].
  - constructor; [|constructor]. exists z'. simpl. split; [reflexivity|lia].
Qed.

Lemma below_weaken (z z' : Z) (p : list (jsnum * listener)) :
  below z p -> z <= z' -> below z' p.
Proof.
  intros Hp Hz. eapply Forall_impl; [exact Hp|]. simpl. intros e (y & Hy & Hle).
  exists y. split; [exact Hy|lia].
Qed.

Lemma for_each_serve_registry (eventName : string) (args : list value)
    (es : list (jsnum * listener)) (s : yta) :
  _listenersByName (fst (for_each (serve eventName args) es s)) = _listenersByName s
  /\ _readyArguments (fst (for_each (serve eventName args) es s)) = _readyArguments s
  /\ snd (for_each (serve eventName args) es s) = Ok tt.
Proof.
  revert s. induction es as [|e es IH]; intros s; simpl; [auto|].
  unfold bind. destruct (serve_registry eventName args e s) as (E1 & E2 & E3).
  destruct (serve eventName args e s) as [s1 r1]. simpl in *. subst r1.
  destruct (IH s1) as (E4 & E5 & E6). rewrite E4, E5, E6. auto.
Qed.

Lemma for_each_serve_frame (eventName : string) (args : list value)
    (es : list (jsnum * listener)) (e' : string) (ls : listeners) (s : yta) :
  for_each (serve eventName args) es (set_listeners e' ls s)
  = (set_listeners e' ls (fst (for_each (serve eventName args) es s)), Ok tt).
Proof.
  revert s. induction es as [|e es IH]; intros s; simpl; [reflexivity|].
  unfold bind. rewrite serve_frame.
  destruct (serve_registry eventName args e s) as (_ & _ & E3).
  destruct (serve eventName args e s) as [s1 r1]. simpl in *. subst r1.
  apply IH.
Qed.

(** The loop of [trigger] over the listeners still to visit. *)
Lemma visit_all_spec (eventName : string) (args : list value) (n : option jsnum)
    (hi : Z) (r : list (jsnum * listener)) :
  colon_free eventName = true ->
  forall (p : list (jsnum * listener)) (lo : Z) (s : yta),
    _listenersByName s !! eventName = Some {| nextId := n; entries := p ++ r |} ->
    below lo p -> ascending lo hi r ->
    for_each (visit eventName args) (map fst r) s =
    (set_listeners eventName {| nextId := n; entries := p ++ after_dispatch r |}
       (fst (for_each (serve eventName args) (live r) s)),
     Ok tt).
Proof.
  intros He. induction r as [|[[z|] l] r IH]; intros p lo s Hl Hp Hr.
  - simpl. unfold ret. rewrite set_listeners_same; [reflexivity|].
    unfold after_dispatch. simpl. exact Hl.
  - destruct Hr as (Hlo & Hhi & Hr). cbn [map fst for_each]. unfold bind at 1.
    rewrite (visit_spec eventName args s n p r z hi l He Hl
               (below_weaken lo (z - 1) p Hp ltac:(lia)) Hr).
    rewrite after_dispatch_cons. unfold live. cbn [List.filter snd fst].
    fold (live r). destruct (positive (limit l)).
    + set (l' := {| handler := handler l; limit := decrement (limit l) |}).
      rewrite (IH (p ++ [(Num z, l')]) z).
      * rewrite for_each_serve_frame. cbn [fst for_each]. unfold bind.
        destruct (serve_registry eventName args (Num z, l) s) as (_ & _ & E3).
        destruct (serve eventName args (Num z, l) s) as [s1 r1]. simpl in E3. subst r1.
        cbn [fst]. rewrite set_listeners_twice, <- app_assoc. reflexivity.
      * rewrite set_listeners_lookup, <- app_assoc. reflexivity.
      * apply (below_snoc lo); [exact Hp|lia].
      * exact Hr.
    + rewrite (IH p z).
      * rewrite for_each_serve_frame. cbn [fst]. now rewrite set_listeners_twice.
      * apply set_listeners_lookup.
      * apply (below_weaken lo); [exact Hp|lia].
      * exact Hr.
  - destruct Hr.
Qed.

(** One dispatch: every listener with invocations left is called, in
    the order of the ids, its exception deferred; [trigger] returns
    [this]; the listeners left are those that were called, each limit
    one lower. *)
Lemma trigger_spec (eventName : string) (args : list value) (s : yta) (ls : listeners) :
  colon_free eventName = true ->
  _listenersByName s !! eventName = Some ls -> well_numbered ls ->
  trigger eventName args s =
  (set_listeners eventName
     {| nextId := nextId ls; entries := after_dispatch (entries ls) |}
     (fst (for_each (serve eventName args) (live (entries ls)) s)),
   Ok VThis).
Proof.
  intros He Hl (n & Hn & Hpos & Hasc). unfold trigger. unfold bind at 1, get.
  rewrite (found_own _ _ _ Hl). unfold bind.
  rewrite (visit_all_spec eventName args (nextId ls) n (entries ls) He [] 0 s);
    [reflexivity| |constructor|exact Hasc].
  simpl. now destruct ls.
Qed.

(** What the calls of one dispatch leave in the log and in the timers. *)
Lemma serve_all_spec (eventName : string) (args : list value)
    (es : list (jsnum * listener)) (s : yta) :
  for_each (serve eventName args) es s =
  (with_timers (timers s ++ deferred eventName args (invoked s) es)
     (with_invoked (invoked s ++ flat_map (invocation_of eventName args) es) s),
   Ok tt).
Proof.
  revert s. induction es as [|e es IH]; intros s.
  - simpl. unfold ret. rewrite !app_nil_r. now destruct s.
  - cbn [for_each flat_map deferred]. unfold bind.
    assert (Hs : serve eventName args e s =
                 (with_timers
                    (timers s ++
                     match handler (snd e) with
                     | VFunction f =>
                         match fn_throws (history (invoked s)) f args with
                         | Some x => [x]
                         | None => []
                         end
                     | _ => [VTypeError]
                     end)
                    (with_invoked (invoked s ++ invocation_of eventName args e) s),
                  Ok tt)).
    { unfold serve, try_catch, apply_handler, defer_throw, modify, throw, invocation_of.
      destruct s as [m ra tm log].
      destruct (handler (snd e)); simpl; rewrite ?app_nil_r; try reflexivity.
      destruct (fn_throws _ _ _); simpl; rewrite ?app_nil_r; reflexivity. }
    rewrite Hs, IH. simpl. now rewrite <- !app_assoc.
Qed.



(** *** Subscribing *)

Lemma ascending_snoc (lo n : Z) (es : list (jsnum * listener)) (l : listener) :
  ascending lo n es -> lo < n -> ascending lo (n + 1) (es ++ [(Num n, l)]).
Proof.
  revert lo. induction es as [|[[z|] l0] es IH]; intros lo; simpl.
  - intros _ Hlo. repeat split; lia.
  - intros (H1 & H2 & H3) _. repeat split; [lia..|]. now apply IH.
  - intros [].
Qed.

Lemma ascending_below (lo n : Z) (es : list (jsnum * listener)) :
  ascending lo n es -> below (n - 1) es.
Proof.
  intros Ha. apply ascending_above in Ha. eapply Forall_impl; [exact Ha|].
  simpl. intros e (y & Hy & Hlt). exists y. split; [exact Hy|lia].
Qed.

Lemma set_entry_fresh (lo n : Z) (es : list (jsnum * listener)) (l : listener) :
  ascending lo n es -> set_entry (Num n) l es = es ++ [(Num n, l)].
Proof.
  intros Ha. rewrite <- (app_nil_r es) at 1.
  rewrite set_entry_after by (eapply ascending_below; exact Ha). reflexivity.
Qed.

Lemma on_spec (eventName : string) (callback : value) (opt_limit : budget)
    (s : yta) (n : Z) :
  nextId (listeners_for eventName s) = Some (Num n) ->
  ascending 0 n (entries (listeners_for eventName s)) ->
  let es := entries (listeners_for eventName s) in
  let l := {| handler := callback; limit := opt_limit |} in
  on eventName callback opt_limit s =
  (set_listeners eventName
     {| nextId := Some (Num (n + 1));
        entries := es ++ [(Num n, if replays eventName s
                                  then {| handler := callback;
                                          limit := decrement opt_limit |}
                                  else l)] |}
     (if replays eventName s && positive opt_limit
      then fst (serve eventName (default [] (_readyArguments s)) (Num n, l) s)
      else s),
   Ok (VString (eventName +:+ ":" +:+ js_number_to_string (Num n)))).
Proof.
  intros Hn Ha es l. unfold on, replays. unfold bind at 1, get.
  fold (listeners_for eventName s). rewrite Hn. simpl default.
  unfold bind at 1. unfold modify at 1.
  rewrite (set_entry_fresh 0 n _ _ Ha). fold es.
  destruct (String.eqb eventName "ready"); simpl andb.
  2:{ unfold bind, ret. reflexivity. }
  destruct (_readyArguments s) as [ready|] eqn:Hready; simpl.
  2:{ unfold bind, ret. reflexivity. }
  unfold bind at 1. unfold bind at 1. unfold consume, modify.
  rewrite set_listeners_lookup. simpl.
  rewrite entry_after by (eapply ascending_below; exact Ha). simpl. rewrite Z.eqb_refl.
  rewrite set_entry_after by (eapply ascending_below; exact Ha). simpl. rewrite Z.eqb_refl.
  rewrite set_listeners_twice.
  destruct (positive opt_limit); simpl.
  - change (try_catch (apply_handler eventName (Num n) callback ready) defer_throw)
      with (serve eventName ready (Num n, l)).
    rewrite serve_frame. reflexivity.
  - reflexivity.
Qed.

(** X18.  Ready replay in the class: subscribing to ["ready"] after the
    widget's [onReady] calls the handler at once with the stored
    arguments when the limit allows one call, takes that call off the
    limit, defers what the handler throws, and returns the handle. *)
Lemma ready_replay (callback : fn) (opt_limit : budget) (s : yta) (n : Z)
    (ready : list value) :
  nextId (listeners_for "ready" s) = Some (Num n) ->
  ascending 0 n (entries (listeners_for "ready" s)) ->
  _readyArguments s = Some ready -> positive opt_limit = true ->
  let s' := fst (on "ready" (VFunction callback) opt_limit s) in
  snd (on "ready" (VFunction callback) opt_limit s)
    = Ok (VString ("ready:" +:+ js_number_to_string (Num n)))
  /\ invoked s' = invoked s ++ [{| served_event := "ready"; served_id := Num n;
                                   callee := callback; passed := ready |}]
  /\ timers s' = timers s ++ match fn_throws (history (invoked s)) callback ready with
                             | Some x => [x]
                             | None => []
                             end
  /\ (_listenersByName s' !! "ready") ≫= (fun ls => entry (Num n) (entries ls))
     = Some {| handler := VFunction callback; limit := decrement opt_limit |}.
Proof.
  intros Hn Ha Hready Hpos s'. subst s'.
  rewrite (on_spec "ready" (VFunction callback) opt_limit s n Hn Ha).
  unfold replays. rewrite Hready, Hpos. simpl.
  repeat split.
  - unfold serve, try_catch, apply_handler, defer_throw, modify. simpl.
    now destruct (fn_throws _ _ _).
  - unfold serve, try_catch, apply_handler, defer_throw, modify. simpl.
    destruct (fn_throws _ _ _); simpl; now rewrite ?app_nil_r.
  - rewrite lookup_insert_eq. simpl.
    rewrite entry_after by (eapply ascending_below; exact Ha). simpl.
    now rewrite Z.eqb_refl.
Qed.

(** *** The budget of a listener *)

Lemma entry_none_above (z hi : Z) (es : list (jsnum * listener)) :
  ascending z hi es -> entry (Num z) es = None.
Proof.
  intros Ha. apply ascending_above in Ha.
  induction Ha as [|[k l] es (y & Hk & Hy) _ IH]; simpl in *; [reflexivity|].
  subst k. simpl. destruct (Z.eqb_spec y z); [lia|]. exact IH.
Qed.

Lemma ascending_after_dispatch (lo hi : Z) (es : list (jsnum * listener)) :
  ascending lo hi es -> ascending lo hi (after_dispatch es).
Proof.
  revert lo. induction es as [|[[z|] l] es IH]; intros lo.
  - intros _. exact I.
  - intros (H1 & H2 & H3). rewrite after_dispatch_cons. cbn [fst snd].
    destruct (positive (limit l)).
    + simpl. auto.
    + apply (ascending_weaken z); [lia|]. auto.
  - intros [].
Qed.

Lemma entry_after_dispatch (lo hi : Z) (es : list (jsnum * listener)) (k : jsnum) :
  ascending lo hi es ->
  entry k (after_dispatch es) =
  match entry k es with
  | Some l =>
      if positive (limit l)
      then Some {| handler := handler l; limit := decrement (limit l) |}
      else None
  | None => None
  end.
Proof.
  revert lo. induction es as [|[[z|] l] es IH]; intros lo;
    [reflexivity| |intros []].
  intros (H1 & H2 & H3). rewrite after_dispatch_cons. cbn [fst snd entry].
  destruct (jsnum_eqb (Num z) k) eqn:E.
  - apply jsnum_eqb_eq in E. subst k. destruct (positive (limit l)).
    + cbn [entry jsnum_eqb]. now rewrite Z.eqb_refl.
    + rewrite (IH z H3), (entry_none_above z hi es H3). reflexivity.
  - destruct (positive (limit l)).
    + cbn [entry]. rewrite E. now apply (IH z).
    + now apply (IH z).
Qed.

Lemma calls_of_app (e : string) (k : jsnum) (a b : list invocation) :
  calls_of e k (a ++ b) = (calls_of e k a + calls_of e k b)%nat.
Proof. unfold calls_of. now rewrite List.filter_app, length_app. Qed.

Lemma calls_of_dispatch (e : string) (args : list value) (k : jsnum) (lo hi : Z)
    (es : list (jsnum * listener)) :
  ascending lo hi es ->
  (calls_of e k (flat_map (invocation_of e args) (live es))
   <= match entry k es with
      | Some l => if positive (limit l) then 1 else 0
      | None => 0
      end)%nat.
Proof.
  revert lo. induction es as [|[[z|] l] es IH]; intros lo;
    [intros _; unfold calls_of; simpl; lia| |intros []].
  intros (H1 & H2 & H3). unfold live. cbn [List.filter snd entry]. fold (live es).
  specialize (IH z H3).
  destruct (jsnum_eqb (Num z) k) eqn:E.
  - apply jsnum_eqb_eq in E. subst k.
    rewrite (entry_none_above z hi es H3) in IH.
    destruct (positive (limit l)); [|lia].
    cbn [flat_map]. rewrite calls_of_app.
    assert (calls_of e (Num z) (invocation_of e args (Num z, l)) <= 1)%nat.
    { unfold invocation_of, calls_of. destruct (handler _); simpl; try lia.
      destruct (_ && _); simpl; lia. }
    lia.
  - destruct (positive (limit l)); [|exact IH].
    cbn [flat_map]. rewrite calls_of_app.
    assert (calls_of e k (invocation_of e args (Num z, l)) = 0)%nat.
    { unfold invocation_of, calls_of. destruct (handler _); simpl; try reflexivity.
      simpl in E. rewrite E, andb_false_r. reflexivity. }
    lia.
Qed.



Lemma plain_split (e : string) :
  Lifetime.plain e = true -> colon_free e = true /\ inherited e = false.
Proof.
  unfold Lifetime.plain. intros Hp. apply andb_true_iff in Hp as [Hc Hi].
  split; [exact Hc|]. now apply negb_true_iff.
Qed.

(** A limit above 0 allows one call more than what is left of it after
    a call; a limit that is not above 0 allows none, before and after
    [limit--]. *)
Lemma capacity_positive (b : budget) (c : nat) :
  positive b = true -> Lifetime.capacity b = Some c ->
  exists c', c = S c' /\ Lifetime.capacity (decrement b) = Some c'.
Proof.
  destruct b as [N| |below| |]; simpl; intros Hp [= <-]; try discriminate.
  - apply Z.ltb_lt in Hp. exists (Z.to_nat (N - 1)). split; [lia|reflexivity].
  - apply Z.leb_le in Hp. exists (Z.to_nat (below - 1 + 1)). split; [lia|reflexivity].
Qed.

Lemma capacity_spent (b : budget) :
  positive b = false -> Lifetime.capacity b = Some 0%nat /\ Lifetime.capacity (decrement b) = Some 0%nat.
Proof.
  destruct b as [N| |below| |]; simpl; intros Hp; try discriminate; auto.
  - apply Z.ltb_ge in Hp. split; f_equal; lia.
  - apply Z.leb_gt in Hp. split; f_equal; lia.
Qed.




End Dispatch.

(** ** The facade's surface outside the guards *)

Section FacadeSurface.
Import Facade.
Context {W : Type} `{Host W}.

Ltac run := unfold bind, get, modify, ret, throw, try_catch in *; simpl in *.

Lemma guards_after_call (key : string) (args : list value) (s : session W) :
  guards (fst (call key args s)) ⊆ guards s.
Proof.
  destruct (decide (key ∈ guards s)) as [Hin|Hin].
  - rewrite call_guarded by assumption. unfold guard. unfold bind at 1, get.
    destruct (_isReady s).
    + unfold bind at 1, modify.
      match goal with |- context [call_member key args ?s0] =>
        destruct (call_member_framed key args (guards s0) s0) as (_ & -> & _) end.
      simpl. apply subseteq_difference_l. reflexivity.
    + destruct (truthy _); simpl; reflexivity.
  - rewrite call_unguarded by assumption.
    destruct (call_member_framed key args (guards s) s) as (_ & -> & _). reflexivity.
Qed.

Lemma reachable_guards (o : options) (s : session W) :
  reachable o s -> guards s ⊆ list_to_set guarded_keys.
Proof.
  induction 1 as [|s Hs IH|s event Hs IH|s name event Hs IH|s key args Hs IH].
  - reflexivity.
  - destruct (addAudio_frame o s) as (-> & _). exact IH.
  - cbv [player_onReady bind modify].
    destruct (triggerHandlers_frame "ready" event (with_isReady true s)) as (-> & _).
    exact IH.
  - destruct (triggerHandlers_frame name event s) as (-> & _). exact IH.
  - etransitivity; [apply guards_after_call|exact IH].
Qed.

Lemma exempt_not_guarded (key : string) :
  exempt key = true -> key ∉ (list_to_set (@guarded_keys W _) : gset string).
Proof.
  intros He Hin. apply elem_of_list_to_set, list_elem_of_In in Hin.
  unfold guarded_keys in Hin. apply in_map_iff in Hin as ([k v] & <- & Hf).
  apply filter_In in Hf as [_ Hf]. simpl in *. now rewrite He in Hf.
Qed.

Lemma call_exempt (o : options) (s : session W) (key : string) (args : list value) :
  reachable o s -> exempt key = true -> call key args s = call_member key args s.
Proof.
  intros Hreach He. apply call_unguarded. intros Hin.
  apply (exempt_not_guarded key He). now apply (reachable_guards o s Hreach).
Qed.


(** X2.  The subscription methods are never behind a guard: at any time
    in the life of an instance, ready or not, [onPlaying], [onPause],
    [onStart], [onEnd] and [onStateChange] append the callback to the
    list of their event and return [undefined]; the next dispatch of
    that event calls the subscribers in the order they subscribed, the
    new one last. *)
Theorem subscriptions_not_gated (o : options) (s : session W) (key name : string)
    (cb event : value) :
  reachable o s ->
  In (key, name) [("onPlaying", "playing"); ("onPause", "pause"); ("onStart", "start");
                  ("onEnd", "end"); ("onStateChange", "stateChange")] ->
  let before := default [] (_callbacks s !! callbacks_key name) in
  let s' := with_callbacks (<[callbacks_key name := before ++ [cb]]> (_callbacks s)) s in
  call key [cb] s = (s', Ok VUndefined)
  /\ snd (triggerHandlers name event s') = Ok tt
  /\ invoked (fst (triggerHandlers name event s'))
     = invoked s ++ flat_map (call_of event) (before ++ [cb])
  /\ timers (fst (triggerHandlers name event s'))
     = timers s ++ thrown event (invoked s) (before ++ [cb]).
Proof.
  intros Hreach Hin before s'.
  assert (Hcall : call key [cb] s = push_callback name [cb] s).
  { simpl in Hin.
    destruct Hin as [E|[E|[E|[E|[E|[]]]]]]; injection E as <- <-;
      rewrite (call_exempt o) by (assumption || reflexivity); reflexivity. }
  split; [rewrite Hcall; reflexivity|].
  destruct (triggerHandlers_in_order name event s') as (E1 & E2 & E3).
  subst s'. simpl in E2, E3. rewrite lookup_insert_eq in E2, E3. simpl in E2, E3.
  auto.
Qed.

(** X3.  [onReady] before the widget is ready keeps the callback and
    answers [false] without calling it; when the widget fires its
    [onReady], every callback kept so far is called once with the
    widget's event, in the order of subscription, and the instance is
    ready. *)
Theorem ready_subscribers_served (o : options) (cbs : list value) (event : value)
    (s : session W) :
  reachable o s -> _isReady s = false ->
  let early := map (fun cb => ("onReady", [cb])) cbs in
  let s1 := fst (run_calls early s) in
  let s2 := fst (player_onReady event s1) in
  let kept := default [] (_callbacks s !! "_readyCallbacks") in
  snd (run_calls early s) = map (fun _ => Ok (VBool false)) cbs
  /\ invoked s1 = invoked s
  /\ _isReady s2 = true
  /\ invoked s2 = invoked s ++ flat_map (call_of event) (kept ++ cbs)
  /\ timers s2 = timers s ++ thrown event (invoked s) (kept ++ cbs).
Proof.
  intros Hreach Hr early s1 s2 kept.
  assert (Hrun : forall cbs s, reachable o s -> _isReady s = false ->
            run_calls (map (fun cb => ("onReady", [cb])) cbs) s =
            (with_callbacks
               (match cbs with
                | [] => _callbacks s
                | _ => <["_readyCallbacks" :=
                          default [] (_callbacks s !! "_readyCallbacks") ++ cbs]>
                         (_callbacks s)
                end) s,
             map (fun _ => Ok (VBool false)) cbs)).
  { clear. intros cbs. induction cbs as [|cb cbs IH]; intros s Hreach Hr.
    - simpl. now destruct s.
    - cbn [map run_calls].
      assert (Hc : call "onReady" [cb] s =
                   (with_callbacks
                      (<["_readyCallbacks" :=
                          default [] (_callbacks s !! "_readyCallbacks") ++ [cb]]>
                         (_callbacks s)) s,
                    Ok (VBool false))).
      { rewrite (call_exempt o) by (assumption || reflexivity).
        unfold call_member. simpl. unfold onReady, push_callback. run.
        rewrite Hr. reflexivity. }
      pose proof (reach_call o s "onReady" [cb] Hreach) as Hreach'.
      rewrite Hc in *. cbn [fst] in Hreach'.
      rewrite (IH _ Hreach' Hr). simpl. f_equal.
      destruct cbs as [|cb' cbs]; [reflexivity|].
      rewrite lookup_insert_eq, insert_insert_eq. simpl.
      now rewrite <- app_assoc. }
  subst s2 s1 early. rewrite (Hrun cbs s Hreach Hr). cbn [fst snd].
  split; [reflexivity|]. split; [reflexivity|].
  cbv [player_onReady]. unfold bind at 1 2 3, modify.
  match goal with |- context [triggerHandlers "ready" event ?s0] =>
    destruct (triggerHandlers_frame "ready" event s0) as (_ & E & _);
    destruct (triggerHandlers_in_order "ready" event s0) as (_ & E2 & E3) end.
  split; [rewrite E; reflexivity|].
  rewrite E2, E3. simpl. fold kept.
  destruct cbs as [|cb cbs].
  - rewrite app_nil_r. auto.
  - rewrite lookup_insert_eq. auto.
Qed.

(** X4.  [init] can be called once: on an instance, at any time of its
    life, [init] throws the error saying it was already called and
    leaves the instance as it is. *)
Theorem init_only_once (o : options) (s : session W) (args : list value) :
  reachable o s ->
  call "init" args s =
    (s, Throw (VError "This object's init() function was already called.")).
Proof.
  intros Hreach. rewrite (call_exempt o) by (assumption || reflexivity). reflexivity.
Qed.

(** X5.  [getVideoId] is never behind a guard: before [addAudio] has
    given the instance its video ids it throws a TypeError (not the
    guard's error); afterwards it answers the entry at the current
    index, [undefined] when the index is outside the list; it changes
    nothing. *)
Theorem getVideoId_not_gated (o : options) (s : session W) (args : list value) :
  reachable o s ->
  call "getVideoId" args s =
    (s, match _videoIds s with
        | None => Throw VTypeError
        | Some a => Ok (element (default [] (heap s !! a)) (_index s))
        end).
Proof.
  intros Hreach. rewrite (call_exempt o) by (assumption || reflexivity).
  unfold call_member. simpl. unfold getVideoId, deref. run.
  now destruct (_videoIds s).
Qed.

End FacadeSurface.

(** ** The methods that address the widget *)

Section FacadeForwarding.
Import Facade.
Context {W : Type} `{Host W}.

Ltac run := unfold bind, get, modify, ret, throw, try_catch in *; simpl in *.

Lemma with_guards_player (g : gset string) (w : option W) (s : session W) :
  with_guards g (with_player w s) = with_player w (with_guards g s).
Proof. reflexivity. Qed.

(** X6.  Once the instance is ready, each method the [mapping] table
    generates makes one call to the widget, the method the table names
    with the caller's arguments, and returns the widget's answer when
    the table's value is [1] and [undefined] otherwise ([play], [stop]
    and [pause], given by a name, return nothing); [getVideoUrl] is the
    generated forwarder, not the literal's.  [setVolume], which the
    table does not generate, asks the widget for its volume, sets the
    new one and returns the volume it had. *)
Theorem mapped_methods_forward (s : session W) (w : W) (key target : string)
    (returns : bool) (args : list value) :
  In (key, target, returns)
    [("play", "playVideo", false); ("stop", "stopVideo", false);
     ("pause", "pauseVideo", false); ("getCurrentTime", "getCurrentTime", true);
     ("getVolume", "getVolume", true); ("unMute", "unMute", false);
     ("mute", "mute", false); ("seekTo", "seekTo", false);
     ("getVideoUrl", "getVideoUrl", true); ("getVideoData", "getVideoData", true);
     ("getDuration", "getDuration", true); ("isMuted", "isMuted", true)] ->
  _isReady s = true -> _player s = Some w ->
  call key args s =
    (with_guards (guards s ∖ {[key]})
       (with_player (Some (fst (player_call target args w))) s),
     Ok (if returns then snd (player_call target args w) else VUndefined))
  /\ call "setVolume" args s =
       (with_guards (guards s ∖ {["setVolume"]})
          (with_player
             (Some (fst (player_call "setVolume" [arg 0 args]
                           (fst (player_call "getVolume" [] w))))) s),
        Ok (snd (player_call "getVolume" [] w))).
Proof.
  intros Hin Hr Hp. split.
  - rewrite call_ready_spec by assumption.
    assert (Hm : call_member key args = forward returns target args).
    { simpl in Hin.
      repeat (destruct Hin as [E|Hin]; [injection E as <- <- <-; reflexivity|]).
      destruct Hin. }
    rewrite Hm. unfold forward, player. run. rewrite Hp.
    destruct (player_call target args w) as [w' v]. reflexivity.
  - rewrite call_ready_spec by assumption.
    change (call_member "setVolume" args) with (setVolume args).
    unfold setVolume, player. run. rewrite Hp.
    destruct (player_call "getVolume" [] w) as [w1 v1]. simpl.
    destruct (player_call "setVolume" [arg 0 args] w1) as [w2 v2]. reflexivity.
Qed.

(** The table of state names gives back the name of a code. *)
Lemma find_state_name (l : list (string * Z)) (name : string) (code : Z) :
  List.NoDup (map snd l) -> In (name, code) l ->
  find (fun e => String.eqb (js_number_to_string (Num (snd e)))
                   (js_number_to_string (Num code))) l
  = Some (name, code).
Proof.
  induction l as [|[n c] l IH]; cbn [find map snd In]; [intros _ []|].
  intros Hnd [E|Hin].
  - injection E as -> ->. now rewrite String.eqb_refl.
  - apply List.NoDup_cons_iff in Hnd as [Hc Hnd].
    rewrite string_eqb_number. cbn [Registry.jsnum_eqb].
    destruct (Z.eqb_spec c code) as [->|_].
    + exfalso. apply Hc. apply in_map_iff. now exists (name, code).
    + now apply IH.
Qed.

Lemma find_state_none (l : list (string * Z)) (code : Z) :
  (forall name, ~ In (name, code) l) ->
  find (fun e => String.eqb (js_number_to_string (Num (snd e)))
                   (js_number_to_string (Num code))) l
  = None.
Proof.
  induction l as [|[n c] l IH]; cbn [find snd]; [reflexivity|].
  intros Hno. rewrite string_eqb_number. cbn [Registry.jsnum_eqb].
  destruct (Z.eqb_spec c code) as [->|_].
  - exfalso. apply (Hno n). now left.
  - apply IH. intros name Hin. apply (Hno name). now right.
Qed.

(** X7.  State names: when the widget reports a code of its enumeration
    (the codes there being distinct), [getStateName] answers the name
    that has this code and [is<State>] answers [true] for that name and
    [false] for every other; for a code outside the enumeration
    [getStateName] answers [undefined] and every [is<State>] [false]. *)
Theorem state_name_translation (s : session W) (w : W) (code : Z) :
  _player s = Some w ->
  snd (player_call "getPlayerState" [] w) = VNumber (Num code) ->
  (forall name,
      List.NoDup (map snd PlayerState) -> In (name, code) PlayerState ->
      snd (getStateName [] s) = Ok (VString name)
      /\ forall m, snd (is_state m [] s) = Ok (VBool (String.eqb name m)))
  /\ ((forall name, ~ In (name, code) PlayerState) ->
      snd (getStateName [] s) = Ok VUndefined
      /\ forall m, snd (is_state m [] s) = Ok (VBool false)).
Proof.
  intros Hp Hc.
  assert (Hn : forall m, snd (getStateName [] s) = Ok (PLAYER_STATES_TO_NAMES (VNumber (Num code)))
               /\ snd (is_state m [] s)
                  = Ok (VBool (strict_equal_string
                                 (PLAYER_STATES_TO_NAMES (VNumber (Num code))) m))).
  { intros m. unfold getStateName, is_state, player. run. rewrite Hp.
    destruct (player_call "getPlayerState" [] w) as [w' v]. simpl in *. now subst v. }
  split.
  - intros name Hnd Hin.
    assert (E : PLAYER_STATES_TO_NAMES (VNumber (Num code)) = VString name).
    { unfold PLAYER_STATES_TO_NAMES. cbn [property_key].
      rewrite (find_state_name (rev PlayerState) name code); [reflexivity| |].
      - rewrite map_rev. now apply List.NoDup_rev.
      - now apply in_rev in Hin. }
    split; [now rewrite (proj1 (Hn "")), E|].
    intros m. now rewrite (proj2 (Hn m)), E.
  - intros Hno.
    assert (E : PLAYER_STATES_TO_NAMES (VNumber (Num code)) = VUndefined).
    { unfold PLAYER_STATES_TO_NAMES. cbn [property_key].
      rewrite (find_state_none (rev PlayerState) code); [reflexivity|].
      intros name Hin. apply (Hno name). now apply in_rev. }
    split; [now rewrite (proj1 (Hn "")), E|].
    intros m. now rewrite (proj2 (Hn m)), E.
Qed.

End FacadeForwarding.

(** ** The playlist and the index *)

Section FacadePlaylist.
Import Facade Playlist.
Context {W : Type} `{Host W}.

Ltac run := unfold bind, get, modify, ret, throw, try_catch in *; simpl in *.

Ltac break_match :=
  match goal with
  | |- context [match ?x with _ => _ end] =>
      lazymatch x with
      | context [match _ with _ => _ end] => fail
      | _ => destruct x eqn:?
      end
  end.

Lemma prototype_keeps_lost :
  Forall (fun e => match snd e with
                   | Method m => forall args s, lost s -> lost (fst (m args s))
                   | Data _ => True
                   end) (@prototype W _).
Proof.
  unfold prototype, literal, mapping, state_predicates. simpl.
  repeat (apply List.Forall_cons; [simpl; try exact I|]).
  all: try apply List.Forall_nil.
  all: intros args s [Hi Hv];
    unfold getVideoIds, getVideoUrls, getVideoId, setSources, getStateName,
      playNext, playPrevious, restart, setVolume, push_callback, onReady,
      already_called, forward, is_state, getIsReady, setLoop, getLoop,
      getAutoPlay, step_index, load_current, getVideoId, deref, alloc, player,
      invoke, arg, lost; run;
    repeat (break_match; simpl in *; try congruence);
    rewrite ?Hi; unfold mod'; simpl; split; congruence.
Qed.

Lemma call_keeps_lost (key : string) (args : list value) (s : session W) :
  lost s -> lost (fst (call key args s)).
Proof.
  intros Hl.
  assert (Hm : forall s0, lost s0 -> lost (fst (call_member key args s0))).
  { intros s0 Hl0. unfold call_member.
    destruct (lookup_member key prototype) as [[v|m]|] eqn:Hk; [exact Hl0| |exact Hl0].
    apply lookup_member_In in Hk. pose proof prototype_keeps_lost as Hall.
    rewrite List.Forall_forall in Hall. apply (Hall _ Hk args s0 Hl0). }
  destruct (decide (key ∈ guards s)) as [Hin|Hin].
  - rewrite call_guarded by assumption. unfold guard. unfold bind at 1, get.
    destruct (_isReady s).
    + unfold bind at 1, modify. apply Hm. exact Hl.
    + destruct (truthy _); exact Hl.
  - rewrite call_unguarded by assumption. now apply Hm.
Qed.

Lemma run_calls_keep_lost (cs : list (string * list value)) (s : session W) :
  lost s -> lost (fst (run_calls cs s)).
Proof.
  revert s. induction cs as [|[key args] cs IH]; intros s Hl; [exact Hl|].
  cbn [run_calls]. pose proof (call_keeps_lost key args s Hl) as Hc.
  destruct (call key args s) as [s1 r1]. specialize (IH s1 Hc).
  destruct (run_calls cs s1) as [s2 rs]. exact IH.
Qed.

Lemma run_calls_ready (cs : list (string * list value)) (s : session W) :
  _isReady s = true -> _isReady (fst (run_calls cs s)) = true.
Proof.
  revert s. induction cs as [|[key args] cs IH]; intros s Hr; [exact Hr|].
  cbn [run_calls]. destruct (call_frame_ready key args s Hr) as [Hr' _].
  destruct (call key args s) as [s1 r1]. specialize (IH s1 Hr').
  destruct (run_calls cs s1) as [s2 rs]. exact IH.
Qed.

(** X8.  On an empty list of ids [playNext] and [playPrevious] leave
    the index [NaN] (the remainder by the length [0]), and nothing the
    facade offers brings it back: after any further calls, [setSources]
    with new ids among them, the index is [NaN] and [getVideoId]
    answers [undefined]. *)
Theorem empty_playlist_loses_index (s : session W) (a : loc) (key : string)
    (args : list value) (cs : list (string * list value)) :
  _isReady s = true -> _videoIds s = Some a -> heap s !! a = Some [] ->
  key = "playNext" \/ key = "playPrevious" ->
  let s' := fst (run_calls ((key, args) :: cs) s) in
  _index s' = NaN /\ snd (call "getVideoId" [] s') = Ok VUndefined.
Proof.
  intros Hr Hv Hh Hk s'.
  assert (Hstep : forall d, step_index d s = (with_index NaN s, Ok tt)).
  { intros d. unfold step_index, deref. run. rewrite Hv, Hh. simpl.
    unfold mod'. now destruct (_index s). }
  assert (Hload : forall s0 : session W,
            _videoIds (fst (load_current s0)) = _videoIds s0).
  { intros s0. unfold load_current, getVideoId, deref, player. run.
    destruct (_player s0) as [w|] eqn:Hp; [|reflexivity].
    destruct (_videoIds s0) eqn:E; simpl; [|exact E].
    rewrite Hp. destruct (player_call _ _ w). exact E. }
  assert (Hfirst : lost (fst (call key args s))).
  { rewrite call_ready_spec by assumption.
    assert (Hm : lost (fst (call_member key args s))).
    { destruct Hk as [-> | ->].
      - change (call_member "playNext" args) with (playNext args).
        unfold playNext, bind. rewrite Hstep. unfold lost.
        rewrite load_current_index, Hload. simpl. split; congruence.
      - change (call_member "playPrevious" args) with (playPrevious args).
        unfold playPrevious, bind. rewrite Hstep. unfold lost.
        rewrite load_current_index, Hload. simpl. split; congruence. }
    exact Hm. }
  assert (Hl : lost s').
  { subst s'. cbn [run_calls].
    destruct (call_frame_ready key args s Hr) as [Hr' _].
    destruct (call key args s) as [s1 r1].
    pose proof (run_calls_keep_lost cs s1 Hfirst) as Hc.
    destruct (run_calls cs s1) as [s2 rs]. exact Hc. }
  assert (Hr' : _isReady s' = true) by (apply run_calls_ready; exact Hr).
  destruct Hl as [Hi Hv']. split; [exact Hi|].
  rewrite call_ready_spec by assumption.
  change (call_member "getVideoId" []) with (getVideoId (W:=W) []).
  unfold getVideoId, deref. run.
  destruct (_videoIds s') eqn:E; [|congruence]. simpl. now rewrite Hi.
Qed.

(** The facade's parser gives back the id of the URL the facade builds
    for it. *)
Lemma facade_parse_own_url (id : string) :
  id <> "" -> Shapes.bare id = true ->
  ParseVideoId.facade_parse (getUrlFromVideoId id) = id.
Proof.
  intros Hne Hb.
  assert (E : id +:+ "" = id).
  { clear. induction id as [|c id IH]; [reflexivity|].
    change (String c (id +:+ "") = String c id). now rewrite IH. }
  pose proof (facade_parse_short "https" id "" "."%char) as P. rewrite E in P.
  apply P; [|reflexivity|reflexivity|exact Hne|exact Hb|exact I].
  unfold Shapes.has_watch_shape. simpl.
  apply (bare_has_no_shape (list_ascii_of_string id)). exact Hb.
Qed.

Lemma setSources_spec (s : session W) (b : loc) (zs : list string) :
  heap s !! b = Some zs ->
  setSources [VArray b] s =
    (with_videoIds (Some (length (heap s)))
       (with_heap (heap s ++ [map ParseVideoId.facade_parse zs]) s),
     Ok (match _videoIds s with Some o => VArray o | None => VNull end)).
Proof.
  intros Hb. unfold setSources, alloc, arg. run. now rewrite Hb.
Qed.

(** X9.  The ids and the URLs the facade hands out are the same
    playlist: when every id is a non-empty bare identifier, giving
    [setSources] the array [getVideoUrls] returned leaves the playlist
    as it was. *)
Theorem playlist_url_round_trip (s : session W) (a : loc) (xs : list string) :
  _videoIds s = Some a -> heap s !! a = Some xs ->
  Forall (fun id => id <> "" /\ Shapes.bare id = true) xs ->
  exists l,
    snd (getVideoUrls [] s) = Ok (VArray l)
    /\ heap (fst (getVideoUrls [] s)) !! l = Some (map getUrlFromVideoId xs)
    /\ snd (setSources [VArray l] (fst (getVideoUrls [] s))) = Ok (VArray a)
    /\ playlist (fst (setSources [VArray l] (fst (getVideoUrls [] s)))) = Some xs.
Proof.
  intros Hv Hh Hall. exists (length (heap s)).
  pose proof (lookup_lt_Some _ _ _ Hh) as Hlt.
  assert (Hmap : map ParseVideoId.facade_parse (map getUrlFromVideoId xs) = xs).
  { clear Hh. induction Hall as [|id xs [Hne Hb] _ IH]; simpl; [reflexivity|].
    now rewrite facade_parse_own_url, IH. }
  assert (Hg : getVideoUrls [] s =
               (with_heap (heap s ++ [map getUrlFromVideoId xs]) s,
                Ok (VArray (length (heap s))))).
  { unfold getVideoUrls, deref, alloc. run. now rewrite Hv, Hh. }
  rewrite Hg. cbn [fst snd].
  assert (Hl : (heap s ++ [map getUrlFromVideoId xs]) !! length (heap s)
               = Some (map getUrlFromVideoId xs))
    by (apply list_lookup_middle; reflexivity).
  rewrite (setSources_spec (with_heap (heap s ++ [map getUrlFromVideoId xs]) s)
             (length (heap s)) (map getUrlFromVideoId xs) Hl).
  cbn [fst snd]. rewrite Hmap.
  split; [reflexivity|]. split; [exact Hl|]. split; [simpl; now rewrite Hv|].
  unfold playlist. simpl. apply list_lookup_middle. reflexivity.
Qed.

End FacadePlaylist.

(** ** The widget's state changes *)

Section WidgetFacts.
Import Facade Widget.
Context {W : Type} `{Host W}.
Variable video_id : value -> value.

Ltac run := unfold bind, get, modify, ret, throw, try_catch in *; simpl in *.

Lemma triggerHandlers_spec (name : string) (event : value) (s : session W) :
  triggerHandlers name event s =
  (with_timers (timers s ++ thrown event (invoked s) (subscribers name s))
     (with_invoked (invoked s ++ calls name event s)
        (with_callbacks (<[callbacks_key name := subscribers name s]> (_callbacks s)) s)),
   Ok tt).
Proof.
  unfold triggerHandlers, bind, get, modify, calls, subscribers.
  now rewrite handlers_spec.
Qed.

Lemma subscribers_after_trigger (name name' : string) (event : value) (s : session W) :
  subscribers name' (fst (triggerHandlers name event s)) = subscribers name' s.
Proof.
  rewrite triggerHandlers_spec. unfold subscribers. simpl.
  destruct (decide (callbacks_key name = callbacks_key name')) as [E|E].
  - rewrite E, lookup_insert_eq. reflexivity.
  - now rewrite lookup_insert_ne.
Qed.


Lemma lift_trigger (name : string) (event : value) (c : closure W) :
  lift (triggerHandlers name event) c =
  ({| yta := fst (triggerHandlers name event (yta c));
      currentVideoId := currentVideoId c |}, Ok tt).
Proof. unfold lift. now rewrite triggerHandlers_spec. Qed.

Lemma invoked_after_trigger (name : string) (event : value) (s : session W) :
  invoked (fst (triggerHandlers name event s)) = invoked s ++ calls name event s.
Proof. now rewrite triggerHandlers_spec. Qed.

(** What a dispatch leaves alone. *)
Lemma trigger_keeps (name : string) (event : value) (s : session W) :
  let s' := fst (triggerHandlers name event s) in
  _player s' = _player s /\ _index s' = _index s /\ _videoIds s' = _videoIds s
  /\ heap s' = heap s /\ _loop s' = _loop s /\ _isReady s' = _isReady s
  /\ guards s' = guards s /\ opts s' = opts s /\ console s' = console s.
Proof. rewrite triggerHandlers_spec. simpl. repeat split. Qed.








(** X13.  [ENDED] with the loop flag on, reported before the instance
    is ready: the [end] subscribers are called and [playNext] meets its
    guard.  By default the guard's error leaves the handler and the
    [stateChange] subscribers are not called; with [logEarlyCalls] the
    message is logged and the [stateChange] subscribers are called.  In
    both cases the index stays where it was. *)
Theorem ended_before_ready (o : options) (c : closure W) (event : value)
    (data : jsnum) :
  let s := yta c in
  reachable o s -> _isReady s = false ->
  is_state_code "PLAYING" data = false -> is_state_code "PAUSED" data = false ->
  is_state_code "ENDED" data = true -> truthy (_loop s) = true ->
  let r := onStateChange video_id event data c in
  let message := "The playNext() function cannot be called yet." in
  _index (yta (fst r)) = _index s
  /\ (truthy (logEarlyCalls o) = false ->
      snd r = Throw (VError message)
      /\ invoked (yta (fst r)) = invoked s ++ calls "end" event s)
  /\ (truthy (logEarlyCalls o) = true ->
      snd r = Ok tt
      /\ console (yta (fst r)) = console s ++ [message]
      /\ invoked (yta (fst r))
         = invoked s ++ calls "end" event s ++ calls "stateChange" event s).
Proof.
  intros s Hreach Hr Hc1 Hc2 Hc3 Hl r message.
  set (s1 := fst (triggerHandlers "end" event s)).
  destruct (trigger_keeps "end" event s) as (_ & Ei & _ & _ & El & Er & Eg & Eo & Ec).
  fold s1 in Ei, El, Er, Eg, Eo, Ec.
  destruct (reachable_gated o s Hreach) as [Ho Hg].
  assert (Hin : "playNext" ∈ guards s1).
  { rewrite Eg, (Hg Hr). now apply (guarded_key_installed "playNext" playNext). }
  assert (Hcall : call "playNext" [] s1 =
                  if truthy (logEarlyCalls o)
                  then (with_console (console s1 ++ [message]) s1, Ok VUndefined)
                  else (s1, Throw (VError message))).
  { rewrite call_guarded by assumption. unfold guard. run.
    rewrite Er, Hr, Eo, Ho. now destruct (truthy (logEarlyCalls o)). }
  assert (Hrun : r =
            if truthy (logEarlyCalls o)
            then ({| yta := fst (triggerHandlers "stateChange" event
                                   (with_console (console s1 ++ [message]) s1));
                     currentVideoId := currentVideoId c |}, Ok tt)
            else ({| yta := s1; currentVideoId := currentVideoId c |},
                  Throw (VError message))).
  { subst r. unfold onStateChange. rewrite Hc1, Hc2, Hc3.
    unfold bind at 1 2. rewrite lift_trigger. unfold bind at 1, get. cbn [yta].
    fold s. fold s1. rewrite El, Hl.
    unfold bind at 1. unfold lift at 1. cbn [yta]. rewrite Hcall.
    destruct (truthy (logEarlyCalls o)); [|reflexivity].
    unfold ret. now rewrite lift_trigger. }
  rewrite Hrun. destruct (truthy (logEarlyCalls o)); cbn [fst snd yta].
  - match goal with |- context [triggerHandlers "stateChange" event ?s0] =>
      set (s2 := s0);
      destruct (trigger_keeps "stateChange" event s2) as (_ & Ei2 & _ & _ & _ & _ & _ & _ & Ec2)
    end.
    split; [rewrite Ei2; subst s2; simpl; exact Ei|].
    split; [discriminate|]. intros _. split; [reflexivity|].
    split; [rewrite Ec2; subst s2; simpl; now rewrite Ec|].
    rewrite invoked_after_trigger. unfold calls at 1.
    assert (Hs : subscribers "stateChange" s2 = subscribers "stateChange" s)
      by apply (subscribers_after_trigger "end").
    rewrite Hs. subst s2. cbn [invoked with_console]. subst s1.
    rewrite invoked_after_trigger. now rewrite <- app_assoc.
  - split; [exact Ei|]. split; [|discriminate]. intros _. split; [reflexivity|].
    apply invoked_after_trigger.
Qed.

End WidgetFacts.

(** *** Runs *)

Section SurfaceRuns.
Import Facade Example Scenarios.

(** X2 on [onEnd], before the widget is ready. *)
Lemma subscriptions_not_gated_witness :
  snd (call "onEnd" [VFunction late_subscriber] loaded) = Ok VUndefined
  /\ invoked (fst (triggerHandlers "end" ready_event
                     (fst (call "onEnd" [VFunction late_subscriber] loaded))))
     = [(late_subscriber, [ready_event])].
Proof.
  destruct (subscriptions_not_gated three_sources loaded "onEnd" "end"
              (VFunction late_subscriber) ready_event) as (Hc & _ & Hi & _);
    [apply reach_addAudio, reach_init | simpl; tauto |].
  rewrite Hc. split; [reflexivity | exact Hi].
Defined.

(** X3 on two subscribers. *)
Lemma ready_subscribers_served_witness :
  invoked (fst (player_onReady ready_event
                  (fst (run_calls [("onReady", [VFunction early_subscriber]);
                                   ("onReady", [VFunction late_subscriber])] loaded))))
  = [(early_subscriber, [ready_event]); (late_subscriber, [ready_event])].
Proof.
  destruct (ready_subscribers_served three_sources
              [VFunction early_subscriber; VFunction late_subscriber] ready_event loaded)
    as (_ & _ & _ & Hi & _);
    [apply reach_addAudio, reach_init | reflexivity |].
  exact Hi.
Defined.

(** X4 on the instance after [addAudio]. *)
Lemma init_only_once_witness :
  call "init" [] loaded =
    (loaded, Throw (VError "This object's init() function was already called.")).
Proof. apply (init_only_once three_sources). apply reach_addAudio, reach_init. Defined.

(** X5 on the instance [init] leaves. *)
Lemma getVideoId_not_gated_witness :
  call "getVideoId" [] (init three_sources) = (init three_sources, Throw VTypeError).
Proof. apply (getVideoId_not_gated three_sources). apply reach_init. Defined.

(** X6 on [seekTo]. *)
Lemma mapped_methods_forward_witness :
  snd (call "seekTo" [VNumber (Num 30)] started) = Ok VUndefined
  /\ _player (fst (call "seekTo" [VNumber (Num 30)] started))
     = Some (first_widget ++ [("seekTo", [VNumber (Num 30)])]).
Proof.
  destruct (mapped_methods_forward started first_widget "seekTo" "seekTo" false
              [VNumber (Num 30)]) as [Hc _];
    [simpl; tauto | reflexivity | reflexivity |].
  rewrite Hc. split; reflexivity.
Defined.

(** X7: the recording widget answers [getPlayerState] with the code of
    [PLAYING]. *)
Lemma state_name_translation_witness :
  snd (getStateName [] started) = Ok (VString "PLAYING")
  /\ snd (is_state "PAUSED" [] started) = Ok (VBool false).
Proof.
  destruct (state_name_translation started first_widget 1) as [Hin _];
    [reflexivity | reflexivity |].
  destruct (Hin "PLAYING") as [Hn Hp];
    [repeat constructor; simpl; intuition discriminate | simpl; tauto |].
  split; [exact Hn | exact (Hp "PAUSED")].
Defined.

(** X8 on an instance with no sources. *)
Lemma empty_playlist_loses_index_witness :
  _index (fst (run_calls [("playNext", []); ("setSources", [VArray 0%nat]);
                          ("playPrevious", [])] silent)) = NaN.
Proof.
  destruct (empty_playlist_loses_index silent 0%nat "playNext" []
              [("setSources", [VArray 0%nat]); ("playPrevious", [])]) as [Hi _];
    [reflexivity | reflexivity | reflexivity | left; reflexivity |].
  exact Hi.
Defined.

(** X9 on the three sources. *)
Lemma playlist_url_round_trip_witness :
  exists l, snd (getVideoUrls [] started) = Ok (VArray l)
    /\ playlist (fst (setSources [VArray l] (fst (getVideoUrls [] started))))
       = Some ["a1"; "a2"; "a3"].
Proof.
  destruct (playlist_url_round_trip started 0%nat ["a1"; "a2"; "a3"])
    as (l & Hr & _ & _ & Hp);
    [reflexivity | reflexivity
     | repeat constructor; simpl; discriminate |].
  exists l. split; [exact Hr | exact Hp].
Defined.

End SurfaceRuns.

Section WidgetRuns.
Import Facade Widget Example Scenarios.




(** X13 on the instance after [addAudio], not ready. *)
Lemma ended_before_ready_witness :
  snd (onStateChange no_video_id ready_event (Num 0) before_ready)
  = Throw (VError "The playNext() function cannot be called yet.").
Proof.
  destruct (ended_before_ready no_video_id three_sources before_ready ready_event (Num 0))
    as (_ & Hthrow & _);
    [apply reach_addAudio, reach_init | reflexivity | reflexivity | reflexivity
     | reflexivity | reflexivity |].
  apply Hthrow. reflexivity.
Defined.

End WidgetRuns.

(** ** Subscribing, unsubscribing and being served *)

Section Subscriptions.
Import Registry.
Context {W : Type} `{Host W}.


End Subscriptions.

Section SubscriptionRuns.
Import Registry Example.
Local Open Scope js_scope.



(** X18 on a registry whose widget has reported ready. *)
Lemma ready_replay_witness :
  let s := with_readyArguments (Some [ready_event]) Registry.empty in
  map passed (invoked (fst (on "ready" (VFunction late_subscriber) (Count 1) s)))
  = [[ready_event]].
Proof.
  intros s.
  destruct (ready_replay late_subscriber (Count 1) s 1 [ready_event]) as (_ & Hi & _);
    [reflexivity | exact I | reflexivity | reflexivity |].
  rewrite Hi. reflexivity.
Defined.


End SubscriptionRuns.

(** ** Over the life of a registry *)

Section LifetimeFacts.
Import Registry Lifetime.
Context {W : Type} `{Host W}.

Lemma listeners_for_own (e : string) (s : yta) (ls : listeners) :
  _listenersByName s !! e = Some ls -> listeners_for e s = ls.
Proof. intros Hl. unfold listeners_for. now rewrite (found_own e s ls Hl). Qed.

Lemma listeners_for_new (e : string) (s : yta) :
  inherited e = false -> _listenersByName s !! e = None ->
  listeners_for e s = {| nextId := Some (Num 1); entries := [] |}.
Proof.
  intros Hi Hl. unfold listeners_for. now rewrite (found_not_inherited e s Hi), Hl.
Qed.

Lemma healthy_listeners_for (e : string) (s : yta) :
  inherited e = false -> healthy s ->
  exists n, nextId (listeners_for e s) = Some (Num n) /\ 0 < n
            /\ ascending 0 n (entries (listeners_for e s)).
Proof.
  intros Hi Hh. destruct (_listenersByName s !! e) as [ls|] eqn:Hl.
  - rewrite (listeners_for_own e s ls Hl). exact (Hh e ls Hl).
  - rewrite (listeners_for_new e s Hi Hl). exists 1. simpl. repeat split; lia.
Qed.



(** The registry does not read the ready arguments of the instance. *)
Lemma healthy_ready (r : option (list value)) (s : yta) :
  healthy s -> healthy (with_readyArguments r s).
Proof. intros Hh. exact Hh. Qed.

Lemma accounted_ready (r : option (list value)) (s : yta) :
  accounted s -> accounted (with_readyArguments r s).
Proof. intros Ha. exact Ha. Qed.

Lemma within_budget_ready (e : string) (id : Z) (C : nat) (r : option (list value))
    (s : yta) :
  within_budget e id C s -> within_budget e id C (with_readyArguments r s).
Proof. intros Hb. exact Hb. Qed.

Lemma ascending_delete (lo hi : Z) (k : jsnum) (es : list (jsnum * listener)) :
  ascending lo hi es -> ascending lo hi (delete_entry k es).
Proof.
  revert lo. induction es as [|[[z|] l] es IH]; intros lo; [auto| |intros []].
  intros (H1 & H2 & H3). unfold delete_entry. cbn [List.filter fst].
  destruct (negb (jsnum_eqb (Num z) k)).
  - simpl. repeat split; auto; now apply IH.
  - apply (ascending_weaken z); [lia|]. now apply IH.
Qed.

Lemma entry_app (k : jsnum) (a b : list (jsnum * listener)) :
  entry k (a ++ b) = match entry k a with Some l => Some l | None => entry k b end.
Proof.
  induction a as [|[j l] a IH]; simpl; [reflexivity|].
  now destruct (jsnum_eqb j k).
Qed.

Lemma entry_In (k : jsnum) (l : listener) (es : list (jsnum * listener)) :
  entry k es = Some l -> In (k, l) es.
Proof.
  induction es as [|[j l0] es IH]; simpl; [discriminate|].
  destruct (jsnum_eqb j k) eqn:E.
  - apply jsnum_eqb_eq in E. subst j. intros [= ->]. now left.
  - intros Hk. right. auto.
Qed.

(** The shape of the instance after each operation. *)
Lemma on_shape (e : string) (callback : value) (opt_limit : budget) (s : yta) :
  inherited e = false -> healthy s ->
  exists n l' extra,
    0 < n /\ nextId (listeners_for e s) = Some (Num n)
    /\ ascending 0 n (entries (listeners_for e s))
    /\ snd (on e callback opt_limit s)
       = Ok (VString (e +:+ ":" +:+ js_number_to_string (Num n)))
    /\ _listenersByName (fst (on e callback opt_limit s))
       = <[e := {| nextId := Some (Num (n + 1));
                   entries := entries (listeners_for e s) ++ [(Num n, l')] |}]>
           (_listenersByName s)
    /\ handler l' = callback
    /\ limit l' = (if replays e s then decrement opt_limit else opt_limit)
    /\ invoked (fst (on e callback opt_limit s)) = invoked s ++ extra
    /\ Forall (fun i => served_event i = e /\ served_id i = Num n) extra
    /\ (length extra <= if replays e s && positive opt_limit then 1 else 0)%nat.
Proof.
  intros Hin Hh. destruct (healthy_listeners_for e s Hin Hh) as (n & Hn & Hpos & Ha).
  exists n. rewrite (on_spec e callback opt_limit s n Hn Ha). cbn [fst snd].
  destruct (replays e s); cbn [andb].
  - exists {| handler := callback; limit := decrement opt_limit |}.
    destruct (positive opt_limit).
    + pose proof (serve_all_spec e (default [] (_readyArguments s))
                    [(Num n, {| handler := callback; limit := opt_limit |})] s) as Hs.
      cbn [for_each] in Hs. unfold bind, ret in Hs.
      destruct (serve_registry e (default [] (_readyArguments s))
                  (Num n, {| handler := callback; limit := opt_limit |}) s)
        as (El & _ & E3).
      destruct (serve _ _ _ s) as [s' r']. simpl in E3, El. subst r'.
      injection Hs as ->.
      exists (invocation_of e (default [] (_readyArguments s))
                (Num n, {| handler := callback; limit := opt_limit |})).
      cbn [fst set_listeners with_listenersByName _listenersByName invoked
           with_timers with_invoked flat_map].
      rewrite app_nil_r. repeat split; auto.
      * unfold invocation_of. cbn [handler snd fst].
        destruct callback; repeat constructor.
      * unfold invocation_of. cbn [handler snd fst].
        destruct callback; simpl; lia.
    + exists []. cbn [fst]. rewrite app_nil_r. repeat split; auto.
  - exists {| handler := callback; limit := opt_limit |}, [].
    rewrite app_nil_r. repeat split; auto.
Qed.

Lemma off_shape (e : string) (id : jsnum) (s : yta) :
  colon_free e = true ->
  fst (off (e +:+ ":" +:+ js_number_to_string id) s) = s
  \/ exists ls l,
       _listenersByName s !! e = Some ls /\ entry id (entries ls) = Some l
       /\ fst (off (e +:+ ":" +:+ js_number_to_string id) s)
          = set_listeners e {| nextId := nextId ls;
                               entries := delete_entry id (entries ls) |} s.
Proof.
  intros He. rewrite (off_handle e id s He).
  destruct (_listenersByName s !! e) as [ls|] eqn:Hl; [|now left].
  destruct (entry id (entries ls)) as [l|] eqn:Hk; [|now left].
  right. now exists ls, l.
Qed.

Lemma trigger_shape (e : string) (args : list value) (s : yta) :
  colon_free e = true -> healthy s ->
  (_listenersByName s !! e = None
   /\ trigger e args s = (s, Ok (if inherited e then VThis else VUndefined)))
  \/ exists ls,
       _listenersByName s !! e = Some ls /\ well_numbered ls
       /\ snd (trigger e args s) = Ok VThis
       /\ _listenersByName (fst (trigger e args s))
          = <[e := {| nextId := nextId ls; entries := after_dispatch (entries ls) |}]>
              (_listenersByName s)
       /\ invoked (fst (trigger e args s))
          = invoked s ++ flat_map (invocation_of e args) (live (entries ls)).
Proof.
  intros He Hh. destruct (_listenersByName s !! e) as [ls|] eqn:Hl.
  - right. exists ls. pose proof (Hh e ls Hl) as Hwf.
    rewrite (trigger_spec e args s ls He Hl Hwf), serve_all_spec. cbn [fst snd].
    repeat split; auto.
  - left. split; [reflexivity|]. unfold trigger, bind, get, found. rewrite Hl.
    now destruct (inherited e).
Qed.

Lemma healthy_insert (e : string) (ls : listeners) (s s' : yta) :
  healthy s -> well_numbered ls ->
  _listenersByName s' = <[e := ls]> (_listenersByName s) -> healthy s'.
Proof.
  intros Hh Hwf Hl e' ls' Hl'. rewrite Hl in Hl'.
  destruct (decide (e = e')) as [<-|Hne].
  - rewrite lookup_insert_eq in Hl'. now injection Hl' as <-.
  - rewrite lookup_insert_ne in Hl' by assumption. exact (Hh e' ls' Hl').
Qed.

Lemma trigger_healthy (e : string) (args : list value) (s : yta) :
  colon_free e = true -> healthy s -> healthy (fst (trigger e args s)).
Proof.
  intros He Hh.
  destruct (trigger_shape e args s He Hh) as [[_ ->]|(ls & Hl & Hwf & _ & Hl' & _)];
    [exact Hh|].
  eapply healthy_insert; [exact Hh| |exact Hl'].
  destruct Hwf as (n & Hn & Hpos & Ha).
  exists n. repeat split; auto. now apply ascending_after_dispatch.
Qed.

Lemma step_healthy (o : op) (s : yta) :
  plain (event_of o) = true -> healthy s -> healthy (step s o).
Proof.
  intros Hp Hh. destruct (plain_split _ Hp) as [He Hin].
  destruct o as [e cb lim|e id|e args|args]; simpl in *.
  - destruct (on_shape e cb lim s Hin Hh)
      as (n & l' & extra & Hpos & Hn & Ha & _ & Hl & _).
    eapply healthy_insert; [exact Hh| |exact Hl].
    exists (n + 1). repeat split; [lia|]. now apply ascending_snoc.
  - destruct (off_shape e id s He) as [->|(ls & l & Hl & Hk & ->)]; [exact Hh|].
    eapply healthy_insert; [exact Hh| |reflexivity].
    destruct (Hh e ls Hl) as (n & Hn & Hpos & Ha).
    exists n. repeat split; auto. now apply ascending_delete.
  - now apply trigger_healthy.
  - apply trigger_healthy; [reflexivity|]. now apply healthy_ready.
Qed.

Lemma run_healthy (ops : list op) (s : yta) :
  plain_ops ops -> healthy s -> healthy (run ops s).
Proof.
  intros Hops. revert s. induction Hops as [|o ops Ho _ IH]; intros s Hh; [exact Hh|].
  simpl. apply IH. now apply step_healthy.
Qed.


Lemma invocation_of_served (e : string) (args : list value) (x : jsnum * listener)
    (i : invocation) :
  In i (invocation_of e args x) -> served_event i = e /\ served_id i = fst x.
Proof.
  unfold invocation_of. destruct (handler (snd x)); simpl; try tauto.
  intros [<-|[]]. auto.
Qed.

Lemma trigger_accounted (e : string) (args : list value) (s : yta) :
  colon_free e = true -> healthy s -> accounted s -> accounted (fst (trigger e args s)).
Proof.
  intros He Hh Hacc.
  destruct (trigger_shape e args s He Hh)
    as [[_ ->]|(ls & Hl & Hwf & _ & Hl' & Hi)]; [exact Hacc|].
  intros i Hin. rewrite Hi in Hin. rewrite Hl'.
  destruct Hwf as (n & Hn & Hpos & Ha).
  apply in_app_or in Hin as [Hin|Hin].
  - destruct (Hacc i Hin) as (ls0 & n0 & z & Hls & Hn0 & Hz & Hlt).
    destruct (decide (e = served_event i)) as [->|Hne].
    + rewrite lookup_insert_eq. eexists _, n0, z. repeat split; [|exact Hz|exact Hlt].
      simpl. congruence.
    + rewrite lookup_insert_ne by assumption. now exists ls0, n0, z.
  - apply in_flat_map in Hin as (x & Hx & Hin).
    apply invocation_of_served in Hin as [-> Hid].
    rewrite lookup_insert_eq.
    apply filter_In in Hx as [Hx _].
    apply ascending_above in Ha. rewrite List.Forall_forall in Ha.
    destruct (Ha x Hx) as (y & Hy & Hlt).
    eexists _, n, y. repeat split; [exact Hn|congruence|lia].
Qed.

Lemma step_accounted (o : op) (s : yta) :
  plain (event_of o) = true -> healthy s -> accounted s -> accounted (step s o).
Proof.
  intros Hp Hh Hacc. destruct (plain_split _ Hp) as [He Hin].
  destruct o as [e cb lim|e id|e args|args]; simpl in *.
  - destruct (on_shape e cb lim s Hin Hh)
      as (n & l' & extra & Hpos & Hn & Ha & _ & Hl & _ & _ & Hi & Hex & _).
    intros i Hi'. rewrite Hi in Hi'. rewrite Hl. apply in_app_or in Hi' as [Hi'|Hi'].
    + destruct (Hacc i Hi') as (ls & n0 & z & Hls & Hn0 & Hz & Hlt).
      destruct (decide (e = served_event i)) as [->|Hne].
      * rewrite lookup_insert_eq. eexists _, (n + 1), z. repeat split; [exact Hz|].
        rewrite (listeners_for_own _ s ls Hls), Hn0 in Hn. injection Hn as <-. lia.
      * rewrite lookup_insert_ne by assumption. now exists ls, n0, z.
    + rewrite List.Forall_forall in Hex. destruct (Hex i Hi') as [-> Hz].
      rewrite lookup_insert_eq. eexists _, (n + 1), n. repeat split; [exact Hz|lia].
  - destruct (off_shape e id s He) as [->|(ls & l & Hl & Hk & ->)]; [exact Hacc|].
    intros i Hi'. cbn [invoked set_listeners with_listenersByName] in Hi'.
    destruct (Hacc i Hi') as (ls0 & n0 & z & Hls & Hn0 & Hz & Hlt).
    cbn [_listenersByName set_listeners with_listenersByName].
    destruct (decide (e = served_event i)) as [->|Hne].
    + rewrite lookup_insert_eq. eexists _, n0, z. repeat split; [|exact Hz|exact Hlt].
      simpl. congruence.
    + rewrite lookup_insert_ne by assumption. now exists ls0, n0, z.
  - now apply trigger_accounted.
  - apply trigger_accounted; [reflexivity|now apply healthy_ready|].
    now apply accounted_ready.
Qed.

Lemma run_accounted (ops : list op) (s : yta) :
  plain_ops ops -> healthy s -> accounted s ->
  healthy (run ops s) /\ accounted (run ops s).
Proof.
  intros Hops. revert s. induction Hops as [|o ops Ho _ IH]; intros s Hh Hacc; [auto|].
  simpl. apply IH; [now apply step_healthy|now apply step_accounted].
Qed.

Lemma entry_none_at_counter (lo n : Z) (es : list (jsnum * listener)) :
  ascending lo n es -> entry (Num n) es = None.
Proof.
  intros Ha. apply ascending_above in Ha.
  induction Ha as [|[k l] es (y & Hk & Hy) _ IH]; simpl in *; [reflexivity|].
  subst k. simpl. destruct (Z.eqb_spec y n); [lia|]. exact IH.
Qed.

Lemma calls_of_none (e : string) (k : jsnum) (log : list invocation) :
  (forall i, In i log -> served_event i <> e \/ served_id i <> k) ->
  calls_of e k log = 0%nat.
Proof.
  intros Hno. unfold calls_of.
  induction log as [|i log IH]; [reflexivity|]. cbn [List.filter].
  assert (E : String.eqb (served_event i) e && jsnum_eqb (served_id i) k = false).
  { destruct (Hno i (or_introl eq_refl)) as [Hn|Hn].
    - apply String.eqb_neq in Hn. now rewrite Hn.
    - destruct (jsnum_eqb (served_id i) k) eqn:E; [|apply andb_false_r].
      apply jsnum_eqb_eq in E. congruence. }
  rewrite E. apply IH. intros j Hj. apply Hno. now right.
Qed.

(** What every run leaves, seen from the next [on]. *)
Lemma registry_facts (ops : list op) (e : string) (callback : value)
    (opt_limit : budget) :
  plain_ops ops -> plain e = true ->
  let s := run ops Registry.empty in
  healthy s
  /\ exists n,
       snd (on e callback opt_limit s)
         = Ok (VString (e +:+ ":" +:+ js_number_to_string (Num n)))
       /\ nextId (listeners_for e s) = Some (Num n)
       /\ ascending 0 n (entries (listeners_for e s))
       /\ calls_of e (Num n) (invoked s) = 0%nat
       /\ (exists l',
             _listenersByName (fst (on e callback opt_limit s))
             = <[e := {| nextId := Some (Num (n + 1));
                         entries := entries (listeners_for e s) ++ [(Num n, l')] |}]>
                 (_listenersByName s)
             /\ l' = {| handler := callback;
                        limit := if replays e s then decrement opt_limit
                                 else opt_limit |})
       /\ (exists extra,
             invoked (fst (on e callback opt_limit s)) = invoked s ++ extra
             /\ (length extra <= if replays e s && positive opt_limit then 1 else 0)%nat).
Proof.
  intros Hops Hp s. destruct (plain_split e Hp) as [He Hin].
  assert (H0 : healthy Registry.empty /\ accounted Registry.empty).
  { split; [intros e' ls Hl|intros i []].
    cbn [Registry.empty _listenersByName] in Hl. now rewrite lookup_empty in Hl. }
  destruct (run_accounted ops Registry.empty Hops (proj1 H0) (proj2 H0)) as [Hh Hacc].
  fold s in Hh, Hacc. split; [exact Hh|].
  destruct (on_shape e callback opt_limit s Hin Hh)
    as (n & l' & extra & Hpos & Hn & Ha & Hr & Hl & Hhandler & Hlimit & Hi & _ & Hlen).
  exists n. split; [exact Hr|]. split; [exact Hn|]. split; [exact Ha|]. split.
  - apply calls_of_none. intros i Hi'.
    destruct (Hacc i Hi') as (ls & n0 & z & Hls & Hn0 & Hz & Hlt).
    destruct (String.eqb_spec (served_event i) e) as [Ee|Ee]; [|now left].
    right. rewrite Ee in Hls. rewrite (listeners_for_own e s ls Hls), Hn0 in Hn.
    injection Hn as <-. rewrite Hz. intros [= ->]. lia.
  - split.
    + exists l'. split; [exact Hl|]. destruct l'. simpl in *. congruence.
    + exists extra. auto.
Qed.

(** X21.  Over any life of a registry (any run of [on], [off] on
    handles, [trigger], and of the widget reporting ready) whose event
    names have no colon and are none of the names every object has
    from [Object.prototype], a dispatch does not throw: it returns the
    instance when the event has a listeners object and [undefined]
    when nobody has subscribed to it yet.  The handle [on] returns is
    new: it names the event and an id under which no listener is
    registered and no call was ever served, and [on] registers the
    callback under it, with the limit given, less one when [on]
    replays the ready arguments. *)
Theorem registry_life (ops : list op) (e : string) (args : list value)
    (callback : value) (opt_limit : budget) :
  plain_ops ops -> plain e = true ->
  let s := run ops Registry.empty in
  snd (trigger e args s)
    = Ok (match _listenersByName s !! e with Some _ => VThis | None => VUndefined end)
  /\ exists n,
       snd (on e callback opt_limit s)
         = Ok (VString (e +:+ ":" +:+ js_number_to_string (Num n)))
       /\ registered e (Num n) s = None
       /\ calls_of e (Num n) (invoked s) = 0%nat
       /\ registered e (Num n) (fst (on e callback opt_limit s))
          = Some {| handler := callback;
                    limit := if replays e s then decrement opt_limit else opt_limit |}.
Proof.
  intros Hops Hp s. destruct (plain_split e Hp) as [He Hin].
  assert (H0 : healthy Registry.empty /\ accounted Registry.empty).
  { split; [intros e' ls Hl|intros i []].
    cbn [Registry.empty _listenersByName] in Hl. now rewrite lookup_empty in Hl. }
  destruct (run_accounted ops Registry.empty Hops (proj1 H0) (proj2 H0)) as [Hh Hacc].
  fold s in Hh, Hacc. split.
  - destruct (trigger_shape e args s He Hh) as [[Hl ->]|(ls & Hl & _ & -> & _)];
      rewrite Hl; [now rewrite Hin|reflexivity].
  - destruct (on_shape e callback opt_limit s Hin Hh)
      as (n & l' & extra & Hpos & Hn & Ha & Hr & Hl & Hhandler & Hlimit & _).
    exists n. split; [exact Hr|].
    assert (Hreg : registered e (Num n) s = None).
    { unfold registered.
      destruct (_listenersByName s !! e) as [ls|] eqn:Hls; [|reflexivity].
      rewrite (listeners_for_own e s ls Hls) in Ha. simpl.
      now apply (entry_none_at_counter 0). }
    split; [exact Hreg|]. split.
    + apply calls_of_none. intros i Hi'.
      destruct (Hacc i Hi') as (ls & n0 & z & Hls & Hn0 & Hz & Hlt).
      destruct (String.eqb_spec (served_event i) e) as [Ee|Ee]; [|now left].
      right. rewrite Ee in Hls. rewrite (listeners_for_own e s ls Hls), Hn0 in Hn.
      injection Hn as <-. rewrite Hz. intros [= ->]. lia.
    + unfold registered. rewrite Hl, lookup_insert_eq. simpl.
      rewrite entry_app, (entry_none_at_counter 0 n _ Ha). simpl.
      rewrite Z.eqb_refl. destruct l'. simpl in *. congruence.
Qed.


Lemma calls_of_served_elsewhere (e e' : string) (k : jsnum) (args : list value)
    (es : list (jsnum * listener)) :
  e' <> e -> calls_of e k (flat_map (invocation_of e' args) es) = 0%nat.
Proof.
  intros Hne. apply calls_of_none. intros i Hin.
  apply in_flat_map in Hin as (x & _ & Hin).
  apply invocation_of_served in Hin as [-> _]. now left.
Qed.

Lemma within_budget_frame (e : string) (id : Z) (C : nat) (s s' : yta) :
  _listenersByName s' !! e = _listenersByName s !! e ->
  calls_of e (Num id) (invoked s') = calls_of e (Num id) (invoked s) ->
  within_budget e id C s -> within_budget e id C s'.
Proof.
  intros Hl Hc [Hcount Hb]. unfold within_budget, registered in *.
  rewrite Hl, Hc. auto.
Qed.

Lemma trigger_budget (e : string) (id : Z) (C : nat) (e' : string) (args : list value)
    (s : yta) :
  colon_free e' = true -> healthy s ->
  within_budget e id C s -> within_budget e id C (fst (trigger e' args s)).
Proof.
  intros He Hh HT.
  destruct (trigger_shape e' args s He Hh)
    as [[_ ->]|(ls & Hl & Hwf & _ & Hl' & Hi)]; [exact HT|].
  destruct (decide (e' = e)) as [->|Hne].
  - destruct HT as [(ls0 & c & Hls & Hc & Hlt) Hb].
    rewrite Hl in Hls. injection Hls as <-.
    destruct Hwf as (n & Hn & Hpos & Ha).
    pose proof (calls_of_dispatch e args (Num id) 0 n (entries ls) Ha) as Hcd.
    split.
    + rewrite Hl', lookup_insert_eq. eexists _, c. repeat split; [exact Hc|exact Hlt].
    + unfold registered in *. rewrite Hl', lookup_insert_eq, Hi, calls_of_app.
      rewrite Hl in Hb. simpl in *.
      rewrite (entry_after_dispatch 0 n) by assumption.
      destruct (entry (Num id) (entries ls)) as [l|]; [|lia].
      destruct Hb as (m & Hm & Hle).
      destruct (positive (limit l)) eqn:Hp.
      * destruct (capacity_positive (limit l) m Hp Hm) as (m' & -> & Hm').
        exists m'. split; [exact Hm'|]. lia.
      * lia.
  - apply (within_budget_frame e id C s); [| |exact HT].
    + rewrite Hl'. now apply lookup_insert_ne.
    + rewrite Hi, calls_of_app, calls_of_served_elsewhere by assumption. lia.
Qed.

Lemma step_budget (e : string) (id : Z) (C : nat) (o : op) (s : yta) :
  plain (event_of o) = true -> healthy s ->
  within_budget e id C s -> within_budget e id C (step s o).
Proof.
  intros Hp Hh HT. destruct (plain_split _ Hp) as [He Hin].
  destruct o as [e' cb lim|e' id'|e' args|args]; simpl in *.
  - destruct (on_shape e' cb lim s Hin Hh)
      as (n & l' & extra & Hpos & Hn & Ha & _ & Hl & _ & _ & Hi & Hex & _).
    rewrite List.Forall_forall in Hex.
    destruct (decide (e' = e)) as [->|Hne].
    + destruct HT as [(ls & c & Hls & Hc & Hlt) Hb].
      rewrite (listeners_for_own e s ls Hls) in Hn, Hl.
      assert (Hnc : n = c) by congruence. subst c.
      assert (Hcalls : calls_of e (Num id) (invoked (fst (on e cb lim s)))
                       = calls_of e (Num id) (invoked s)).
      { rewrite Hi, calls_of_app. rewrite (calls_of_none e (Num id) extra); [lia|].
        intros i Hi'. destruct (Hex i Hi') as [_ Hz]. right. rewrite Hz.
        intros [= ->]. lia. }
      split.
      * rewrite Hl, lookup_insert_eq. eexists _, (n + 1). repeat split. lia.
      * unfold registered in *. rewrite Hl, lookup_insert_eq, Hcalls. rewrite Hls in Hb.
        simpl in *. rewrite entry_app.
        destruct (entry (Num id) (entries ls)) as [l|]; [exact Hb|].
        simpl. destruct (Z.eqb_spec n id); [lia|exact Hb].
    + apply (within_budget_frame e id C s); [|..|exact HT].
      * rewrite Hl. now apply lookup_insert_ne.
      * rewrite Hi, calls_of_app. rewrite (calls_of_none e (Num id) extra); [lia|].
        intros i Hi'. destruct (Hex i Hi') as [-> _]. now left.
  - destruct (off_shape e' id' s He) as [->|(ls & l & Hl & Hk & ->)]; [exact HT|].
    destruct (decide (e' = e)) as [->|Hne].
    + destruct HT as [(ls0 & c & Hls & Hc & Hlt) Hb].
      rewrite Hl in Hls. injection Hls as <-. split.
      * rewrite set_listeners_lookup. eexists _, c. repeat split; [exact Hc|exact Hlt].
      * unfold registered in *. rewrite set_listeners_lookup. rewrite Hl in Hb.
        simpl in *. destruct (jsnum_eqb id' (Num id)) eqn:Hid.
        -- apply jsnum_eqb_eq in Hid. subst id'.
           rewrite entry_delete_same. rewrite Hk in Hb.
           destruct Hb as (m & _ & Hm). lia.
        -- rewrite entry_delete_other; [exact Hb|].
           intros E. subst id'. simpl in Hid. now rewrite Z.eqb_refl in Hid.
    + apply (within_budget_frame e id C s); [|reflexivity|exact HT].
      unfold set_listeners. simpl. now apply lookup_insert_ne.
  - now apply trigger_budget.
  - apply trigger_budget; [reflexivity|now apply healthy_ready|].
    now apply within_budget_ready.
Qed.

Lemma run_budget (e : string) (id : Z) (C : nat) (ops : list op) (s : yta) :
  plain_ops ops -> healthy s ->
  within_budget e id C s -> within_budget e id C (run ops s).
Proof.
  intros Hops. revert s. induction Hops as [|o ops Ho _ IH]; intros s Hh HT; [exact HT|].
  simpl. apply IH; [now apply step_healthy|now apply step_budget].
Qed.

(** X22.  The budget of a listener, over the whole life of a registry
    whose event names have no colon and are none of the names every
    object has from [Object.prototype]: whatever was done before it
    subscribed and whatever is done after (subscriptions, removals,
    dispatches of any event, the widget reporting ready, in any
    order), a listener subscribed with a limit other than [Infinity] is
    called, under the id of the handle [on] returned, at most as many
    times as the limit allows: [N] times for an integer [N] above 0,
    once more than the integer below it for a limit above 0 that is
    not an integer, never for a limit that is not above 0 and for
    [NaN].  The replay of the ready arguments by [on] counts as one of
    these calls. *)
Theorem budget_for_life (before after : list op) (e : string) (callback : value)
    (opt_limit : budget) (c : nat) :
  plain_ops before -> plain_ops after -> plain e = true ->
  capacity opt_limit = Some c ->
  let s := run before Registry.empty in
  let s' := run after (fst (on e callback opt_limit s)) in
  exists n,
    snd (on e callback opt_limit s)
      = Ok (VString (e +:+ ":" +:+ js_number_to_string (Num n)))
    /\ (calls_of e (Num n) (invoked s') <= c)%nat.
Proof.
  intros Hb Ha Hp Hcap s s'.
  destruct (registry_facts before e callback opt_limit Hb Hp)
    as (Hh & n & Hr & Hn & Hasc & Hcalls & (l' & Hl & Hl') & (extra & Hi & Hlen)).
  fold s in Hh, Hr, Hn, Hasc, Hcalls, Hl, Hl', Hi, Hlen.
  exists n. split; [exact Hr|].
  assert (HT : within_budget e n c (fst (on e callback opt_limit s))).
  { split.
    - rewrite Hl, lookup_insert_eq. eexists _, (n + 1). repeat split. lia.
    - unfold registered. rewrite Hl, lookup_insert_eq. simpl.
      rewrite entry_app, (entry_none_at_counter 0 n _ Hasc). simpl.
      rewrite Z.eqb_refl. rewrite Hi, calls_of_app, Hcalls.
      assert (Hextra : (calls_of e (Num n) extra <= length extra)%nat).
      { unfold calls_of. apply List.filter_length_le. }
      subst l'. cbn [limit].
      destruct (replays e s); cbn [andb] in Hlen.
      + destruct (positive opt_limit) eqn:Hpos.
        * destruct (capacity_positive opt_limit c Hpos Hcap) as (c' & -> & Hc').
          exists c'. split; [exact Hc'|]. lia.
        * destruct (capacity_spent opt_limit Hpos) as [Hc0 Hc1].
          exists 0%nat. split; [exact Hc1|]. lia.
      + exists c. split; [exact Hcap|]. lia. }
  assert (Hh' : healthy (fst (on e callback opt_limit s))).
  { apply (step_healthy (On e callback opt_limit) s Hp Hh). }
  pose proof (run_budget e n c after _ Ha Hh' HT) as [_ Hfinal].
  fold s' in Hfinal. destruct (registered e (Num n) s') as [l|]; [|exact Hfinal].
  destruct Hfinal as (m & _ & Hm). lia.
Qed.








End LifetimeFacts.

Section LifetimeRuns.
Import Registry Lifetime Example.

(** X21 after a life in which the widget reports ready: [ready] has a
    listeners object, [playing] has none, and the next handle of
    [ready] is new. *)
Lemma registry_life_witness :
  let s := run [On "ready" (VFunction early_subscriber) (Count 1);
                Ready [VNull]; Trigger "ready" [];
                Off "ready" (Num 1)] Registry.empty in
  snd (trigger "ready" [] s) = Ok VThis
  /\ (exists n,
        snd (on "ready" (VFunction late_subscriber) Infinity s)
          = Ok (VString ("ready:" +:+ js_number_to_string (Num n)))
        /\ calls_of "ready" (Num n) (invoked s) = 0%nat)
  /\ snd (trigger "playing" []
            (run [On "ready" (VFunction early_subscriber) (Count 1);
                  Ready [VNull]] Registry.empty)) = Ok VUndefined.
Proof.
  intros s. split; [|split].
  - destruct (registry_life [On "ready" (VFunction early_subscriber) (Count 1);
                             Ready [VNull]; Trigger "ready" [];
                             Off "ready" (Num 1)]
                "ready" [] (VFunction late_subscriber) Infinity)
      as (Ht & _); [repeat constructor | reflexivity |].
    exact Ht.
  - destruct (registry_life [On "ready" (VFunction early_subscriber) (Count 1);
                             Ready [VNull]; Trigger "ready" [];
                             Off "ready" (Num 1)]
                "ready" [] (VFunction late_subscriber) Infinity)
      as (_ & n & Hr & _ & Hc & _); [repeat constructor | reflexivity |].
    exists n. split; [exact Hr | exact Hc].
  - destruct (registry_life [On "ready" (VFunction early_subscriber) (Count 1);
                             Ready [VNull]]
                "playing" [] (VFunction late_subscriber) Infinity)
      as (Ht & _); [repeat constructor | reflexivity |].
    exact Ht.
Defined.

(** X22 on a listener of [ready] allowed two calls, subscribed after the
    widget has reported ready (so [on] calls it once) and dispatched to
    three times among other operations: the calls under the id of its
    handle are at most two. *)
Lemma budget_for_life_witness :
  let s := run [On "paused" (VFunction early_subscriber) Infinity; Ready [VNull]]
             Registry.empty in
  let s' := run [Trigger "ready" []; On "ready" (VFunction early_subscriber) Infinity;
                 Trigger "ready" []; Trigger "paused" []; Ready [VBool true]]
              (fst (on "ready" (VFunction late_subscriber) (Count 2) s)) in
  exists n,
    snd (on "ready" (VFunction late_subscriber) (Count 2) s)
      = Ok (VString ("ready:" +:+ js_number_to_string (Num n)))
    /\ (calls_of "ready" (Num n) (invoked s') <= 2)%nat.
Proof.
  intros s s'.
  apply (budget_for_life
           [On "paused" (VFunction early_subscriber) Infinity; Ready [VNull]]
           [Trigger "ready" []; On "ready" (VFunction early_subscriber) Infinity;
            Trigger "ready" []; Trigger "paused" []; Ready [VBool true]]
           "ready" (VFunction late_subscriber) (Count 2) 2%nat);
    [repeat constructor | repeat constructor | reflexivity | reflexivity].
Defined.


End LifetimeRuns.

(** ** Waiting for the document and the widget's API *)

Section PageFacts.
Import Facade Page.
Context {W : Type} `{Host W}.

Ltac run := unfold bind, get, modify, ret, throw, try_catch in *; simpl in *.


Lemma addAudio_gives_player (o : options) (s : session W) :
  snd (addAudio o s) = Ok tt /\ widget_made (fst (addAudio o s)) = true.
Proof. unfold addAudio, getVideoId, alloc, deref, widget_made. run. auto. Qed.

Lemma inner_spec (i : nat) (p : page W) (s : session W) :
  instances p !! i = Some s ->
  inner i p =
  if YouTube p || YT p then
    (with_instances (<[i := fst (addAudio (opts s) s)]> (instances p))
       (if YouTube p then p else with_YouTube true p),
     Ok (VBool true))
  else if isLoadingYTScript p then (p, Ok VUndefined)
  else (with_scripts (S (scripts p)) (with_isLoadingYTScript true p), Ok VUndefined).
Proof.
  intros Hi. unfold inner. unfold bind at 1, get.
  destruct (YouTube p || YT p).
  - destruct (addAudio_gives_player (opts s) s) as [Hr _].
    destruct (YouTube p); unfold bind, ret, modify, on_instance, get; simpl;
      rewrite Hi; destruct (addAudio (opts s) s) as [s' r]; simpl in *; now subst r.
  - destruct (isLoadingYTScript p); reflexivity.
Qed.

Lemma inner_polled (i : nat) (delay : value) (p : page W) (s : session W) :
  instances p !! i = Some s ->
  polled i delay p (fst (callUntil (inner i) (VNumber (Num 50)) VUndefined delay
                           (WaitForPlayer i) p)).
Proof.
  intros Hi. unfold callUntil. unfold bind at 1. rewrite (inner_spec i p s Hi).
  destruct (YouTube p || YT p) eqn:Hy.
  - destruct (addAudio_gives_player (opts s) s) as [_ Hp].
    unfold bind, ret. cbn [truthy fst].
    assert (Hsame : forall q : page W,
              q = p \/ q = with_YouTube true p ->
              polled i delay p
                (with_instances (<[i := fst (addAudio (opts s) s)]> (instances p)) q)).
    { intros q [-> | ->]; (repeat split; try reflexivity; try (intros Hs; exact Hs));
        exists s, (fst (addAudio (opts s) s));
        (repeat split; [assumption|]); right; auto. }
    destruct (YouTube p); apply Hsame; auto.
  - destruct (isLoadingYTScript p) eqn:Hl; unfold bind, ret, modify; cbn [truthy fst].
    + repeat split; try reflexivity. { intros Hs; exact Hs. }
      exists s, s. rewrite list_insert_id by assumption.
      repeat split; [assumption|]. left. split; [reflexivity|].
      now exists (WaitForPlayer i).
    + repeat split; try reflexivity.
      { intros Hs. simpl. rewrite Hl in Hs. now rewrite Hs. }
      exists s, s. rewrite list_insert_id by assumption.
      repeat split; [assumption|]. left. split; [reflexivity|].
      now exists (WaitForPlayer i).
Qed.


Lemma outer_polled (i : nat) (p : page W) (s : session W) :
  instances p !! i = Some s ->
  polled i VUndefined p
    (fst (callUntil (outer i) (VNumber (Num 50)) VUndefined VUndefined
            (WaitForDocument i) p)).
Proof.
  intros Hi. unfold callUntil, outer. unfold bind at 1 2, get.
  destruct (existsb _ _).
  - pose proof (inner_polled i VUndefined p s Hi) as Hp.
    unfold bind at 1.
    destruct (callUntil (inner i) (VNumber (Num 50)) VUndefined VUndefined
                (WaitForPlayer i) p) as [p1 [v|e]]; exact Hp.
  - unfold ret, bind, modify. cbn [truthy fst].
    repeat split; try reflexivity. { intros Hs; exact Hs. }
    exists s, s. rewrite list_insert_id by assumption.
    repeat split; [assumption|]. left. split; [reflexivity|].
    now exists (WaitForDocument i).
Qed.

Lemma waiting_app (i : nat) (a b : list (timer * value)) (p : page W) :
  pending p = a ++ b ->
  waiting i p = List.filter (fun e => Nat.eqb (instance_of (fst e)) i) a
                ++ List.filter (fun e => Nat.eqb (instance_of (fst e)) i) b.
Proof. intros E. unfold waiting. now rewrite E, List.filter_app. Qed.

(** A page in order but for the instance numbered [i], which has no
    widget and no timer, is in order after that instance has polled. *)
Lemma polled_in_order (i : nat) (p p' : page W) (s : session W) :
  scripts p = (if isLoadingYTScript p then 1 else 0)%nat ->
  Forall (fun e => snd e = VUndefined
                   /\ (instance_of (fst e) < length (instances p))%nat) (pending p) ->
  (forall j t, j <> i -> instances p !! j = Some t ->
     length (waiting j p) = (if widget_made t then 0 else 1)%nat) ->
  instances p !! i = Some s -> widget_made s = false -> waiting i p = [] ->
  polled i VUndefined p p' -> in_order p'.
Proof.
  intros Ha Hb Hc Hi Hw Hq (_ & _ & Hs & s0 & s' & Hi0 & Hl & Hcase).
  rewrite Hi in Hi0. injection Hi0 as <-.
  pose proof (lookup_lt_Some _ _ _ Hi) as Hlt.
  split; [auto|]. split.
  - rewrite Hl, length_insert.
    destruct Hcase as [(_ & t & Ht & ->)|(_ & ->)]; [|exact Hb].
    apply Forall_app. split; [exact Hb|]. repeat constructor. simpl. now rewrite Ht.
  - intros j t Hj. rewrite Hl in Hj.
    destruct (decide (j = i)) as [->|Hne].
    + rewrite list_lookup_insert_eq in Hj by assumption. injection Hj as <-.
      unfold waiting in *.
      destruct Hcase as [(-> & t & Ht & ->)|(-> & ->)].
      * rewrite List.filter_app, Hq, Hw. simpl. rewrite Ht, Nat.eqb_refl. reflexivity.
      * now rewrite Hq.
    + rewrite list_lookup_insert_ne in Hj by congruence.
      rewrite <- (Hc j t Hne Hj). unfold waiting.
      destruct Hcase as [(_ & t0 & Ht & ->)|(_ & ->)]; [|reflexivity].
      rewrite List.filter_app. simpl. rewrite Ht.
      destruct (Nat.eqb_spec i j); [congruence|]. now rewrite app_nil_r.
Qed.


Lemma construct_in_order (o : options) (p : page W) :
  in_order p -> in_order (fst (construct o p)).
Proof.
  intros (Ha & Hb & Hc). unfold construct. unfold bind at 1, get.
  unfold bind at 1. unfold modify at 1.
  set (i := length (instances p)).
  set (p0 := with_instances (instances p ++ [init o]) p).
  assert (Hi : instances p0 !! i = Some (init o))
    by (apply list_lookup_middle; reflexivity).
  pose proof (outer_polled i p0 (init o) Hi) as Hp.
  unfold bind at 1.
  destruct (callUntil (outer i) (VNumber (Num 50)) VUndefined VUndefined
              (WaitForDocument i) p0) as [p1 [v|e]]; cbn [fst] in *.
  all: apply (polled_in_order i p0 p1 (init o)); try assumption; try reflexivity.
  all: try (eapply Forall_impl; [exact Hb|]; simpl; intros e0 [E1 E2];
            split; [exact E1|]; rewrite length_app; simpl; lia).
  all: try (intros j t Hne Hj; simpl in Hj;
            assert (Hlt : (j < length (instances p))%nat)
              by (apply lookup_lt_Some in Hj; rewrite length_app in Hj; simpl in Hj;
                  subst i; lia);
            rewrite lookup_app_l in Hj by assumption; exact (Hc j t Hj)).
  all: unfold waiting; simpl;
    induction Hb as [|e0 l [_ E2] _ IH]; [reflexivity|]; simpl;
    destruct (Nat.eqb_spec (instance_of (fst e0)) i); [subst i; lia|exact IH].
Qed.

Lemma filter_delete_other {A} (f : A -> bool) (k : nat) (l : list A) (x : A) :
  l !! k = Some x -> f x = false -> List.filter f (delete k l) = List.filter f l.
Proof.
  revert k. induction l as [|y l IH]; intros [|k]; simpl; try discriminate.
  - intros [= ->] ->. reflexivity.
  - intros Hk Hf. now rewrite (IH k Hk Hf).
Qed.

Lemma filter_delete_same {A} (f : A -> bool) (k : nat) (l : list A) (x : A) :
  l !! k = Some x -> f x = true ->
  length (List.filter f l) = S (length (List.filter f (delete k l))).
Proof.
  revert k. induction l as [|y l IH]; intros [|k]; simpl; try discriminate.
  - intros [= ->] ->. reflexivity.
  - intros Hk Hf. destruct (f y); simpl; now rewrite (IH k Hk Hf).
Qed.

Lemma fire_in_order (k : nat) (p : page W) : in_order p -> in_order (fst (fire k p)).
Proof.
  intros (Ha & Hb & Hc). unfold fire. unfold bind at 1, get.
  destruct (pending p !! k) as [[t delay]|] eqn:Hk; [|repeat split; assumption].
  unfold bind at 1. unfold modify at 1.
  set (i := instance_of t).
  set (p0 := with_pending (delete k (pending p)) p).
  pose proof Hb as Hb'. rewrite List.Forall_forall in Hb'.
  assert (Hin : In (t, delay) (pending p)).
  { apply list_elem_of_In, list_elem_of_lookup. eauto. }
  destruct (Hb' _ Hin) as [Hd Hlt]. simpl in Hd, Hlt. subst delay. fold i in Hlt.
  destruct (lookup_lt_is_Some_2 (instances p) i Hlt) as [s Hi].
  pose proof (filter_delete_same (fun e => Nat.eqb (instance_of (fst e)) i) k
                (pending p) (t, VUndefined) Hk (Nat.eqb_refl _)) as Hcount.
  pose proof (Hc i s Hi) as Hci. unfold waiting in Hci. rewrite Hcount in Hci.
  destruct (widget_made s) eqn:Hw; [discriminate|].
  assert (Hq : waiting i p0 = []).
  { unfold waiting. simpl. injection Hci as Hci. now apply length_zero_iff_nil. }
  assert (Hb0 : Forall (fun e => snd e = VUndefined
                   /\ (instance_of (fst e) < length (instances p0))%nat) (pending p0)).
  { simpl. apply List.Forall_forall. intros e He. apply Hb'.
    apply list_elem_of_In in He. apply list_elem_of_In.
    eapply list_elem_of_delete_inv. exact He. }
  assert (Hc0 : forall j t0, j <> i -> instances p0 !! j = Some t0 ->
            length (waiting j p0) = (if widget_made t0 then 0 else 1)%nat).
  { intros j t0 Hne Hj. rewrite <- (Hc j t0 Hj). unfold waiting. simpl.
    rewrite (filter_delete_other _ k (pending p) (t, VUndefined) Hk); [reflexivity|].
    simpl. fold i. destruct (Nat.eqb_spec i j); congruence. }
  assert (Hp : polled i VUndefined p0 (fst (run_timer t VUndefined p0))).
  { unfold run_timer. subst i. destruct t as [i|i]; simpl in *.
    - now apply (outer_polled i p0 s).
    - now apply (inner_polled i VUndefined p0 s). }
  apply (polled_in_order i p0 _ s); assumption.
Qed.

Lemma prototype_keeps_widget :
  Forall (fun e => match snd e with
                   | Method m => forall args s,
                       widget_made (fst (m args s)) = widget_made s
                   | Data _ => True
                   end) (@prototype W _).
Proof.
  unfold prototype, literal, mapping, state_predicates. simpl.
  repeat (apply List.Forall_cons; [simpl; try exact I|]).
  all: try apply List.Forall_nil.
  all: intros args s;
    unfold getVideoIds, getVideoUrls, getVideoId, setSources, getStateName,
      playNext, playPrevious, restart, setVolume, push_callback, onReady,
      already_called, forward, is_state, getIsReady, setLoop, getLoop,
      getAutoPlay, step_index, load_current, getVideoId, deref, alloc, player,
      invoke, arg, widget_made; run;
    repeat (match goal with
            | |- context [match ?x with _ => _ end] =>
                lazymatch x with
                | context [match _ with _ => _ end] => fail
                | _ => destruct x eqn:?
                end
            end; simpl in *; try congruence);
    try reflexivity.
Qed.

Lemma call_keeps_widget (key : string) (args : list value) (s : session W) :
  widget_made (fst (call key args s)) = widget_made s.
Proof.
  assert (Hm : forall s0, widget_made (fst (call_member key args s0)) = widget_made s0).
  { intros s0. unfold call_member.
    destruct (lookup_member key prototype) as [[v|m]|] eqn:Hk; [reflexivity| |reflexivity].
    apply lookup_member_In in Hk. pose proof prototype_keeps_widget as Hall.
    rewrite List.Forall_forall in Hall. apply (Hall _ Hk args s0). }
  destruct (decide (key ∈ guards s)) as [Hin|Hin].
  - rewrite call_guarded by assumption. unfold guard. unfold bind at 1, get.
    destruct (_isReady s).
    + unfold bind at 1, modify. now rewrite Hm.
    + now destruct (truthy _).
  - rewrite call_unguarded by assumption. apply Hm.
Qed.

Lemma onReady_keeps_widget (event : value) (s : session W) :
  widget_made (fst (player_onReady event s)) = widget_made s.
Proof.
  unfold player_onReady. unfold bind at 1, modify.
  destruct (trigger_keeps "ready" event (with_isReady true s)) as (Ep & _).
  unfold widget_made. now rewrite Ep.
Qed.

Lemma on_instance_in_order {A} (i : nat) (m : M (session W) A) (p : page W) :
  (forall s, widget_made (fst (m s)) = widget_made s) ->
  in_order p -> in_order (fst (on_instance i m p)).
Proof.
  intros Hm (Ha & Hb & Hc). unfold on_instance.
  destruct (instances p !! i) as [s|] eqn:Hi; [|repeat split; assumption].
  specialize (Hm s). destruct (m s) as [s' r]. cbn [fst] in *.
  pose proof (lookup_lt_Some _ _ _ Hi) as Hlt.
  split; [exact Ha|]. split.
  - simpl. now rewrite length_insert.
  - intros j t Hj. simpl in Hj. unfold waiting. simpl.
    destruct (decide (j = i)) as [->|Hne].
    + rewrite list_lookup_insert_eq in Hj by assumption. injection Hj as <-.
      rewrite Hm. exact (Hc i s Hi).
    + rewrite list_lookup_insert_ne in Hj by congruence. exact (Hc j t Hj).
Qed.

(** X14.  However the page loads and whatever is done on it (the
    document and the widget's API changing state, instances made,
    timers firing in any order, the widget reporting ready, methods
    called), [loadYTScript] inserts one script tag at most; every
    instance that has no widget yet has exactly one timer pending and
    an instance that has its widget has none; and every timer is
    scheduled with the delay [undefined], the [50] of [init] being
    passed as [args]. *)
Theorem page_in_order (p : page W) :
  life p ->
  (scripts p <= 1)%nat
  /\ Forall (fun e => snd e = VUndefined) (pending p)
  /\ forall i s, instances p !! i = Some s ->
       length (waiting i p) = (if widget_made s then 0 else 1)%nat.
Proof.
  intros Hlife.
  assert (Hinv : in_order p).
  { induction Hlife as [r yt|r p _ IH|yt p _ IH|o p _ IH|k p _ IH
                        |i event p _ IH|i key args p _ IH].
    - repeat split; [constructor|]. intros i s Hi. discriminate.
    - exact IH.
    - exact IH.
    - now apply construct_in_order.
    - now apply fire_in_order.
    - apply on_instance_in_order; [apply onReady_keeps_widget|exact IH].
    - apply on_instance_in_order; [apply call_keeps_widget|exact IH]. }
  destruct Hinv as (Ha & Hb & Hc). split; [|split; [|exact Hc]].
  - rewrite Ha. destruct (isLoadingYTScript p); lia.
  - eapply Forall_impl; [exact Hb|]. now intros e [E _].
Qed.


(** X15.  Once the document is interactive or complete and the widget's
    API is there (or the module has seen it before), a timer that fires
    gives its instance the widget: [addAudio] runs on the instance with
    the instance's options, the module's [YouTube] is set, the timer is
    not scheduled again and no script tag is inserted. *)
Theorem widget_made_once_loaded (p : page W) (k : nat) (t : timer) (delay : value)
    (s : session W) :
  pending p !! k = Some (t, delay) -> instances p !! instance_of t = Some s ->
  existsb (String.eqb (readyState p)) ["interactive"; "complete"] = true ->
  YouTube p || YT p = true ->
  let p' := fst (fire k p) in
  snd (fire k p) = Ok (VBool true)
  /\ instances p' = <[instance_of t := fst (addAudio (opts s) s)]> (instances p)
  /\ widget_made (fst (addAudio (opts s) s)) = true
  /\ pending p' = delete k (pending p)
  /\ scripts p' = scripts p
  /\ YouTube p' = true.
Proof.
  intros Hk Hi Hdoc Hyt p'. subst p'.
  set (p0 := with_pending (delete k (pending p)) p).
  assert (Hinner : forall again d,
            callUntil (inner (instance_of t)) (VNumber (Num 50)) VUndefined d again p0
            = (with_instances (<[instance_of t := fst (addAudio (opts s) s)]> (instances p))
                 (if YouTube p then p0 else with_YouTube true p0),
               Ok (VBool true))).
  { intros again d. unfold callUntil. unfold bind at 1.
    rewrite (inner_spec (instance_of t) p0 s Hi). cbn [YouTube YT p0 with_pending].
    rewrite Hyt. unfold bind, ret. cbn [truthy]. reflexivity. }
  assert (Hfire : fire k p =
                  (with_instances (<[instance_of t := fst (addAudio (opts s) s)]> (instances p))
                     (if YouTube p then p0 else with_YouTube true p0),
                   Ok (VBool true))).
  { unfold fire. unfold bind at 1, get. rewrite Hk.
    unfold bind at 1. unfold modify at 1. fold p0.
    destruct t as [i|i]; unfold run_timer; cbn [instance_of] in *.
    - unfold callUntil at 1. unfold bind at 1. unfold outer. unfold bind at 1, get.
      cbn [readyState p0 with_pending]. rewrite Hdoc.
      unfold bind at 1. rewrite Hinner. unfold ret, bind. cbn [truthy]. reflexivity.
    - apply Hinner. }
  rewrite Hfire. cbn [fst snd].
  destruct (addAudio_gives_player (opts s) s) as [_ Hw].
  destruct (YouTube p) eqn:Hy; simpl; repeat split; auto.
Qed.

End PageFacts.

Section PageRuns.
Import Facade Page Example.

(** X14 on a page that was complete before the API arrived: one
    instance is made, the API arrives, the timer fires. *)
Lemma page_in_order_witness :
  let p := fst (fire 0 (with_YT true
                          (fst (construct three_sources (fresh "complete" false))))) in
  (scripts p <= 1)%nat /\ pending p = [].
Proof.
  intros p.
  destruct (page_in_order p) as (Hs & _);
    [apply life_fire, life_api, life_construct, life_fresh|].
  split; [exact Hs | reflexivity].
Defined.

(** X15 on the same page. *)
Lemma widget_made_once_loaded_witness :
  let p := with_YT true (fst (construct three_sources (fresh "complete" false))) in
  instances (fst (fire 0 p)) = [loaded].
Proof.
  intros p.
  destruct (widget_made_once_loaded p 0 (WaitForPlayer 0) VUndefined (init three_sources))
    as (_ & Hi & _);
    [reflexivity | reflexivity | reflexivity | reflexivity |].
  rewrite Hi. reflexivity.
Defined.

End PageRuns.

(** ** The class around its registry *)

Section AudioFacts.
Import Registry Audio.
Context {W : Type} `{Host W}.

Ltac run := unfold bind, get, modify, ret, throw, try_catch in *; simpl in *.


Lemma build_States_snoc (l : list (string * Z)) (e : string * Z) :
  build_States (l ++ [e]) =
  <[fst e := VNumber (Num (snd e))]>
    (<[js_number_to_string (Num (snd e)) := VString (fst e)]> (build_States l)).
Proof. unfold build_States. now rewrite fold_left_app. Qed.

(** What the table holds under a name, under a code and under any other
    key. *)
Lemma build_States_lookup (enumeration : list (string * Z)) :
  List.NoDup (map fst enumeration) -> List.NoDup (map snd enumeration) ->
  Forall (fun e => no_numeral (fst e)) enumeration ->
  (forall name code, In (name, code) enumeration ->
     build_States enumeration !! name = Some (VNumber (Num code))
     /\ build_States enumeration !! js_number_to_string (Num code) = Some (VString name))
  /\ (forall key,
        ~ In key (map fst enumeration) ->
        (forall code, In code (map snd enumeration) ->
                      key <> js_number_to_string (Num code)) ->
        build_States enumeration !! key = None).
Proof.
  induction enumeration as [|[n c] l IH] using rev_ind.
  - intros _ _ _. split; [intros name code []|]. intros key _ _. apply lookup_empty.
  - rewrite !map_app. cbn [map fst snd]. intros Hn Hc Hall.
    apply List.NoDup_remove in Hn as [Hn Hn']. rewrite app_nil_r in Hn, Hn'.
    apply List.NoDup_remove in Hc as [Hc Hc']. rewrite app_nil_r in Hc, Hc'.
    apply Forall_app in Hall as [Hall Hlast].
    apply Forall_cons in Hlast as [Hlast _]. simpl in Hlast.
    destruct (IH Hn Hc Hall) as [IHin IHout]. rewrite build_States_snoc. cbn [fst snd].
    split.
    + intros name code Hin. apply in_app_or in Hin as [Hin|[E|[]]].
      * assert (Hname : n <> name).
        { intros <-. apply Hn'. apply in_map_iff. now exists (n, code). }
        assert (Hcode : c <> code).
        { intros <-. apply Hc'. apply in_map_iff. now exists (name, c). }
        assert (Hnum : no_numeral name).
        { rewrite List.Forall_forall in Hall. apply (Hall (name, code) Hin). }
        destruct (IHin name code Hin) as [E1 E2].
        assert (N1 : js_number_to_string (Num c) <> js_number_to_string (Num code)).
        { intros E. apply number_to_string_inj in E. congruence. }
        assert (N2 : n <> js_number_to_string (Num code)) by apply Hlast.
        assert (N3 : js_number_to_string (Num c) <> name).
        { intros E. apply (Hnum c). now symmetry. }
        now rewrite !lookup_insert_ne by assumption.
      * injection E as -> ->. split; [apply lookup_insert_eq|].
        rewrite lookup_insert_ne by (intros E; apply (Hlast code); exact E).
        apply lookup_insert_eq.
    + intros key Hk Hcodes.
      assert (N1 : js_number_to_string (Num c) <> key).
      { intros E. apply (Hcodes c); [apply in_or_app; right; now left|now symmetry]. }
      assert (N2 : n <> key).
      { intros <-. apply Hk. apply in_or_app. right. now left. }
      rewrite !lookup_insert_ne by assumption.
      apply IHout.
      * intros Hin. apply Hk. apply in_or_app. now left.
      * intros code Hin. apply Hcodes. apply in_or_app. now left.
Qed.

(** X23.  The table [YouTubeAudio.States] reads both ways: when the
    names of the widget's enumeration are distinct, its codes are
    distinct and no name is the decimal writing of a number, looking a
    name up and then what was found gives the name back, and so for a
    code; a key that is neither a name nor the writing of a code has no
    entry. *)
Theorem States_two_way (enumeration : list (string * Z)) (name : string) (code : Z) :
  List.NoDup (map fst enumeration) -> List.NoDup (map snd enumeration) ->
  Forall (fun e => no_numeral (fst e)) enumeration ->
  In (name, code) enumeration ->
  let STATES := build_States enumeration in
  STATES !! name = Some (VNumber (Num code))
  /\ STATES !! js_number_to_string (Num code) = Some (VString name)
  /\ (STATES !! name) ≫= (fun v => STATES !! Facade.property_key v) = Some (VString name)
  /\ (STATES !! js_number_to_string (Num code)) ≫= (fun v => STATES !! Facade.property_key v)
     = Some (VNumber (Num code))
  /\ (forall key, (forall n c, In (n, c) enumeration ->
                     key <> n /\ key <> js_number_to_string (Num c)) ->
        STATES !! key = None).
Proof.
  intros Hn Hc Hall Hin STATES. subst STATES.
  destruct (build_States_lookup enumeration Hn Hc Hall) as [Hboth Hnone].
  destruct (Hboth name code Hin) as [E1 E2].
  split; [exact E1|]. split; [exact E2|]. split; [|split].
  - rewrite E1. simpl. exact E2.
  - rewrite E2. simpl. exact E1.
  - intros key Hkey. apply Hnone.
    + intros Hk. apply in_map_iff in Hk as ([n c] & E & Hk). simpl in E. subst n.
      destruct (Hkey key c Hk) as [Hne _]. now apply Hne.
    + intros c Hk E. apply in_map_iff in Hk as ([n c'] & E' & Hk). simpl in E'. subst c'.
      destruct (Hkey n c Hk) as [_ Hne]. now apply Hne.
Qed.

Lemma lift_spec {A} (m : M yta A) (s : instance W) :
  lift m s = (with_registry (fst (m (registry s))) s, snd (m (registry s))).
Proof. unfold lift. now destruct (m (registry s)). Qed.

(** The handler of the widget's state changes, step by step. *)
Lemma onStateChange_spec (s : instance W) (event : value) (data : jsnum)
      (table : gmap string value) :
  States s = Some table ->
  let state := default VUndefined (table !! js_number_to_string data) in
  let s1 := with_stateId (VNumber data)
              (with_written (written s ++ [(event, "state", state);
                                           (event, "stateId", VNumber data)]) s) in
  let first := trigger "stateChange" [event] (registry s) in
  onStateChange event data s
  = match snd first with
    | Ok _ =>
        match state with
        | VString name =>
            let second := trigger (toLowerCase name) [event] (fst first) in
            (with_registry (fst second) s1,
             match snd second with Ok _ => Ok tt | Throw e => Throw e end)
        | _ => (with_registry (fst first) s1, Throw VTypeError)
        end
    | Throw e => (with_registry (fst first) s1, Throw e)
    end.
Proof.
  intros Hs state s1 first.
  unfold onStateChange. unfold bind at 1, get. rewrite Hs.
  cbn [Facade.property_key]. fold state.
  unfold bind at 1 2 3, modify. cbn [written with_written with_stateId].
  rewrite <- app_assoc. cbn [app].
  unfold bind at 1. rewrite lift_spec.
  cbn [registry with_stateId with_written]. fold first.
  destruct (snd first) as [v|e]; [|reflexivity].
  destruct state; try reflexivity.
  unfold bind, ret. rewrite lift_spec. cbn [registry with_registry].
  now destruct (snd (trigger (toLowerCase s0) [event] (fst first))).
Qed.

(** A dispatch under a name without a colon returns, and leaves the
    registry numbered as it was. *)
Lemma trigger_returns (e : string) (args : list value) (r : yta) :
  colon_free e = true -> Lifetime.healthy r ->
  (exists v, snd (trigger e args r) = Ok v)
  /\ Lifetime.healthy (fst (trigger e args r)).
Proof.
  intros He Hh. split.
  - destruct (trigger_shape e args r He Hh) as [[_ ->]|(ls & _ & _ & -> & _)]; eauto.
  - exact (trigger_healthy e args r He Hh).
Qed.

(** What [getState] answers after a state change. *)
Lemma getState_after (s : instance W) (event : value) (data : jsnum)
      (table : gmap string value) :
  States s = Some table ->
  snd (getState (fst (onStateChange event data s)))
  = Ok (default VUndefined (table !! js_number_to_string data)).
Proof.
  intros Hs. rewrite (onStateChange_spec s event data table Hs). cbv zeta.
  assert (Hg : forall t : instance W,
             States t = Some table -> _stateId t = VNumber data ->
             snd (getState t) = Ok (default VUndefined (table !! js_number_to_string data))).
  { intros t Ht Hid. unfold getState, bind, get. rewrite Ht, Hid. reflexivity. }
  destruct (snd (trigger "stateChange" [event] (registry s)));
    [destruct (default VUndefined (table !! js_number_to_string data))|];
    apply Hg; cbn [fst States _stateId with_registry with_stateId with_written];
    auto.
Qed.

(** X24.  A state change reported by the widget, in the class, for a
    registry numbered as [on] numbers it.  For a code of the widget's
    enumeration (names and codes distinct, no name the writing of a
    number, the name in lower case without a colon): the event gets its
    [state], the name of the code, and its [stateId]; the listeners of
    ["stateChange"] are dispatched to, then those of the name in lower
    case; the handler returns and [getState] answers the name.  For a
    code that is not in the enumeration the event's [state] is
    [undefined]: the listeners of ["stateChange"] are dispatched to,
    then a TypeError leaves the handler; [getState] answers
    [undefined].  In both cases the instance keeps the code. *)
Theorem class_state_change (s : instance W) (event : value) (code : Z) :
  States s = Some (build_States PlayerState) ->
  List.NoDup (map fst PlayerState) -> List.NoDup (map snd PlayerState) ->
  Forall (fun e => no_numeral (fst e)) PlayerState ->
  Lifetime.healthy (registry s) ->
  let r := onStateChange event (Num code) s in
  let first := fst (trigger "stateChange" [event] (registry s)) in
  _stateId (fst r) = VNumber (Num code)
  /\ (forall name,
        In (name, code) PlayerState -> colon_free (toLowerCase name) = true ->
        snd r = Ok tt
        /\ written (fst r)
           = written s ++ [(event, "state", VString name);
                           (event, "stateId", VNumber (Num code))]
        /\ registry (fst r) = fst (trigger (toLowerCase name) [event] first)
        /\ snd (getState (fst r)) = Ok (VString name))
  /\ ((forall name, ~ In (name, code) PlayerState) ->
        snd r = Throw VTypeError
        /\ written (fst r)
           = written s ++ [(event, "state", VUndefined);
                           (event, "stateId", VNumber (Num code))]
        /\ registry (fst r) = first
        /\ snd (getState (fst r)) = Ok VUndefined).
Proof.
  intros Hs Hn Hc Hall Hh r first.
  destruct (build_States_lookup PlayerState Hn Hc Hall) as [Hboth Hnone].
  destruct (trigger_returns "stateChange" [event] (registry s) eq_refl Hh)
    as [[v Hv] Hh'].
  pose proof (getState_after s event (Num code) _ Hs) as Hget. fold r in Hget.
  pose proof (onStateChange_spec s event (Num code) _ Hs) as Hrun.
  cbv zeta in Hrun. fold r in Hrun. rewrite Hv in Hrun.
  split; [|split].
  - rewrite Hrun.
    destruct (default VUndefined (build_States PlayerState !! js_number_to_string (Num code)));
      reflexivity.
  - intros name Hin Hcolon. destruct (Hboth name code Hin) as [_ E].
    rewrite E in Hrun, Hget. cbn [default from_option id] in Hrun, Hget.
    destruct (trigger_returns (toLowerCase name) [event] _ Hcolon Hh') as [[v' Hv'] _].
    fold first in Hv'. rewrite Hget. rewrite Hrun. cbn [fst snd]. fold first.
    rewrite Hv'. cbn [written with_registry with_stateId with_written registry].
    auto.
  - intros Hout.
    assert (E : build_States PlayerState !! js_number_to_string (Num code) = None).
    { apply Hnone.
      - intros Hk. apply in_map_iff in Hk as ([n c] & Ek & Hk). simpl in Ek.
        rewrite List.Forall_forall in Hall. apply (Hall (n, c) Hk code). exact Ek.
      - intros c Hk Ec. apply number_to_string_inj in Ec. injection Ec as <-.
        apply in_map_iff in Hk as ([n c] & Ek & Hk). simpl in Ek. subst c.
        exact (Hout n Hk). }
    rewrite E in Hrun, Hget. cbn [default from_option id] in Hrun, Hget.
    rewrite Hget, Hrun. cbn [fst snd written with_registry with_stateId with_written registry].
    auto.
Qed.

Lemma subscribed_snoc (cbs : list value) (cb : value) :
  subscribed (cbs ++ [cb])
  = subscribed cbs ++ [(Num (Z.of_nat (length cbs) + 1),
                        {| handler := cb; limit := Infinity |})].
Proof. unfold subscribed. rewrite imap_app. simpl. now rewrite Nat.add_0_r. Qed.

Lemma subscribed_ascending (cbs : list value) :
  ascending 0 (Z.of_nat (length cbs) + 1) (subscribed cbs).
Proof.
  induction cbs as [|cb cbs IH] using rev_ind; [exact I|].
  rewrite subscribed_snoc, length_app. simpl length.
  replace (Z.of_nat (length cbs + 1) + 1) with (Z.of_nat (length cbs) + 1 + 1) by lia.
  apply ascending_snoc; [exact IH|lia].
Qed.

Lemma subscribed_live (cbs : list value) : live (subscribed cbs) = subscribed cbs.
Proof.
  induction cbs as [|cb cbs IH] using rev_ind; [reflexivity|].
  rewrite subscribed_snoc. unfold live in *. rewrite List.filter_app, IH. reflexivity.
Qed.

Lemma option_listeners_snoc (e : string) (options : list (string * value))
      (k : string) (cb : value) :
  option_listeners e (options ++ [(k, cb)])
  = option_listeners e options
    ++ (if names_listener k && String.eqb (event_name k) e then [cb] else []).
Proof.
  unfold option_listeners. rewrite List.filter_app, map_app. cbn [List.filter fst snd].
  now destruct (names_listener k && String.eqb (event_name k) e).
Qed.

Lemma for_each_snoc {S A : Type} (f : A -> M S unit) (l : list A) (x : A) (s : S) :
  for_each f (l ++ [x]) s
  = match for_each f l s with
    | (s', Ok _) => f x s'
    | (s', Throw e) => (s', Throw e)
    end.
Proof.
  revert s. induction l as [|a l IH]; intros s; cbn [app for_each]; unfold bind.
  - unfold ret. destruct (f x s) as [s' [[]|e]]; reflexivity.
  - destruct (f a s) as [s' [[]|e]]; [apply IH|reflexivity].
Qed.

(** The name of an event that an option subscribes to has no colon. *)
Lemma word_no_colon (c : ascii) : Regex.word c = true -> Ascii.eqb c ":" = false.
Proof.
  intros Hw. destruct (Ascii.eqb_spec c ":") as [->|]; [discriminate Hw|reflexivity].
Qed.

Lemma words_colon_free (rest : string) :
  forallb Regex.word (list_ascii_of_string rest) = true -> colon_free rest = true.
Proof.
  induction rest as [|c rest IH]; [reflexivity|]. cbn [list_ascii_of_string forallb colon_free].
  intros Hw. apply andb_prop in Hw as [Hc Hr]. rewrite (word_no_colon c Hc). simpl.
  now apply IH.
Qed.

Lemma event_name_colon_free (key : string) :
  names_listener key = true -> colon_free (event_name key) = true.
Proof.
  unfold names_listener. intros Hk.
  destruct key as [|o key]; [discriminate Hk|].
  destruct o as [[] [] [] [] [] [] [] []]; try discriminate Hk.
  destruct key as [|n key]; [discriminate Hk|].
  destruct n as [[] [] [] [] [] [] [] []]; try discriminate Hk.
  destruct key as [|c rest]; [discriminate Hk|].
  apply andb_prop in Hk as [Hc Hr]. cbn [event_name colon_free].
  rewrite (words_colon_free rest Hr), andb_true_r.
  destruct c as [[] [] [] [] [] [] [] []]; try discriminate Hc; reflexivity.
Qed.

(** [on] returns, whatever the event name, the callback and the
    limit. *)
Lemma on_returns (e : string) (cb : value) (lim : budget) (s : yta) :
  exists v, snd (on e cb lim s) = Ok v.
Proof.
  unfold on, bind, get, modify, ret, consume. cbn [fst snd].
  destruct (String.eqb e "ready"); [|eauto].
  destruct (_readyArguments s); [|eauto].
  destruct (positive lim); [|eauto].
  unfold try_catch, apply_handler, defer_throw, modify, throw.
  destruct cb; cbn [fst snd]; eauto.
  destruct (fn_throws _ _ _); cbn [fst snd]; eauto.
Qed.

(** The loop of [constructYTA] over the options writes the registry
    only, and returns. *)
Lemma add_listeners_shape (options : list (string * value)) (s : instance W) :
  exists r, for_each add_listener options s = (with_registry r s, Ok tt).
Proof.
  revert s. induction options as [|kv options IH]; intros s.
  - exists (registry s). cbn [for_each]. unfold ret. now destruct s.
  - assert (Hstep : exists r1, add_listener kv s = (with_registry r1 s, Ok tt)).
    { unfold add_listener. destruct (names_listener (fst kv)).
      - unfold bind. rewrite lift_spec.
        destruct (on_returns (event_name (fst kv)) (snd kv) Infinity (registry s))
          as [v ->].
        unfold ret. now eexists.
      - exists (registry s). unfold ret. now destruct s. }
    destruct Hstep as (r1 & Hr1). cbn [for_each]. unfold bind. rewrite Hr1.
    destruct (IH (with_registry r1 s)) as (r & ->). now exists r.
Qed.

Lemma constructYTA_shape (options : list (string * value)) (s : instance W) :
  exists r,
    constructYTA options s
    = (with_player (Some (player_new VUndefined false))
         (with_registry r (with_States (Some (build_States PlayerState)) s)), Ok tt).
Proof.
  destruct (add_listeners_shape options
              (with_States (Some (build_States PlayerState)) s)) as (r & Hrun).
  exists r. unfold constructYTA, bind, modify. now rewrite Hrun.
Qed.

Lemma plain_options_snoc (options : list (string * value)) (k : string) (cb : value) :
  plain_options (options ++ [(k, cb)]) = true ->
  plain_options options = true
  /\ (names_listener k = true -> inherited (event_name k) = false).
Proof.
  unfold plain_options. rewrite forallb_app. cbn [forallb fst].
  intros Hp. apply andb_prop in Hp as [Hl Hk]. split; [exact Hl|].
  intros Hn. rewrite Hn, andb_true_r in Hk. now apply negb_true_iff in Hk.
Qed.

(** The loop of [constructYTA] over options that name no event that
    every object has, on an instance with no listeners and no ready
    arguments. *)
Lemma add_listeners_spec (options : list (string * value)) (s : instance W) :
  plain_options options = true ->
  _listenersByName (registry s) = ∅ -> _readyArguments (registry s) = None ->
  exists m,
    for_each add_listener options s
    = (with_registry (with_listenersByName m (registry s)) s, Ok tt)
    /\ forall e,
         default {| nextId := Some (Num 1); entries := [] |} (m !! e)
         = {| nextId := Some (Num (Z.of_nat (length (option_listeners e options)) + 1));
              entries := subscribed (option_listeners e options) |}
         /\ (option_listeners e options = [] -> m !! e = None).
Proof.
  intros Hplain Hempty Hready.
  induction options as [|[k cb] l IH] using rev_ind.
  - exists ∅. split.
    + cbn [for_each]. unfold ret. f_equal. rewrite <- Hempty.
      destruct s as [[]]; reflexivity.
    + intros e. rewrite lookup_empty. split; reflexivity.
  - destruct (plain_options_snoc l k cb Hplain) as [Hl Hin].
    destruct (IH Hl) as (m & Hrun & Hm).
    rewrite for_each_snoc, Hrun. unfold add_listener. cbn [fst snd].
    destruct (names_listener k) eqn:Hk.
    + specialize (Hin eq_refl).
      unfold bind. rewrite lift_spec. cbn [registry with_registry].
      set (r := with_listenersByName m (registry s)).
      set (e0 := event_name k).
      destruct (Hm e0) as [Hls _].
      assert (Hfor : listeners_for e0 r
                     = {| nextId := Some (Num (Z.of_nat (length (option_listeners e0 l)) + 1));
                          entries := subscribed (option_listeners e0 l) |}).
      { unfold listeners_for. rewrite (found_not_inherited e0 r Hin).
        unfold r. cbn [_listenersByName with_listenersByName]. exact Hls. }
      assert (Hrep : replays e0 r = false).
      { unfold replays, r. cbn [_readyArguments with_listenersByName]. rewrite Hready.
        apply andb_false_r. }
      rewrite (on_spec e0 cb Infinity r (Z.of_nat (length (option_listeners e0 l)) + 1));
        [| rewrite Hfor; reflexivity | rewrite Hfor; apply subscribed_ascending].
      cbv zeta. rewrite Hrep, Hfor. cbn [andb fst snd entries].
      exists (<[e0 := {| nextId := Some (Num (Z.of_nat (length (option_listeners e0 l)) + 1 + 1));
                         entries := subscribed (option_listeners e0 l)
                                    ++ [(Num (Z.of_nat (length (option_listeners e0 l)) + 1),
                                         {| handler := cb; limit := Infinity |})] |}]> m).
      split; [reflexivity|].
      intros e. rewrite option_listeners_snoc, Hk. cbn [andb]. fold e0.
      destruct (String.eqb_spec e0 e) as [<-|Hne].
      * rewrite lookup_insert_eq. cbn [default from_option id].
        rewrite subscribed_snoc, length_app. simpl length. split.
        -- f_equal. do 2 f_equal. lia.
        -- intros E. now destruct (option_listeners e0 l).
      * rewrite lookup_insert_ne by assumption. rewrite app_nil_r. apply Hm.
    + unfold ret. exists m. split; [reflexivity|].
      intros e. rewrite option_listeners_snoc, Hk. cbn [andb]. rewrite app_nil_r. apply Hm.
Qed.

(** [constructYTA] on the instance that the constructor leaves. *)
Lemma constructYTA_spec (options : list (string * value)) (s : instance W) :
  plain_options options = true ->
  constructor (Some options) = Ok s ->
  exists m,
    constructYTA options s
    = (with_player (Some (player_new VUndefined false))
         (with_registry (with_listenersByName m Registry.empty)
            (with_States (Some (build_States PlayerState)) s)), Ok tt)
    /\ forall e,
         default {| nextId := Some (Num 1); entries := [] |} (m !! e)
         = {| nextId := Some (Num (Z.of_nat (length (option_listeners e options)) + 1));
              entries := subscribed (option_listeners e options) |}
         /\ (option_listeners e options = [] -> m !! e = None).
Proof.
  intros Hplain Hc. injection Hc as <-.
  set (s0 := {| registry := Registry.empty; _loop := truthy (option_named "loop" options);
                _autoPlay := truthy (option_named "autoPlay" options); _player := None;
                _stateId := VUndefined; States := None; written := [] |}).
  set (s1 := with_States (Some (build_States PlayerState)) s0).
  destruct (add_listeners_spec options s1 Hplain eq_refl eq_refl) as (m & Hrun & Hm).
  exists m. split; [|exact Hm].
  unfold constructYTA, bind, modify. fold s1. rewrite Hrun. reflexivity.
Qed.

Lemma constructYTA_healthy (options : list (string * value)) (s : instance W) :
  plain_options options = true ->
  constructor (Some options) = Ok s ->
  Lifetime.healthy (registry (fst (constructYTA options s))).
Proof.
  intros Hplain Hc. destruct (constructYTA_spec options s Hplain Hc) as (m & -> & Hm).
  cbn [fst registry with_player with_registry]. intros e ls Hl.
  cbn [_listenersByName with_listenersByName] in Hl.
  destruct (Hm e) as [Hls _]. rewrite Hl in Hls. cbn [default from_option id] in Hls.
  subst ls. eexists. repeat split; [|apply subscribed_ascending]. lia.
Qed.

(** X25.  The options named [on<Name>] subscribe.  For options of
    which none names an event that every object has from
    [Object.prototype] (as [onToString], [onConstructor] or [onValueOf]
    would), on the instance that the constructor leaves, [constructYTA]
    returns with the widget made (no video id, no [autoplay]) and the
    table of states in place; it has called no handler; the listeners
    of each event are the callbacks of the options [on<Name>] naming it
    (first letter in lower case), in the order of the options, numbered
    from 1 and without limit; a dispatch to any event calls exactly
    those, in that order. *)
Theorem options_subscribe (options : list (string * value)) (s : instance W) :
  plain_options options = true ->
  constructor (Some options) = Ok s ->
  let s' := fst (constructYTA options s) in
  snd (constructYTA options s) = Ok tt
  /\ _player s' = Some (player_new VUndefined false)
  /\ States s' = Some (build_States PlayerState)
  /\ invoked (registry s') = []
  /\ (forall e,
        entries (listeners_for e (registry s')) = subscribed (option_listeners e options))
  /\ (forall e args,
        invoked (fst (trigger e args (registry s')))
        = flat_map (invocation_of e args) (subscribed (option_listeners e options))).
Proof.
  intros Hplain Hc s'. subst s'.
  destruct (constructYTA_spec options s Hplain Hc) as (m & -> & Hm).
  injection Hc as <-.
  cbn [fst snd _player States registry with_player with_registry with_States
       invoked with_listenersByName Registry.empty].
  repeat (split; [reflexivity|]).
  set (r := with_listenersByName m Registry.empty).
  split.
  - intros e. destruct (Hm e) as [Hls _]. unfold listeners_for, found.
    cbn [r _listenersByName with_listenersByName].
    destruct (m !! e) as [ls|]; cbn [default from_option id] in *.
    + now subst ls.
    + injection Hls as _ Hsub. now destruct (inherited e).
  - intros e args. destruct (Hm e) as [Hls Hnone].
    destruct (m !! e) as [ls|] eqn:Hl.
    + cbn [default from_option id] in Hls. subst ls.
      assert (He : colon_free e = true).
      { destruct (option_listeners e options) as [|cb cbs] eqn:Hcbs;
          [now specialize (Hnone eq_refl)|].
        assert (Hin : In cb (option_listeners e options)) by (rewrite Hcbs; now left).
        unfold option_listeners in Hin. apply in_map_iff in Hin as ([k v] & _ & Hin).
        apply List.filter_In in Hin as [_ Hf]. cbn [fst] in Hf.
        apply andb_prop in Hf as [Hk Hname]. apply String.eqb_eq in Hname. subst e.
        now apply event_name_colon_free. }
      rewrite (trigger_spec e args r _ He Hl);
        [|eexists; repeat split; [|apply subscribed_ascending]; lia].
      rewrite serve_all_spec. cbn [fst entries]. rewrite subscribed_live. reflexivity.
    + cbn [default from_option id] in Hls. injection Hls as _ Hsub.
      unfold trigger, bind, get, found. cbn [_listenersByName with_listenersByName r].
      rewrite Hl. rewrite <- Hsub.
      destruct (inherited e); reflexivity.
Qed.

(** X26.  The widget is needed, and only where the code uses it.  On the
    instance that the constructor leaves, the methods that drive the
    widget throw a TypeError and change nothing ([setLoop] does not even
    store the flag), while [setAutoPlay] stores its flag and answers
    the previous one.  Once [constructYTA] has run, each of them hands
    its call to the widget and returns [this]; [setLoop] stores the
    flag, hands it on as a boolean and answers the previous flag. *)
Theorem widget_needed (options : list (string * value)) (s : instance W)
      (target : string) (args : list value) (flag : value) :
  constructor (Some options) = Ok s ->
  let s' := fst (constructYTA options s) in
  let w := player_new VUndefined false in
  chained target args s = (s, Throw VTypeError)
  /\ setLoop flag s = (s, Throw VTypeError)
  /\ setVolume flag s = (s, Throw VTypeError)
  /\ setAutoPlay flag s
     = (with_autoPlay (truthy flag) s, Ok (VBool (truthy (option_named "autoPlay" options))))
  /\ chained target args s'
     = (with_player (Some (fst (player_call target args w))) s', Ok VThis)
  /\ setLoop flag s'
     = (with_player (Some (fst (player_call "setLoop" [VBool (truthy flag)] w)))
          (with_loop (truthy flag) s'),
        Ok (VBool (truthy (option_named "loop" options))))
  /\ setVolume flag s'
     = (with_player
          (Some (fst (player_call "setVolume" [flag]
                        (fst (player_call "getVolume" [] w))))) s',
        Ok (snd (player_call "getVolume" [] w))).
Proof.
  intros Hc s' w. subst s'. destruct (constructYTA_shape options s) as (r & ->).
  injection Hc as <-. cbn [fst]. fold w.
  repeat split.
  - unfold chained, player, bind. cbn [_player with_player].
    destruct (player_call target args w). reflexivity.
  - unfold setLoop, bind, get, modify, player, ret. cbn [_player with_player with_loop].
    destruct (player_call "setLoop" [VBool (truthy flag)] w). reflexivity.
  - unfold setVolume, bind, player, ret. cbn [_player with_player].
    destruct (player_call "getVolume" [] w) as [w1 v1]. cbn [_player with_player fst snd].
    destruct (player_call "setVolume" [flag] w1). reflexivity.
Qed.

End AudioFacts.

Section AudioRuns.
Import Registry Audio Example.

(** A name that starts with a capital letter is not the writing of a
    number. *)
Lemma capital_no_numeral (c : ascii) (rest : string) :
  Regex.in_range "A" "Z" c = true -> no_numeral (String c rest).
Proof.
  intros Hc z E. unfold js_number_to_string in E.
  destruct (Z.to_int z) as [d|d]; cbn in E.
  - destruct d; cbn in E; try discriminate E; injection E as -> _;
      vm_compute in Hc; discriminate Hc.
  - injection E as -> _. vm_compute in Hc. discriminate Hc.
Qed.

(** The enumeration of the recording widget. *)
Lemma recorder_enumeration :
  List.NoDup (map fst (PlayerState (W:=recorder)))
  /\ List.NoDup (map snd (PlayerState (W:=recorder)))
  /\ Forall (fun e => no_numeral (fst e)) (PlayerState (W:=recorder)).
Proof.
  split; [|split].
  - repeat constructor; simpl; intuition discriminate.
  - repeat constructor; simpl; intuition discriminate.
  - repeat constructor; apply capital_no_numeral; reflexivity.
Qed.

(** X23 on the enumeration of the recording widget. *)
Lemma States_two_way_witness :
  build_States (PlayerState (W:=recorder)) !! "PLAYING" = Some (VNumber (Num 1))
  /\ build_States (PlayerState (W:=recorder)) !! "1" = Some (VString "PLAYING")
  /\ build_States (PlayerState (W:=recorder)) !! "playing" = None.
Proof.
  destruct recorder_enumeration as (Hn & Hc & Hall).
  destruct (States_two_way (PlayerState (W:=recorder)) "PLAYING" 1 Hn Hc Hall)
    as (E1 & E2 & _ & _ & Hnone); [simpl; tauto|].
  split; [exact E1|]. split; [exact E2|].
  apply Hnone. intros n c Hin. simpl in Hin.
  repeat (destruct Hin as [Hin|Hin];
          [injection Hin as <- <-; split; intros E; vm_compute in E; discriminate E|]).
  destruct Hin.
Defined.

(** X24 on an instance made with an [onPlaying] option: the widget
    reports the code of [PLAYING]. *)
Lemma class_state_change_witness :
  exists s0,
    constructor (W:=recorder) (Some [("onPlaying", VFunction 2%nat)]) = Ok s0
    /\ let s := fst (constructYTA [("onPlaying", VFunction 2%nat)] s0) in
       let r := onStateChange (VObject 7%nat) (Num 1) s in
       snd r = Ok tt /\ snd (getState (fst r)) = Ok (VString "PLAYING").
Proof.
  eexists. split; [reflexivity|]. intros s r.
  destruct recorder_enumeration as (Hn & Hc & Hall).
  destruct (class_state_change s (VObject 7%nat) 1) as (_ & Hin & _);
    [reflexivity | exact Hn | exact Hc | exact Hall
     | apply constructYTA_healthy; reflexivity |].
  destruct (Hin "PLAYING") as (Hr & _ & _ & Hg); [simpl; tauto | reflexivity |].
  split; [exact Hr | exact Hg].
Defined.

(** X25 on two options for one event and one for another. *)
Lemma options_subscribe_witness :
  exists s0,
    constructor (W:=recorder)
      (Some [("onPlaying", VFunction 2%nat); ("loop", VBool true);
             ("onPaused", VFunction 4%nat)]) = Ok s0
    /\ let s := fst (constructYTA [("onPlaying", VFunction 2%nat); ("loop", VBool true);
                                   ("onPaused", VFunction 4%nat)] s0) in
       entries (listeners_for "playing" (registry s))
       = [(Num 1, {| handler := VFunction 2%nat; limit := Infinity |})]
       /\ entries (listeners_for "loop" (registry s)) = [].
Proof.
  eexists. split; [reflexivity|]. intros s.
  destruct (options_subscribe
              [("onPlaying", VFunction 2%nat); ("loop", VBool true);
               ("onPaused", VFunction 4%nat)]
              {| registry := Registry.empty; _loop := true; _autoPlay := false;
                 _player := None; _stateId := VUndefined; States := None;
                 written := [] |} eq_refl eq_refl)
    as (_ & _ & _ & _ & He & _).
  split; [exact (He "playing") | exact (He "loop")].
Defined.

(** X26 on [play()] and [setLoop(1)] around the making of the widget. *)
Lemma widget_needed_witness :
  exists s0,
    constructor (W:=recorder) (Some [("loop", VBool false)]) = Ok s0
    /\ snd (play s0) = Throw VTypeError
    /\ _loop (fst (setLoop (VNumber (Num 1)) s0)) = false
    /\ snd (play (fst (constructYTA [("loop", VBool false)] s0))) = Ok VThis
    /\ _loop (fst (setLoop (VNumber (Num 1))
                     (fst (constructYTA [("loop", VBool false)] s0)))) = true.
Proof.
  exists {| registry := Registry.empty; _loop := false; _autoPlay := false;
            _player := None; _stateId := VUndefined; States := None;
            written := [] |}.
  split; [reflexivity|].
  destruct (widget_needed [("loop", VBool false)]
              {| registry := Registry.empty; _loop := false; _autoPlay := false;
                 _player := None; _stateId := VUndefined; States := None;
                 written := [] |} "playVideo" [] (VNumber (Num 1)) eq_refl)
    as (E1 & E2 & _ & _ & E3 & E4 & _).
  unfold play. rewrite E1, E2, E3, E4. repeat split.
Defined.

End AudioRuns.

(** ** The helpers *)

Section HelperFacts.
Import Helpers.

Lemma has_key_property (key : string) (source : object) :
  has_key key source = false -> find (fun kv => String.eqb (fst kv) key) source = None.
Proof.
  unfold has_key. induction source as [|kv source IH]; [reflexivity|]. simpl.
  destruct (String.eqb (fst kv) key); [discriminate|]. exact IH.
Qed.

Lemma keys_rev (key : string) (source : object) :
  existsb (fun k => String.eqb k key) (rev (map fst source)) = has_key key source.
Proof.
  unfold has_key. induction source as [|kv source IH]; [reflexivity|].
  cbn [map rev existsb]. rewrite existsb_app, IH. cbn [existsb].
  rewrite orb_false_r. apply orb_comm.
Qed.

Lemma copy_keys_lookup (source : object) (target : gmap string value) (key : string) :
  copy_keys source target !! key
  = if has_key key source then Some (property key source) else target !! key.
Proof.
  unfold copy_keys.
  assert (Hgen : forall (keys : list string) (t : gmap string value),
             fold_left (fun t k => <[k := property k source]> t) keys t !! key
             = if existsb (fun k => String.eqb k key) keys
               then Some (property key source) else t !! key).
  { induction keys as [|k keys IH]; intros t; [reflexivity|]. cbn [fold_left existsb].
    rewrite IH. destruct (existsb (fun k0 => String.eqb k0 key) keys);
      [now rewrite orb_true_r|]. rewrite orb_false_r.
    destruct (String.eqb_spec k key) as [->|Hne].
    - apply lookup_insert_eq.
    - now apply lookup_insert_ne. }
  rewrite Hgen, keys_rev. reflexivity.
Qed.

Lemma sources_backwards (sources : list object) (base : gmap string value) :
  fold_left (fun t source => copy_keys source t) (rev sources) base
  = fold_right copy_keys base sources.
Proof.
  induction sources as [|s sources IH]; [reflexivity|].
  cbn [rev fold_right]. rewrite fold_left_app. cbn [fold_left]. now rewrite IH.
Qed.

(** X27.  [extend] gives the earlier source the last word: a key of the
    result holds the value of the first source, in the order of the
    arguments, that has the key, and the target's own value when no
    source has it; [extend] with no argument at all throws a
    TypeError. *)
Theorem extend_first_source_wins (target : object) (sources : list object) (key : string) :
  extend [] = Throw VTypeError
  /\ exists t,
       extend (target :: sources) = Ok t
       /\ (forall i source,
             sources !! i = Some source -> has_key key source = true ->
             (forall j earlier, (j < i)%nat -> sources !! j = Some earlier ->
                                has_key key earlier = false) ->
             t !! key = Some (property key source))
       /\ ((forall source, In source sources -> has_key key source = false) ->
           t !! key = (list_to_map target : gmap string value) !! key).
Proof.
  split; [reflexivity|]. eexists. split; [reflexivity|].
  rewrite sources_backwards.
  set (base := (list_to_map target : gmap string value)). clearbody base.
  split.
  - induction sources as [|s sources IH]; intros i source Hi Hk Hfirst;
      [now rewrite lookup_nil in Hi|].
    cbn [fold_right]. rewrite copy_keys_lookup.
    destruct i as [|i].
    + injection Hi as ->. now rewrite Hk.
    + rewrite (Hfirst 0%nat s) by (try lia; reflexivity).
      apply (IH i source Hi Hk). intros j earlier Hj Hl.
      apply (Hfirst (S j) earlier); [lia|exact Hl].
  - induction sources as [|s sources IH]; intros Hnone; [reflexivity|].
    cbn [fold_right]. rewrite copy_keys_lookup, (Hnone s) by now left.
    apply IH. intros source Hin. apply Hnone. now right.
Qed.

Lemma splice_in_perm (start i : nat) (indices : list nat) :
  Permutation (splice_in start i indices) (i :: indices).
Proof.
  unfold splice_in. rewrite <- Permutation_middle.
  now rewrite take_drop.
Qed.

Lemma shuffled_indices_perm (draw : nat -> nat) (l : nat) :
  Permutation (shuffled_indices draw l) (seq 0 l).
Proof.
  unfold shuffled_indices. induction l as [|l IH]; [reflexivity|].
  rewrite seq_S, fold_left_app. cbn [fold_left Nat.add].
  rewrite splice_in_perm, IH. apply Permutation_cons_append.
Qed.

(** X28.  The shuffle of [cueShuffledItems] loses nothing: whatever
    [Math.random] gives, the list handed to [cueItems] is a
    rearrangement of [items], with every item as often as in
    [items]. *)
Theorem shuffled_is_rearrangement (draw : nat -> nat) (items : list value) :
  Permutation (shuffled draw items) items.
Proof.
  unfold shuffled. rewrite (shuffled_indices_perm draw (length items)).
  assert (E : forall (pre l : list value),
             map (fun i => default VUndefined ((pre ++ l) !! i)) (seq (length pre) (length l)) = l).
  { intros pre l. revert pre. induction l as [|x l IH]; intros pre; [reflexivity|].
    cbn [length seq map]. rewrite list_lookup_middle by reflexivity. cbn [default from_option id].
    f_equal. specialize (IH (pre ++ [x])). rewrite <- app_assoc, length_app in IH.
    cbn [app length] in IH. rewrite Nat.add_1_r in IH. exact IH. }
  specialize (E [] items). cbn [app length] in E. now rewrite E.
Qed.

End HelperFacts.

(** ** The class waiting for the widget's API *)

Section LoaderFacts.
Import Registry Audio Loader.
Context {W : Type} `{Host W}.

Lemma add_listeners_return (options : list (string * value)) (s : instance W) :
  snd (for_each add_listener options s) = Ok tt
  /\ _player (fst (for_each add_listener options s)) = _player s
  /\ States (fst (for_each add_listener options s)) = States s.
Proof.
  revert s. induction options as [|kv options IH]; intros s; [now cbn|].
  assert (Hstep : exists s1, add_listener kv s = (s1, Ok tt)
                             /\ _player s1 = _player s /\ States s1 = States s).
  { unfold add_listener. destruct (names_listener (fst kv)).
    - unfold bind. rewrite lift_spec.
      destruct (on_returns (event_name (fst kv)) (snd kv) Infinity (registry s)) as [v ->].
      unfold ret. eexists. split; [reflexivity|]. cbn. auto.
    - unfold ret. eauto. }
  destruct Hstep as (s1 & Hs1 & E2 & E3).
  cbn [for_each]. unfold bind. rewrite Hs1.
  destruct (IH s1) as (F1 & F2 & F3). rewrite F1, F2, F3. auto.
Qed.

Lemma constructYTA_total (options : list (string * value)) (s : instance W) :
  snd (constructYTA options s) = Ok tt
  /\ widget_made (fst (constructYTA options s)) = true
  /\ States (fst (constructYTA options s)) = Some (build_States PlayerState).
Proof.
  unfold constructYTA. unfold bind at 1 3 5. unfold modify at 1 3 5.
  destruct (add_listeners_return options
              (with_States (Some (build_States PlayerState)) s)) as (E1 & E2 & E3).
  unfold bind.
  destruct (for_each add_listener options _) as [s' r]. cbn [fst snd] in *. subst r.
  unfold modify, widget_made. cbn [fst snd _player States with_player]. auto.
Qed.

(** One poll of the instance numbered [i]. *)
Lemma poll_spec (i : nat) (o : list (string * value)) (delay : value)
      (p : page W) (s : instance W) :
  instances p !! i = Some s ->
  callUntil (callback i o) delay (Poll i o) p
  = if YT_Player p then
      (with_class_States (Some (build_States PlayerState))
         (with_instances
            (<[i := fst (constructYTA o (with_States (class_States p) s))]> (instances p))
            p),
       Ok (VBool true))
    else (with_pending (pending p ++ [(Poll i o, delay)]) p, Ok VUndefined).
Proof.
  intros Hi. unfold callUntil, try_catch, callback. unfold bind at 1 2, get.
  destruct (YT_Player p).
  - unfold bind at 1. unfold on_instance. rewrite Hi.
    destruct (constructYTA_total o (with_States (class_States p) s)) as (E1 & _ & E3).
    destruct (constructYTA o (with_States (class_States p) s)) as [s' r].
    cbn [fst snd] in *. subst r. rewrite E3. unfold bind, ret. cbn [truthy]. reflexivity.
  - unfold ret, bind, modify. cbn [truthy]. reflexivity.
Qed.

Lemma in_order_frame (p p' : page W) :
  alreadyCalled p' = alreadyCalled p -> scripts p' = scripts p ->
  instances p' = instances p -> pending p' = pending p ->
  in_order p -> in_order p'.
Proof.
  intros E1 E2 E3 E4 (Ha & Hb & Hc). unfold in_order, waiting.
  rewrite E1, E2, E3, E4. auto.
Qed.

Lemma apply_hook_frame (h : hook) (args : list value) (p : page W) :
  let p' := fst (apply_hook h args p) in
  YT_Player p' = YT_Player p /\ alreadyCalled p' = alreadyCalled p
  /\ scripts p' = scripts p /\ instances p' = instances p /\ pending p' = pending p.
Proof.
  revert p. induction h as [v|old IH]; intros p; cbn [apply_hook].
  - destruct v; try (cbn; auto 6).
    destruct (fn_throws (page_calls p) f args); cbn; auto 6.
  - unfold bind, modify.
    destruct (is_function old); [|cbn; auto 6].
    destruct (IH (with_onYouTubeIframeAPIReady old p)) as (E1 & E2 & E3 & E4 & E5).
    cbv zeta. rewrite E1, E2, E3, E4, E5. cbn. auto 6.
Qed.

Lemma loadYT_in_order (p : page W) : in_order p -> in_order (fst (loadYT p)).
Proof.
  intros (Ha & Hb & Hc). unfold loadYT, bind, get, modify, ret.
  destruct (alreadyCalled p) eqn:Hcalled; cbn [fst];
    [split; [now rewrite Hcalled|now split]|].
  split; [|split].
  - cbn. now rewrite Ha.
  - exact Hb.
  - exact Hc.
Qed.

(** A page in order but for the instance numbered [i], which has no
    widget and no timer, is in order after that instance has polled. *)
Lemma loader_polled_in_order (i : nat) (o : list (string * value))
      (p : page W) (s : instance W) :
  scripts p = (if alreadyCalled p then 1 else 0)%nat ->
  Forall (fun e => snd e = VNumber (Num 250)
                   /\ (instance_of (fst e) < length (instances p))%nat) (pending p) ->
  (forall j t, j <> i -> instances p !! j = Some t ->
     length (waiting j p) = (if widget_made t then 0 else 1)%nat) ->
  instances p !! i = Some s -> widget_made s = false -> waiting i p = [] ->
  in_order (fst (callUntil (callback i o) (VNumber (Num 250)) (Poll i o) p)).
Proof.
  intros Ha Hb Hc Hi Hw Hq. rewrite (poll_spec i o _ p s Hi).
  pose proof (lookup_lt_Some _ _ _ Hi) as Hlt.
  destruct (YT_Player p); cbn [fst].
  - split; [exact Ha|]. split.
    + cbn. now rewrite length_insert.
    + intros j t Hj. cbn [instances with_class_States with_instances] in Hj.
      unfold waiting. cbn [pending with_class_States with_instances].
      destruct (decide (j = i)) as [->|Hne].
      * rewrite list_lookup_insert_eq in Hj by assumption. injection Hj as <-.
        destruct (constructYTA_total o (with_States (class_States p) s)) as (_ & -> & _).
        unfold waiting in Hq. now rewrite Hq.
      * rewrite list_lookup_insert_ne in Hj by congruence. exact (Hc j t Hne Hj).
  - split; [exact Ha|]. split.
    + cbn. apply Forall_app. split; [exact Hb|]. repeat constructor. exact Hlt.
    + intros j t Hj. cbn [instances with_pending] in Hj.
      unfold waiting. cbn [pending with_pending].
      rewrite List.filter_app. cbn [List.filter fst instance_of].
      destruct (decide (j = i)) as [->|Hne].
      * rewrite Hi in Hj. injection Hj as <-. unfold waiting in Hq.
        rewrite Hq, Hw, Nat.eqb_refl. reflexivity.
      * destruct (Nat.eqb_spec i j); [congruence|]. rewrite app_nil_r.
        exact (Hc j t Hne Hj).
Qed.

Lemma loader_construct_in_order (o : option (list (string * value))) (p : page W) :
  in_order p -> in_order (fst (construct o p)).
Proof.
  intros Hin. pose proof Hin as (Ha & Hb & Hc). unfold construct.
  destruct (constructor o) as [s0|e] eqn:Hs0; [|exact Hin].
  assert (Hw0 : widget_made s0 = false).
  { destruct o as [o|]; [|discriminate]. injection Hs0 as <-. reflexivity. }
  unfold bind at 1, get. unfold bind at 1. unfold modify at 1.
  set (i := length (instances p)).
  set (p0 := with_instances (instances p ++ [s0]) p).
  assert (Hi : instances p0 !! i = Some s0)
    by (apply list_lookup_middle; reflexivity).
  assert (Hp : in_order (fst (callUntil (callback i (default [] o)) (VNumber (Num 250))
                                (Poll i (default [] o)) p0))).
  { apply (loader_polled_in_order i _ p0 s0); try assumption.
    - eapply Forall_impl; [exact Hb|]. cbn. intros e0 [E1 E2].
      split; [exact E1|]. rewrite length_app. cbn. lia.
    - intros j t Hne Hj. cbn in Hj.
      assert (Hlt : (j < length (instances p))%nat).
      { apply lookup_lt_Some in Hj. rewrite length_app in Hj. cbn in Hj. subst i. lia. }
      rewrite lookup_app_l in Hj by assumption. exact (Hc j t Hj).
    - unfold waiting. cbn [pending p0 with_instances].
      induction Hb as [|e0 l [_ E2] _ IH]; [reflexivity|]. cbn [List.filter].
      destruct (Nat.eqb_spec (instance_of (fst e0)) i); [subst i; lia|exact IH]. }
  unfold bind at 1.
  destruct (callUntil (callback i (default [] o)) (VNumber (Num 250))
              (Poll i (default [] o)) p0) as [p1 [v|e]]; cbn [fst] in *; [|exact Hp].
  unfold bind. destruct (truthy v).
  - unfold ret. exact Hp.
  - pose proof (loadYT_in_order p1 Hp) as Hl.
    destruct (loadYT p1) as [p2 [[]|e]]; cbn [fst] in *; exact Hl.
Qed.

Lemma loader_delete_other {A} (f : A -> bool) (k : nat) (l : list A) (x : A) :
  l !! k = Some x -> f x = false -> List.filter f (delete k l) = List.filter f l.
Proof.
  revert k. induction l as [|y l IH]; intros [|k]; simpl; try discriminate.
  - intros [= ->] ->. reflexivity.
  - intros Hk Hf. now rewrite (IH k Hk Hf).
Qed.

Lemma loader_delete_same {A} (f : A -> bool) (k : nat) (l : list A) (x : A) :
  l !! k = Some x -> f x = true ->
  length (List.filter f l) = S (length (List.filter f (delete k l))).
Proof.
  revert k. induction l as [|y l IH]; intros [|k]; simpl; try discriminate.
  - intros [= ->] ->. reflexivity.
  - intros Hk Hf. destruct (f y); simpl; now rewrite (IH k Hk Hf).
Qed.

Lemma loader_fire_in_order (k : nat) (p : page W) :
  in_order p -> in_order (fst (fire k p)).
Proof.
  intros (Ha & Hb & Hc). unfold fire. unfold bind at 1, get.
  destruct (pending p !! k) as [[t delay]|] eqn:Hk; [|repeat split; assumption].
  unfold bind at 1. unfold modify at 1.
  destruct t as [i o]. unfold run_timer.
  set (p0 := with_pending (delete k (pending p)) p).
  pose proof Hb as Hb'. rewrite List.Forall_forall in Hb'.
  assert (Hin : In (Poll i o, delay) (pending p)).
  { apply list_elem_of_In, list_elem_of_lookup. eauto. }
  destruct (Hb' _ Hin) as [_ Hlt]. cbn in Hlt.
  destruct (lookup_lt_is_Some_2 (instances p) i Hlt) as [s Hi].
  pose proof (loader_delete_same (fun e => Nat.eqb (instance_of (fst e)) i) k
                (pending p) (Poll i o, delay) Hk (Nat.eqb_refl _)) as Hcount.
  pose proof (Hc i s Hi) as Hci. unfold waiting in Hci. rewrite Hcount in Hci.
  destruct (widget_made s) eqn:Hw; [discriminate|].
  apply (loader_polled_in_order i o p0 s); try assumption.
  - cbn. apply List.Forall_forall. intros e He. apply Hb'.
    apply list_elem_of_In in He. apply list_elem_of_In.
    eapply list_elem_of_delete_inv. exact He.
  - intros j t0 Hne Hj. rewrite <- (Hc j t0 Hj). unfold waiting. cbn [pending p0 with_pending].
    rewrite (loader_delete_other _ k (pending p) (Poll i o, delay) Hk); [reflexivity|].
    cbn. destruct (Nat.eqb_spec i j); congruence.
  - unfold waiting. cbn [pending p0 with_pending]. injection Hci as Hci.
    now apply length_zero_iff_nil.
Qed.

Lemma loader_call_in_order {A} (i : nat) (m : M (instance W) A) (p : page W) :
  keeps_widget m -> in_order p -> in_order (fst (on_instance i m p)).
Proof.
  intros Hm (Ha & Hb & Hc). unfold on_instance.
  destruct (instances p !! i) as [s|] eqn:Hi; [|repeat split; assumption].
  specialize (Hm (with_States (class_States p) s)).
  destruct (m (with_States (class_States p) s)) as [s' r]. cbn [fst] in *.
  pose proof (lookup_lt_Some _ _ _ Hi) as Hlt.
  split; [exact Ha|]. split.
  - cbn. now rewrite length_insert.
  - intros j t Hj. cbn in Hj. unfold waiting. cbn [pending with_class_States with_instances].
    destruct (decide (j = i)) as [->|Hne].
    + rewrite list_lookup_insert_eq in Hj by assumption. injection Hj as <-.
      rewrite Hm. exact (Hc i s Hi).
    + rewrite list_lookup_insert_ne in Hj by congruence. exact (Hc j t Hj).
Qed.

(** X29.  However the API arrives and whatever is done on the page (the
    API coming or going, the page setting its own ready function, the
    ready function in place being called, instances made, timers firing
    in any order, methods and handlers of the class run on the
    instances), [loadYT] inserts one script tag at most; every timer is
    scheduled with the delay 250; an instance that has no widget yet
    has exactly one timer pending, and an instance that has its widget
    has none. *)
Theorem loader_in_order (p : page W) :
  life p ->
  (scripts p <= 1)%nat
  /\ Forall (fun e => snd e = VNumber (Num 250)) (pending p)
  /\ forall i s, instances p !! i = Some s ->
       length (waiting i p) = (if widget_made s then 0 else 1)%nat.
Proof.
  intros Hlife.
  assert (Hinv : in_order p).
  { induction Hlife as [yt v|yt p _ IH|v p _ IH|args p _ IH|o p _ IH|k p _ IH
                        |A i m p Hm _ IH].
    - repeat split; [constructor|]. intros i s Hi. discriminate.
    - exact IH.
    - exact IH.
    - destruct (apply_hook_frame (onYouTubeIframeAPIReady p) args p)
        as (_ & E2 & E3 & E4 & E5).
      now apply (in_order_frame p).
    - now apply loader_construct_in_order.
    - now apply loader_fire_in_order.
    - now apply loader_call_in_order. }
  destruct Hinv as (Ha & Hb & Hc). split; [|split; [|exact Hc]].
  - rewrite Ha. destruct (alreadyCalled p); lia.
  - eapply Forall_impl; [exact Hb|]. now intros e [E _].
Qed.

(** The methods and handlers of the class neither make nor drop the
    widget. *)
Lemma class_keeps_widget :
  (forall A (m : M yta A), keeps_widget (W:=W) (lift m))
  /\ (forall target args, keeps_widget (W:=W) (chained target args))
  /\ (forall flag, keeps_widget (W:=W) (setLoop flag))
  /\ (forall flag, keeps_widget (W:=W) (setAutoPlay flag))
  /\ (forall volume, keeps_widget (W:=W) (setVolume volume))
  /\ keeps_widget (W:=W) getState
  /\ (forall event data, keeps_widget (W:=W) (onStateChange event data)).
Proof.
  unfold keeps_widget, widget_made. repeat split.
  - intros A m s. now rewrite lift_spec.
  - intros target args s. unfold chained, player, bind, ret.
    destruct (_player s) eqn:E; cbn [fst]; rewrite ?E; [|reflexivity].
    now destruct (player_call target args w).
  - intros flag s. unfold setLoop, bind, get, modify, player, ret, throw.
    destruct (_player s) eqn:E; cbn [fst _player with_loop]; rewrite ?E; [|reflexivity].
    now destruct (player_call "setLoop" [VBool (truthy flag)] w).
  - intros volume s. unfold setVolume, bind, player, ret.
    destruct (_player s) eqn:E; cbn [fst]; rewrite ?E; [|reflexivity].
    destruct (player_call "getVolume" [] w) as [w1 v1]. cbn [_player with_player].
    now destruct (player_call "setVolume" [volume] w1).
  - intros s. unfold getState, bind, get, throw, ret. now destruct (States s).
  - intros event data s. unfold onStateChange. unfold bind at 1, get.
    destruct (States s) as [table|] eqn:Hs; [|reflexivity].
    pose proof (onStateChange_spec s event data table Hs) as Hrun.
    unfold onStateChange in Hrun. unfold bind at 1, get in Hrun. rewrite Hs in Hrun.
    rewrite Hrun. cbv zeta.
    destruct (snd (trigger "stateChange" [event] (registry s)));
      [destruct (default VUndefined (table !! js_number_to_string data))|]; reflexivity.
Qed.

(** X30.  A new instance and the API.  When the API is there, the
    constructor makes the widget at once, with the listeners of the
    options: no timer, no script tag, the page's ready function
    untouched.  When it is not there (and [loadYT] has not run), the
    constructor leaves an instance without widget, one timer with the
    delay 250 and one script tag, and puts its own function in front of
    the page's ready function; when the API arrives and calls that
    function, the page's ready function is back in place and is called
    with the same arguments if it is a function, and the instance still
    has no widget; the timer that fires next makes the widget and is
    not scheduled again. *)
Theorem construct_around_api (p : page W) (o : list (string * value)) (v : value)
    (args : list value) :
  let i := length (instances p) in
  let k := length (pending p) in
  let p1 := fst (construct (Some o) p) in
  let p2 := fst (api_arrives args p1) in
  let p3 := fst (fire k p2) in
  exists s0,
    constructor (Some o) = Ok s0
    /\ snd (construct (Some o) p) = Ok VThis
    /\ (YT_Player p = true ->
        instances p1 = instances p ++ [fst (constructYTA o (with_States (class_States p) s0))]
        /\ pending p1 = pending p /\ scripts p1 = scripts p
        /\ alreadyCalled p1 = alreadyCalled p
        /\ onYouTubeIframeAPIReady p1 = onYouTubeIframeAPIReady p)
    /\ (YT_Player p = false -> alreadyCalled p = false ->
        onYouTubeIframeAPIReady p = Own v ->
        (instances p1 = instances p ++ [s0]
         /\ pending p1 = pending p ++ [(Poll i o, VNumber (Num 250))]
         /\ scripts p1 = S (scripts p)
         /\ onYouTubeIframeAPIReady p1 = Restoring (Own v))
        /\ (onYouTubeIframeAPIReady p2 = Own v
            /\ page_calls p2
               = page_calls p ++ match v with VFunction f => [(f, args)] | _ => [] end
            /\ instances p2 = instances p1 /\ pending p2 = pending p1)
        /\ (snd (fire k p2) = Ok (VBool true)
            /\ instances p3
               = instances p ++ [fst (constructYTA o (with_States (class_States p) s0))]
            /\ pending p3 = pending p /\ scripts p3 = S (scripts p))).
Proof.
  intros i k p1 p2 p3.
  set (s0 := ({| registry := Registry.empty; _loop := truthy (option_named "loop" o);
                 _autoPlay := truthy (option_named "autoPlay" o); _player := None;
                 _stateId := VUndefined; States := None; written := [] |} : instance W)).
  exists s0. split; [reflexivity|].
  set (p0 := with_instances (instances p ++ [s0]) p).
  assert (Hi : instances p0 !! i = Some s0) by (apply list_lookup_middle; reflexivity).
  assert (Hc : construct (Some o) p
               = match callUntil (callback i o) (VNumber (Num 250)) (Poll i o) p0 with
                 | (q, Ok w) =>
                     if truthy w then (q, Ok VThis)
                     else (fst (loadYT q),
                           match snd (loadYT q) with Ok _ => Ok VThis | Throw e => Throw e end)
                 | (q, Throw e) => (q, Throw e)
                 end).
  { unfold construct. cbn [constructor default from_option id]. fold s0.
    unfold bind at 1, get. unfold bind at 1. unfold modify at 1. fold i p0.
    unfold bind at 1.
    destruct (callUntil (callback i o) (VNumber (Num 250)) (Poll i o) p0) as [q [w|e]];
      [|reflexivity].
    unfold bind, ret. destruct (truthy w); [reflexivity|].
    now destruct (loadYT q) as [q' [[]|e]]. }
  rewrite (poll_spec i o _ p0 s0 Hi) in Hc. cbn [YT_Player p0 with_instances] in Hc.
  assert (Hins : <[i := fst (constructYTA o (with_States (class_States p) s0))]>
                   (instances p ++ [s0])
                 = instances p ++ [fst (constructYTA o (with_States (class_States p) s0))]).
  { subst i. rewrite <- (Nat.add_0_r (length (instances p))).
    now rewrite insert_app_r. }
  split.
  - rewrite Hc. destruct (YT_Player p); [reflexivity|].
    unfold loadYT, bind, get, modify, ret. cbn [alreadyCalled with_pending p0 with_instances].
    now destruct (alreadyCalled p).
  - split.
    + intros Hyt. subst p1. rewrite Hc, Hyt. cbn [truthy fst].
      cbn [instances pending scripts alreadyCalled onYouTubeIframeAPIReady
           with_class_States with_instances p0 class_States].
      rewrite Hins. auto.
    + intros Hyt Hcalled Hhook.
      assert (E1 : p1 = with_onYouTubeIframeAPIReady (Restoring (Own v))
                          (with_scripts (S (scripts p))
                             (with_alreadyCalled true
                                (with_pending (pending p ++ [(Poll i o, VNumber (Num 250))])
                                   p0)))).
      { subst p1. rewrite Hc, Hyt. cbn [truthy fst].
        unfold loadYT, bind, get, modify, ret.
        cbn [alreadyCalled with_pending p0 with_instances]. rewrite Hcalled.
        cbn [fst scripts onYouTubeIframeAPIReady with_alreadyCalled with_scripts
             with_pending with_instances]. rewrite <- Hhook. reflexivity. }
      assert (E2 : p2 = with_page_calls
                          (page_calls p ++ match v with VFunction f => [(f, args)] | _ => [] end)
                          (with_onYouTubeIframeAPIReady (Own v)
                             (with_YT_Player true p1))).
      { subst p2. rewrite E1. unfold api_arrives. unfold bind at 1. unfold modify at 1.
        unfold bind at 1, get.
        cbn [onYouTubeIframeAPIReady with_YT_Player with_onYouTubeIframeAPIReady
             is_function apply_hook].
        unfold bind at 1. unfold modify at 1.
        destruct v; cbn; rewrite ?app_nil_r; try reflexivity.
        destruct (fn_throws (page_calls p) f args); reflexivity. }
      split; [rewrite E1; cbn; auto|].
      split; [rewrite E2; cbn; auto|].
      assert (Hk : pending p2 !! k = Some (Poll i o, VNumber (Num 250))).
      { rewrite E2, E1. cbn. apply list_lookup_middle. reflexivity. }
      assert (Hi2 : instances p2 !! i = Some s0).
      { rewrite E2, E1. cbn. exact Hi. }
      assert (E3 : fire k p2
                   = (with_class_States (Some (build_States PlayerState))
                        (with_instances
                           (instances p
                            ++ [fst (constructYTA o (with_States (class_States p) s0))])
                           (with_pending (pending p) p2)),
                      Ok (VBool true))).
      { unfold fire. unfold bind at 1, get. rewrite Hk.
        unfold bind at 1. unfold modify at 1. unfold run_timer.
        rewrite (poll_spec i o _ _ s0) by exact Hi2.
        cbn [YT_Player with_pending]. rewrite E2 at 1. cbn [YT_Player with_page_calls
          with_onYouTubeIframeAPIReady with_YT_Player].
        f_equal. rewrite E2, E1.
        cbn [pending instances class_States with_page_calls with_onYouTubeIframeAPIReady
             with_YT_Player with_scripts with_alreadyCalled with_pending with_instances p0].
        subst k. rewrite delete_middle, Hins, app_nil_r. reflexivity. }
      subst p3. rewrite E3. cbn [fst snd instances pending scripts with_class_States
                                 with_instances with_pending].
      rewrite E2, E1. cbn. auto.
Qed.

End LoaderFacts.

Section LoaderRuns.
Import Registry Audio Loader Example.

(** X29 on a page where the API arrives after the instance was made:
    the timer fires, then [play()] is called. *)
Lemma loader_in_order_witness :
  let p := fst (on_instance 0 play
                  (fst (fire 0
                          (with_YT_Player true
                             (fst (construct (Some [("onPlaying", VFunction 2%nat)])
                                     (fresh (W:=recorder) false VUndefined))))))) in
  (scripts p <= 1)%nat /\ pending p = [].
Proof.
  intros p.
  destruct (loader_in_order p) as (Hs & _).
  { apply life_call; [apply class_keeps_widget|].
    apply life_fire, life_api, life_construct, life_fresh. }
  split; [exact Hs | reflexivity].
Defined.

End LoaderRuns.
